(** * Daily rollup pipeline of SIS-Share: a shallow embedding

    The development follows [scripts/build-daily-from-raw.mjs] (key
    normaliser, registry resolver, the three source aggregators, the range
    driver), [src/lib/daily-rollups.mjs] (document builder, atomic write),
    [src/config/testInstances.mjs] and, for the dates of a range,
    [scripts/fetch-raw.mjs] ([validateIsoDate], [enumerateDates],
    [parseDateArgs]).

    Modelling conventions.
    - Strings are sequences of 8-bit characters; [toLowerCase], [toUpperCase]
      and [trim] act on ASCII letters and ASCII white space.
    - A JS number is a [num]: an integer, NaN or one of the two infinities.
      Every counter of the rollup counts records or adds per-record counts;
      fractions and the rounding of IEEE doubles are not part of the model:
      [numAdd] adds whole numbers exactly, as the code does while they stay
      below 2^53. A statement that takes a sum in the order of the code
      does not depend on this; one that reorders a sum does.
    - A raw record is a JSON object whose fields hold scalars ([value]):
      [undefined] for a missing field, [null], booleans, numbers, strings.
      Nested objects and arrays as field values are not modelled, and with
      them the [TypeError] of [toString()] or [Number()] on an object
      whose [toString] is not a function.
    - The conversions between strings and numbers ([Number] on a string,
      [toString] on a number) and the collation used by [localeCompare]
      belong to the JS runtime and are parameters ([JsRuntime]); every
      theorem holds for every runtime.
    - An object used as a dictionary is an association list in insertion
      order ([obj]). JS lists integer-like keys first; that changes the
      order of the entries of [byFi] and [by_termination] only, never their
      contents. Of the names every object inherits only [constructor] and
      [__proto__] are lower-case, so only they can meet an FI key: the
      second loops then find a truthy inherited object instead of a
      bucket. The model follows what the loop does next (pass on, or raise
      a [TypeError]); what the additions do to the inherited object is not
      tracked. For [constructor] they land on the function [Object] and
      nothing reads them. For [__proto__] in GA rows they store an
      [instances] array on [Object.prototype], and from then on, in that
      process, a look-up of the FI key [instances] finds this array instead
      of a bucket. The model has no process state: it describes a process
      in which no such write has been made.
    - A function that can raise a [TypeError] returns an [option]. Raw
      files are taken as parsed ([JSON.parse] succeeded) and writes as
      successful.
    - [Map] instances and the file system are finite maps ([gmap]).
    - Of [Date] the enumeration of a range uses the time value of a day at
      midnight UTC and the day of a time value; both are parameters
      ([DateRuntime]). The loop over the days takes fuel, and enough fuel
      always gives its result. *)

From stdpp Require Import gmap strings list fin_maps.
From Stdlib Require Import ZArith Ascii String Lia.

Local Open Scope string_scope.
Local Open Scope Z_scope.

(** ** Characters and strings *)

Definition inRange (lo hi : nat) (c : ascii) : bool :=
  let n := nat_of_ascii c in (Nat.leb lo n) && (Nat.leb n hi).

Definition isUpperAZ (c : ascii) : bool := inRange 65 90 c.
Definition isLowerAZ (c : ascii) : bool := inRange 97 122 c.
Definition isDigit (c : ascii) : bool := inRange 48 57 c.

(** The class [[a-z0-9]]. *)
Definition isAlnumLower (c : ascii) : bool := isLowerAZ c || isDigit c.

(** The class [\s], restricted to ASCII: tab, LF, VT, FF, CR, space. *)
Definition isSpace (c : ascii) : bool :=
  inRange 9 13 c || Nat.eqb (nat_of_ascii c) 32.

(** The class [[\s_]]. *)
Definition isSpaceOrUnderscore (c : ascii) : bool :=
  isSpace c || Nat.eqb (nat_of_ascii c) 95.

Definition lowerChar (c : ascii) : ascii :=
  if isUpperAZ c then ascii_of_nat (nat_of_ascii c + 32) else c.

Definition upperChar (c : ascii) : ascii :=
  if isLowerAZ c then ascii_of_nat (nat_of_ascii c - 32) else c.

Fixpoint mapString (f : ascii -> ascii) (s : string) : string :=
  match s with
  | EmptyString => EmptyString
  | String c r => String (f c) (mapString f r)
  end.

Fixpoint filterString (p : ascii -> bool) (s : string) : string :=
  match s with
  | EmptyString => EmptyString
  | String c r => if p c then String c (filterString p r) else filterString p r
  end.

Fixpoint allString (p : ascii -> bool) (s : string) : bool :=
  match s with
  | EmptyString => true
  | String c r => p c && allString p r
  end.

Definition toLowerCase (s : string) : string := mapString lowerChar s.
Definition toUpperCase (s : string) : string := mapString upperChar s.

Fixpoint trimStart (s : string) : string :=
  match s with
  | EmptyString => EmptyString
  | String c r => if isSpace c then trimStart r else s
  end.

Fixpoint trimEnd (s : string) : string :=
  match s with
  | EmptyString => EmptyString
  | String c r =>
      let r' := trimEnd r in
      if isSpace c && String.eqb r' EmptyString then EmptyString else String c r'
  end.

Definition trim (s : string) : string := trimEnd (trimStart s).

Definition isEmpty (s : string) : bool :=
  match s with EmptyString => true | _ => false end.

(** [s.startsWith(p)] *)
Fixpoint startsWith (s p : string) : bool :=
  match p with
  | EmptyString => true
  | String a p' =>
      match s with
      | EmptyString => false
      | String b s' => Ascii.eqb a b && startsWith s' p'
      end
  end.

(** [s.endsWith(p)] *)
Definition endsWith (s p : string) : bool :=
  let n := String.length s in
  let k := String.length p in
  Nat.leb k n && String.eqb (String.substring (n - k) k s) p.

(** [s.slice(0, -k)] *)
Definition dropEnd (k : nat) (s : string) : string :=
  String.substring 0 (String.length s - k) s.

(** [s.replace(/[\s_]+/g, "-")]: every maximal run becomes one hyphen. *)
Fixpoint hyphenateRuns (inRun : bool) (s : string) : string :=
  match s with
  | EmptyString => EmptyString
  | String c r =>
      if isSpaceOrUnderscore c
      then (if inRun then hyphenateRuns true r else String "-" (hyphenateRuns true r))
      else String c (hyphenateRuns false r)
  end.

(** [s.split(".")] *)
Fixpoint splitOn (sep : ascii) (cur : string) (s : string) : list string :=
  match s with
  | EmptyString => [cur]
  | String c r =>
      if Ascii.eqb c sep then cur :: splitOn sep EmptyString r
      else splitOn sep (cur +:+ String c EmptyString) r
  end.

Definition splitDot (s : string) : list string := splitOn "." EmptyString s.

(** ** Numbers and scalar values *)

Inductive num : Type :=
| Fin (z : Z)
| NaN
| PInf
| NInf.

Definition numAdd (a b : num) : num :=
  match a, b with
  | NaN, _ | _, NaN => NaN
  | Fin x, Fin y => Fin (x + y)
  | PInf, NInf | NInf, PInf => NaN
  | PInf, _ | _, PInf => PInf
  | NInf, _ | _, NInf => NInf
  end.

Definition numZero : num := Fin 0.

(** [Number.isFinite] *)
Definition numIsFinite (n : num) : bool :=
  match n with Fin _ => true | _ => false end.

(** Truthiness of a number: everything but 0 and NaN. *)
Definition numTruthy (n : num) : bool :=
  match n with
  | Fin z => negb (Z.eqb z 0)
  | NaN => false
  | PInf | NInf => true
  end.

(** [n > 0] *)
Definition numPositive (n : num) : bool :=
  match n with
  | Fin z => Z.ltb 0 z
  | PInf => true
  | NaN | NInf => false
  end.

(** [n || 0] *)
Definition numOrZero (n : num) : num := if numTruthy n then n else numZero.

Inductive value : Type :=
| VUndef
| VNull
| VBool (b : bool)
| VNum (n : num)
| VStr (s : string).

Definition truthy (v : value) : bool :=
  match v with
  | VUndef | VNull => false
  | VBool b => b
  | VNum n => numTruthy n
  | VStr s => negb (isEmpty s)
  end.

Definition nullish (v : value) : bool :=
  match v with VUndef | VNull => true | _ => false end.

(** [a || b] *)
Definition vor (a b : value) : value := if truthy a then a else b.

(** [a ?? b] *)
Definition vcoalesce (a b : value) : value := if nullish a then b else a.

Declare Scope js_scope.
Delimit Scope js_scope with js.
Infix "<||>" := vor (at level 51, left associativity) : js_scope.
Infix "<??>" := vcoalesce (at level 51, left associativity) : js_scope.

(** What the code needs from the JS runtime beyond ASCII string handling. *)
Record JsRuntime : Type := {
  (** [Number(s)] for a string [s] *)
  StringToNumber : string -> num;
  (** [n.toString()] for a number [n] *)
  NumberToString : num -> string;
  (** [list.sort((a, b) => a.localeCompare(b))] *)
  localeSort : list string -> list string
}.

(** A raw JSON object: field name to scalar. *)
Abbreviation record := (gmap string value).

Definition field (r : record) (name : string) : value :=
  match r !! name with
  | Some v => v
  | None => VUndef
  end.

(** An element of a raw array: a usable object, or anything falsy or
    non-object, which every loop skips. *)
Inductive item : Type :=
| NotObject
| Object (r : record).

(** Objects used as dictionaries, in insertion order. *)
Definition obj (A : Type) : Type := list (string * A).

Fixpoint oget {A} (k : string) (o : obj A) : option A :=
  match o with
  | [] => None
  | (k', v) :: r => if String.eqb k k' then Some v else oget k r
  end.

Fixpoint oset {A} (k : string) (v : A) (o : obj A) : obj A :=
  match o with
  | [] => [(k, v)]
  | (k', v') :: r =>
      if String.eqb k k' then (k, v) :: r else (k', v') :: oset k v r
  end.

Definition okeys {A} (o : obj A) : list string := map fst o.
Definition ovalues {A} (o : obj A) : list A := map snd o.

(** The own-property names that shadow nothing: the only all-lower-case
    names found on [Object.prototype]. Reading them from a fresh [{}]
    yields an inherited, truthy value. *)
Definition inheritedName (k : string) : bool :=
  String.eqb k "constructor" || String.eqb k "__proto__".

(** ** Key normaliser *)

Definition UNKNOWN_INSTANCE : string := "unknown".
Definition CARDUPDATR_SUFFIX : string := ".cardupdatr.app".

Definition INSTANCE_DISPLAY_OVERRIDES : gmap string string :=
  {[ "digitalonboarding" := "digital-onboarding" ]}.

Section KeyNormalizer.

Context (rt : JsRuntime).

(** [v.toString()], for the values the code applies it to (never
    [undefined] or [null]: every call is guarded by [||]). *)
Definition toString (v : value) : string :=
  match v with
  | VStr s => s
  | VBool true => "true"
  | VBool false => "false"
  | VNum n => NumberToString rt n
  | VNull => "null"
  | VUndef => "undefined"
  end.

(** [Number(v)] *)
Definition toNumber (v : value) : num :=
  match v with
  | VUndef => NaN
  | VNull => Fin 0
  | VBool true => Fin 1
  | VBool false => Fin 0
  | VNum n => n
  | VStr s => StringToNumber rt s
  end.

Definition orElse (s d : string) : string := if isEmpty s then d else s.

Definition normalizeFiKey (v : value) : string :=
  if truthy v then toLowerCase (trim (toString v)) else "".

Definition formatInstanceDisplay (v : value) : string :=
  if truthy v then
    let base := hyphenateRuns false (toLowerCase (trim (toString v))) in
    let display := orElse base UNKNOWN_INSTANCE in
    match INSTANCE_DISPLAY_OVERRIDES !! display with
    | Some o => orElse o display
    | None => display
    end
  else UNKNOWN_INSTANCE.

Definition canonicalInstance (v : value) : string :=
  if truthy v then
    let normalized := filterString isAlnumLower (toLowerCase (trim (toString v))) in
    orElse normalized UNKNOWN_INSTANCE
  else UNKNOWN_INSTANCE.

Definition adjustInstanceForFi (fiLookupKey instanceValue : value) : value :=
  let fiNorm := normalizeFiKey fiLookupKey in
  let instanceNorm := canonicalInstance instanceValue in
  if String.eqb fiNorm "advancial-prod" && String.eqb instanceNorm "default"
  then VStr "advancial-prod"
  else instanceValue.

Definition adjustFiLookupForInstance (fiLookupKey instanceValue : value) : value :=
  let fiNorm := normalizeFiKey fiLookupKey in
  let instanceNorm := canonicalInstance instanceValue in
  if String.eqb fiNorm "default" && String.eqb instanceNorm "advancialprod"
  then VStr "advancial-prod"
  else fiLookupKey.

Definition makeFiInstanceKey (fiKey instance : value) : string :=
  let fi := toLowerCase (toString (fiKey <||> VStr "")%js) in
  let inst := canonicalInstance instance in
  fi +:+ "__" +:+ inst.

(** [ensureInstanceDisplay]: [display] is always a string here. *)
Definition ensureInstanceDisplay (l : list string) (display : string) : list string :=
  if isEmpty display then l
  else
    let normalized := canonicalInstance (VStr display) in
    if existsb (fun v => String.eqb (canonicalInstance (VStr v)) normalized) l
    then l
    else localeSort rt (l ++ [display])%list.

End KeyNormalizer.

(** ** Test-instance allowlist ([src/config/testInstances.mjs]) *)

Definition RAW_TEST_INSTANCE_NAMES : list string := ["customer-dev"].

(** The allowlist module has a [canonicalInstance] of its own: it maps a
    falsy or all-punctuation name to the empty string. *)
Definition canonicalTestInstance (s : string) : string :=
  if isEmpty s then "" else filterString isAlnumLower (toLowerCase (trim s)).

Definition TEST_INSTANCE_SET : list string :=
  map canonicalTestInstance RAW_TEST_INSTANCE_NAMES.

Definition isTestInstanceName (s : string) : bool :=
  if isEmpty s then false
  else existsb (String.eqb (canonicalTestInstance s)) TEST_INSTANCE_SET.

(** ** Registry resolver *)

Record RegistryIndex : Type := {
  byLookup : gmap string string;
  byName : gmap string string
}.

Definition emptyIndex : RegistryIndex := {| byLookup := ∅; byName := ∅ |}.

Record HostParse : Type := {
  hp_fi_key : string;
  hp_instance : string
}.

Definition resolveFiFromHost (host : string) : option HostParse :=
  if negb (endsWith host CARDUPDATR_SUFFIX) then None
  else
    let prefix := dropEnd (String.length CARDUPDATR_SUFFIX) host in
    if isEmpty prefix then None
    else
      match splitDot prefix with
      | [] => None
      | [p0] => Some {| hp_fi_key := p0; hp_instance := p0 |}
      | p0 :: p1 :: _ =>
          let fi_key := p0 in
          let instance := if isEmpty p1 then p0 else p1 in
          if String.eqb fi_key "default" && String.eqb instance "advancial-prod"
          then Some {| hp_fi_key := "advancial-prod"; hp_instance := instance |}
          else Some {| hp_fi_key := fi_key; hp_instance := instance |}
      end.

(** A raw day payload once parsed: its [error] field and its array of
    records ([None] when the field is not an array). A payload that is
    absent or falsy is [None] at the use sites. *)
Record Payload : Type := {
  pl_error : value;
  pl_items : option (list item)
}.

Definition payloadItems (raw : Payload) : list item :=
  match pl_items raw with Some l => l | None => [] end.

Record Aggregate (I F : Type) : Type := {
  byInstance : obj I;
  byFi : obj F
}.
Arguments byInstance {I F} _.
Arguments byFi {I F} _.

Definition emptyAggregate {I F} : Aggregate I F := {| byInstance := []; byFi := [] |}.

Section Aggregators.

Context (rt : JsRuntime).

Local Open Scope js_scope.

Abbreviation toString' := (toString rt).
Abbreviation canonicalInstance' := (canonicalInstance rt).

(** One registry entry of [Object.values(fiRegistry)]. *)
Definition indexEntry (idx : RegistryIndex) (entry : item) : RegistryIndex :=
  match entry with
  | NotObject => idx
  | Object e =>
      let lookup :=
        toLowerCase (toString' (field e "fi_lookup_key" <||> field e "fi_name" <||> VStr "")) in
      let name := toLowerCase (toString' (field e "fi_name" <||> VStr "")) in
      let byLookup' :=
        if isEmpty lookup then byLookup idx else <[lookup := lookup]> (byLookup idx) in
      let byName' :=
        if negb (isEmpty name) && negb (isEmpty lookup)
        then <[name := lookup]> (byName idx) else byName idx in
      {| byLookup := byLookup'; byName := byName' |}
  end.

Definition buildRegistryIndex (fiRegistry : list item) : RegistryIndex :=
  foldl indexEntry emptyIndex fiRegistry.

(** [v ? v.toString().toLowerCase() : null]; the empty string stands for
    [null] as well, the callers only test the result for truthiness. *)
Definition lowered (v : value) : string :=
  if truthy v then toLowerCase (toString' v) else "".

(** The result is a string or [null]. *)
Definition resolveFiKey (preferred fallbackName : value) (registryIndex : RegistryIndex)
  : value :=
  let normalizedPreferred := lowered preferred in
  if negb (isEmpty normalizedPreferred) then
    match byLookup registryIndex !! normalizedPreferred with
    | Some k => VStr k
    | None => VStr normalizedPreferred
    end
  else
    let normalizedName := lowered fallbackName in
    match (if isEmpty normalizedName then None
           else byName registryIndex !! normalizedName) with
    | Some k => VStr k
    | None => if isEmpty normalizedName then VNull else VStr normalizedName
    end.

(** *** GA *)

Record GaBucket : Type := {
  g_fi_lookup_key : string;
  g_instance : string;
  g_instance_norm : string;
  g_is_test : bool;
  g_select_merchants : num;
  g_user_data_collection : num;
  g_credential_entry : num
}.

Record GaFiBucket : Type := {
  gf_select_merchants : num;
  gf_user_data_collection : num;
  gf_credential_entry : num;
  gf_instances : list string
}.

(** The [if / else if / else if] chain on the three prefixes. *)
Definition gaAddCount (bucket : GaBucket) (pagePath : string) (count : num) : GaBucket :=
  let select := startsWith pagePath "/select-merchants" in
  let user := startsWith pagePath "/user-data-collection" in
  let cred := startsWith pagePath "/credential-entry" in
  if select then
    {| g_fi_lookup_key := g_fi_lookup_key bucket; g_instance := g_instance bucket;
       g_instance_norm := g_instance_norm bucket; g_is_test := g_is_test bucket;
       g_select_merchants := numAdd (g_select_merchants bucket) count;
       g_user_data_collection := g_user_data_collection bucket;
       g_credential_entry := g_credential_entry bucket |}
  else if user then
    {| g_fi_lookup_key := g_fi_lookup_key bucket; g_instance := g_instance bucket;
       g_instance_norm := g_instance_norm bucket; g_is_test := g_is_test bucket;
       g_select_merchants := g_select_merchants bucket;
       g_user_data_collection := numAdd (g_user_data_collection bucket) count;
       g_credential_entry := g_credential_entry bucket |}
  else if cred then
    {| g_fi_lookup_key := g_fi_lookup_key bucket; g_instance := g_instance bucket;
       g_instance_norm := g_instance_norm bucket; g_is_test := g_is_test bucket;
       g_select_merchants := g_select_merchants bucket;
       g_user_data_collection := g_user_data_collection bucket;
       g_credential_entry := numAdd (g_credential_entry bucket) count |}
  else bucket.

Definition gaMarkTest (isTest : bool) (bucket : GaBucket) : GaBucket :=
  if isTest then
    {| g_fi_lookup_key := g_fi_lookup_key bucket; g_instance := g_instance bucket;
       g_instance_norm := g_instance_norm bucket; g_is_test := true;
       g_select_merchants := g_select_merchants bucket;
       g_user_data_collection := g_user_data_collection bucket;
       g_credential_entry := g_credential_entry bucket |}
  else bucket.

(** [parsedHost?.fi_key] and [parsedHost?.instance] *)
Definition hostFiKey (parsedHost : option HostParse) : value :=
  match parsedHost with Some p => VStr (hp_fi_key p) | None => VUndef end.

Definition hostInstance (parsedHost : option HostParse) : value :=
  match parsedHost with Some p => VStr (hp_instance p) | None => VUndef end.

(** The FI key a GA row resolves to ([null] when it has none). *)
Definition gaFiKey (originalRow : record) (parsedHost : option HostParse)
    (registryIndex : RegistryIndex) : value :=
  let preferredKey :=
    field originalRow "fi_key" <||> field originalRow "fi_lookup_key"
      <||> hostFiKey parsedHost <||> VNull in
  let fallbackName :=
    field originalRow "fi_name" <||> hostFiKey parsedHost <||> VNull in
  resolveFiKey preferredKey fallbackName registryIndex.

Definition gaCount (originalRow : record) : num :=
  toNumber rt (field originalRow "active_users" <??> field originalRow "activeUsers"
                 <??> field originalRow "views" <??> field originalRow "screenPageViews"
                 <??> VNum (Fin 0)).

Definition gaPagePath (originalRow : record) : string :=
  toString' (field originalRow "page" <||> field originalRow "pagePath"
               <||> field originalRow "pathname" <||> VStr "").

(** [host], and the instance named by the row or its host, adjusted for
    the FI and formatted ([instanceDisplay] of the loop body). *)
Definition gaHost (originalRow : record) : value :=
  field originalRow "host" <||> field originalRow "hostname" <||> VStr "".

Definition gaInstanceRaw (originalRow : record) (parsedHost : option HostParse) : value :=
  field originalRow "instance" <||> field originalRow "host_instance"
    <||> hostInstance parsedHost <||> VStr UNKNOWN_INSTANCE.

Definition gaInstanceDisplay (originalRow : record) (parsedHost : option HostParse)
    (fiKey : value) : string :=
  formatInstanceDisplay rt
    (adjustInstanceForFi rt fiKey (gaInstanceRaw originalRow parsedHost)).

(** Body of the first loop of [aggregateGaFromRaw]. [None] is the
    [TypeError] raised by [host.endsWith] when the host is truthy and not a
    string. *)
Definition gaRowStep (registryIndex : RegistryIndex) (byInstance : obj GaBucket)
    (row : item) : option (obj GaBucket) :=
  match row with
  | NotObject => Some byInstance
  | Object originalRow =>
      match gaHost originalRow with
      | VStr host =>
          let parsedHost := resolveFiFromHost host in
          let fiKey := gaFiKey originalRow parsedHost registryIndex in
          if negb (truthy fiKey) then Some byInstance
          else
            let instanceDisplay := gaInstanceDisplay originalRow parsedHost fiKey in
            let normalizedInstance := canonicalInstance' (VStr instanceDisplay) in
            let isTest := isTestInstanceName normalizedInstance in
            let fiInstanceKey := makeFiInstanceKey rt fiKey (VStr normalizedInstance) in
            let bucket :=
              match oget fiInstanceKey byInstance with
              | Some b => b
              | None =>
                  {| g_fi_lookup_key := toString' fiKey;
                     g_instance := instanceDisplay;
                     g_instance_norm := normalizedInstance;
                     g_is_test := isTest;
                     g_select_merchants := Fin 0;
                     g_user_data_collection := Fin 0;
                     g_credential_entry := Fin 0 |}
              end in
            Some (oset fiInstanceKey
                    (gaAddCount (gaMarkTest isTest bucket) (gaPagePath originalRow)
                       (gaCount originalRow))
                    byInstance)
      | _ => None
      end
  end.

Fixpoint gaScanRows (registryIndex : RegistryIndex) (rows : list item)
    (byInstance : obj GaBucket) : option (obj GaBucket) :=
  match rows with
  | [] => Some byInstance
  | row :: rest =>
      match gaRowStep registryIndex byInstance row with
      | Some byInstance' => gaScanRows registryIndex rest byInstance'
      | None => None
      end
  end.

(** The bucket a first entry of an FI starts from, and the additions of
    the second loop. *)
Definition gaFiZero : GaFiBucket :=
  {| gf_select_merchants := Fin 0; gf_user_data_collection := Fin 0;
     gf_credential_entry := Fin 0; gf_instances := [] |}.

Definition gaFiAdd (fiBucket : GaFiBucket) (entry : GaBucket) : GaFiBucket :=
  {| gf_select_merchants := numAdd (gf_select_merchants fiBucket) (g_select_merchants entry);
     gf_user_data_collection :=
       numAdd (gf_user_data_collection fiBucket) (g_user_data_collection entry);
     gf_credential_entry := numAdd (gf_credential_entry fiBucket) (g_credential_entry entry);
     gf_instances := ensureInstanceDisplay rt (gf_instances fiBucket) (g_instance entry) |}.

(** Body of the second loop. For an inherited name [byFi[fiKey]] is truthy
    from the start, no own entry is ever created and the additions land on
    the inherited object: [byFi] keeps its own entries. What the additions
    do to the inherited object is not tracked. *)
Definition gaFiStep (byFi : obj GaFiBucket) (entry : GaBucket) : obj GaFiBucket :=
  let fiKey := g_fi_lookup_key entry in
  if inheritedName fiKey then byFi
  else
    let fiBucket :=
      match oget fiKey byFi with
      | Some b => b
      | None => gaFiZero
      end in
    oset fiKey (gaFiAdd fiBucket entry) byFi.

Definition aggregateGaFromRaw (day : string) (raw : option Payload)
    (registryIndex : RegistryIndex) : option (Aggregate GaBucket GaFiBucket) :=
  match raw with
  | None => Some emptyAggregate
  | Some raw =>
      if truthy (pl_error raw) then Some emptyAggregate
      else
        match gaScanRows registryIndex (payloadItems raw) [] with
        | None => None
        | Some byInstance =>
            Some {| byInstance := byInstance;
                    byFi := foldl gaFiStep [] (ovalues byInstance) |}
        end
  end.

(** *** Sessions *)

Record SessionBucket : Type := {
  s_fi_lookup_key : string;
  s_fi_lookup_norm : string;
  s_instance : string;
  s_instance_norm : string;
  s_is_test : bool;
  s_total_sessions : Z;
  s_sessions_with_jobs : Z;
  s_sessions_with_success : Z;
  s_total_jobs_sum : num;
  s_successful_jobs_sum : num
}.

Record SessionFiBucket : Type := {
  sf_total_sessions : Z;
  sf_sessions_with_jobs : Z;
  sf_sessions_with_success : Z;
  sf_total_jobs_sum : num;
  sf_successful_jobs_sum : num
}.

(** [lookup] and [name] of [safeSessionFiKey]. *)
Definition sessionLookup (session : record) : value :=
  field session "financial_institution_lookup_key" <??> field session "fi_lookup_key"
    <??> VNull.

Definition sessionName (session : record) : value :=
  field session "fi_name" <||> field session "financial_institution"
    <||> field session "financial_institution_name" <||> field session "institution"
    <||> VNull.

Definition safeSessionFiKey (session : record) (registryIndex : RegistryIndex) : value :=
  resolveFiKey (sessionLookup session) (sessionName session) registryIndex
    <||> VStr "unknown_fi".

(** [Number(session.total_jobs) || 0] and [Number(session.successful_jobs) || 0] *)
Definition sessionTotalJobs (session : record) : num :=
  numOrZero (toNumber rt (field session "total_jobs")).

Definition sessionSuccessfulJobs (session : record) : num :=
  numOrZero (toNumber rt (field session "successful_jobs")).

(** [instanceValue] before and after [adjustInstanceForFi]. *)
Definition sessionInstanceRaw (session : record) : value :=
  field session "_instance" <||> field session "instance"
    <||> field session "instance_name" <||> field session "org_name"
    <||> field session "instance_slug" <||> VStr UNKNOWN_INSTANCE.

Definition sessionInstanceValue (session : record) (fiKey : value) : value :=
  adjustInstanceForFi rt fiKey (sessionInstanceRaw session).

(** [fiLookup] of the loop body. *)
Definition sessionFiLookup (session : record) (registryIndex : RegistryIndex) : string :=
  let fiKey := safeSessionFiKey session registryIndex in
  let instanceValue := sessionInstanceValue session fiKey in
  let adjustedFiKey := adjustFiLookupForInstance rt fiKey instanceValue in
  toString' (adjustedFiKey <||> fiKey <||> VStr "unknown_fi").

Definition sessionInstanceDisplay (session : record) (registryIndex : RegistryIndex)
  : string :=
  formatInstanceDisplay rt
    (sessionInstanceValue session (safeSessionFiKey session registryIndex)).

Definition sessionKey (session : record) (registryIndex : RegistryIndex) : string :=
  let normalizedFi := normalizeFiKey rt (VStr (sessionFiLookup session registryIndex)) in
  let normalizedInstance :=
    canonicalInstance' (VStr (sessionInstanceDisplay session registryIndex)) in
  makeFiInstanceKey rt (VStr normalizedFi) (VStr normalizedInstance).

Definition sessionCount (bucket : SessionBucket) (isTest : bool) (totalJobs successfulJobs : num)
  : SessionBucket :=
  {| s_fi_lookup_key := s_fi_lookup_key bucket;
     s_fi_lookup_norm := s_fi_lookup_norm bucket;
     s_instance := s_instance bucket;
     s_instance_norm := s_instance_norm bucket;
     s_is_test := if isTest then true else s_is_test bucket;
     s_total_sessions := s_total_sessions bucket + 1;
     s_sessions_with_jobs :=
       if numPositive totalJobs then s_sessions_with_jobs bucket + 1
       else s_sessions_with_jobs bucket;
     s_sessions_with_success :=
       if numPositive successfulJobs then s_sessions_with_success bucket + 1
       else s_sessions_with_success bucket;
     s_total_jobs_sum := numAdd (s_total_jobs_sum bucket) totalJobs;
     s_successful_jobs_sum := numAdd (s_successful_jobs_sum bucket) successfulJobs |}.

(** The bucket the first session of a key creates. *)
Definition sessionFresh (registryIndex : RegistryIndex) (session : record) : SessionBucket :=
  let fiLookup := sessionFiLookup session registryIndex in
  let normalizedFi := normalizeFiKey rt (VStr fiLookup) in
  let instanceDisplay := sessionInstanceDisplay session registryIndex in
  let normalizedInstance := canonicalInstance' (VStr instanceDisplay) in
  let isTest := isTestInstanceName normalizedInstance in
  {| s_fi_lookup_key := fiLookup;
     s_fi_lookup_norm := normalizedFi;
     s_instance := instanceDisplay;
     s_instance_norm := normalizedInstance;
     s_is_test := isTest;
     s_total_sessions := 0;
     s_sessions_with_jobs := 0;
     s_sessions_with_success := 0;
     s_total_jobs_sum := Fin 0;
     s_successful_jobs_sum := Fin 0 |}.

(** What a session does to its bucket. *)
Definition sessionRecord (registryIndex : RegistryIndex) (bucket : SessionBucket)
    (session : record) : SessionBucket :=
  let normalizedInstance :=
    canonicalInstance' (VStr (sessionInstanceDisplay session registryIndex)) in
  sessionCount bucket (isTestInstanceName normalizedInstance)
    (sessionTotalJobs session) (sessionSuccessfulJobs session).

(** Body of the first loop of [aggregateSessionsFromRaw]. *)
Definition sessionStep (registryIndex : RegistryIndex) (byInstance : obj SessionBucket)
    (row : item) : obj SessionBucket :=
  match row with
  | NotObject => byInstance
  | Object session =>
      let key := sessionKey session registryIndex in
      let bucket :=
        match oget key byInstance with
        | Some b => b
        | None => sessionFresh registryIndex session
        end in
      oset key (sessionRecord registryIndex bucket session) byInstance
  end.

(** [entry.fi_lookup_norm || entry.fi_lookup_key?.toString().toLowerCase()] *)
Definition sessionEntryFiKey (entry : SessionBucket) : string :=
  orElse (s_fi_lookup_norm entry) (toLowerCase (s_fi_lookup_key entry)).

Definition sessionFiZero : SessionFiBucket :=
  {| sf_total_sessions := 0; sf_sessions_with_jobs := 0;
     sf_sessions_with_success := 0; sf_total_jobs_sum := Fin 0;
     sf_successful_jobs_sum := Fin 0 |}.

Definition sessionFiAdd (fiBucket : SessionFiBucket) (entry : SessionBucket)
  : SessionFiBucket :=
  {| sf_total_sessions := sf_total_sessions fiBucket + s_total_sessions entry;
     sf_sessions_with_jobs := sf_sessions_with_jobs fiBucket + s_sessions_with_jobs entry;
     sf_sessions_with_success :=
       sf_sessions_with_success fiBucket + s_sessions_with_success entry;
     sf_total_jobs_sum :=
       numAdd (sf_total_jobs_sum fiBucket) (numOrZero (s_total_jobs_sum entry));
     sf_successful_jobs_sum :=
       numAdd (sf_successful_jobs_sum fiBucket) (numOrZero (s_successful_jobs_sum entry)) |}.

(** Body of the second loop; inherited names as in [gaFiStep]. *)
Definition sessionFiStep (byFi : obj SessionFiBucket) (entry : SessionBucket)
  : obj SessionFiBucket :=
  let fiKey := sessionEntryFiKey entry in
  if isEmpty fiKey then byFi
  else if inheritedName fiKey then byFi
  else
    let fiBucket :=
      match oget fiKey byFi with
      | Some b => b
      | None => sessionFiZero
      end in
    oset fiKey (sessionFiAdd fiBucket entry) byFi.

Definition aggregateSessionsFromRaw (raw : option Payload) (registryIndex : RegistryIndex)
  : Aggregate SessionBucket SessionFiBucket :=
  match raw with
  | None => emptyAggregate
  | Some raw =>
      if truthy (pl_error raw) then emptyAggregate
      else
        let byInstance := foldl (sessionStep registryIndex) [] (payloadItems raw) in
        {| byInstance := byInstance;
           byFi := foldl sessionFiStep [] (ovalues byInstance) |}
  end.

(** *** Placements *)

Record PlacementTotals : Type := {
  total_placements : Z;
  successful_placements : Z;
  by_termination : obj Z
}.

Record PlacementBucket : Type := {
  p_fi_lookup_key : string;
  p_fi_lookup_norm : string;
  p_instance : string;
  p_instance_norm : string;
  p_is_test : bool;
  p_totals : PlacementTotals
}.

(** [lookup] and [name] of [safePlacementFiKey]. *)
Definition placementLookup (placement : record) : value :=
  field placement "fi_lookup_key" <||> field placement "financial_institution_lookup_key"
    <||> VNull.

Definition placementName (placement : record) : value :=
  field placement "fi_name" <||> field placement "financial_institution"
    <||> field placement "issuer_name" <||> VNull.

Definition safePlacementFiKey (placement : record) (registryIndex : RegistryIndex) : value :=
  resolveFiKey (placementLookup placement) (placementName placement) registryIndex
    <||> VStr "unknown_fi".

Definition isSuccessfulPlacement (placement : record) : bool :=
  let status := toUpperCase (toString' (field placement "status" <||> VStr "")) in
  let termination :=
    toUpperCase (toString' (field placement "termination_type" <||> VStr "")) in
  String.eqb status "SUCCESSFUL" || String.eqb termination "BILLABLE".

Definition placementTermination (placement : record) : string :=
  toUpperCase
    (toString' (field placement "termination_type" <||> field placement "termination"
                  <||> field placement "status" <||> VStr "UNKNOWN")).

Definition placementInstanceRaw (placement : record) : value :=
  field placement "_instance" <||> field placement "instance"
    <||> field placement "instance_name" <||> field placement "org_name"
    <||> VStr UNKNOWN_INSTANCE.

Definition placementInstanceValue (placement : record) (baseFiKey : string) : value :=
  adjustInstanceForFi rt (VStr baseFiKey) (placementInstanceRaw placement).

(** [fiKey] of the loop body. *)
Definition placementFiKey (placement : record) (registryIndex : RegistryIndex) : string :=
  let baseFiKey := toString' (safePlacementFiKey placement registryIndex) in
  let instanceValue := placementInstanceValue placement baseFiKey in
  let adjustedFiKey := adjustFiLookupForInstance rt (VStr baseFiKey) instanceValue in
  toString' (adjustedFiKey <||> VStr baseFiKey).

Definition placementInstanceDisplay (placement : record) (registryIndex : RegistryIndex)
  : string :=
  formatInstanceDisplay rt
    (placementInstanceValue placement
       (toString' (safePlacementFiKey placement registryIndex))).

Definition placementKey (placement : record) (registryIndex : RegistryIndex) : string :=
  let normalizedFi := normalizeFiKey rt (VStr (placementFiKey placement registryIndex)) in
  let normalizedInstance :=
    canonicalInstance' (VStr (placementInstanceDisplay placement registryIndex)) in
  makeFiInstanceKey rt (VStr normalizedFi) (VStr normalizedInstance).

(** [o[k] = (o[k] || 0) + n] *)
Definition bump (k : string) (n : Z) (o : obj Z) : obj Z :=
  oset k ((match oget k o with Some c => c | None => 0 end) + n) o.

Definition placementCount (totals : PlacementTotals) (success : bool) (termination : string)
  : PlacementTotals :=
  {| total_placements := total_placements totals + 1;
     successful_placements :=
       if success then successful_placements totals + 1 else successful_placements totals;
     by_termination := bump termination 1 (by_termination totals) |}.

Definition emptyPlacementTotals : PlacementTotals :=
  {| total_placements := 0; successful_placements := 0; by_termination := [] |}.

(** The bucket the first placement of a key creates. *)
Definition placementFresh (registryIndex : RegistryIndex) (placement : record)
  : PlacementBucket :=
  let fiKey := placementFiKey placement registryIndex in
  let normalizedFi := normalizeFiKey rt (VStr fiKey) in
  let instanceDisplay := placementInstanceDisplay placement registryIndex in
  let normalizedInstance := canonicalInstance' (VStr instanceDisplay) in
  let isTest := isTestInstanceName normalizedInstance in
  {| p_fi_lookup_key := fiKey;
     p_fi_lookup_norm := normalizedFi;
     p_instance := instanceDisplay;
     p_instance_norm := normalizedInstance;
     p_is_test := isTest;
     p_totals := emptyPlacementTotals |}.

(** What a placement does to its bucket. *)
Definition placementRecord (registryIndex : RegistryIndex) (bucket : PlacementBucket)
    (placement : record) : PlacementBucket :=
  let normalizedInstance :=
    canonicalInstance' (VStr (placementInstanceDisplay placement registryIndex)) in
  {| p_fi_lookup_key := p_fi_lookup_key bucket;
     p_fi_lookup_norm := p_fi_lookup_norm bucket;
     p_instance := p_instance bucket;
     p_instance_norm := p_instance_norm bucket;
     p_is_test := if isTestInstanceName normalizedInstance then true else p_is_test bucket;
     p_totals :=
       placementCount (p_totals bucket) (isSuccessfulPlacement placement)
         (placementTermination placement) |}.

(** Body of the first loop of [aggregatePlacementsFromRaw]. *)
Definition placementStep (registryIndex : RegistryIndex) (byInstance : obj PlacementBucket)
    (row : item) : obj PlacementBucket :=
  match row with
  | NotObject => byInstance
  | Object placement =>
      let key := placementKey placement registryIndex in
      let bucket :=
        match oget key byInstance with
        | Some b => b
        | None => placementFresh registryIndex placement
        end in
      oset key (placementRecord registryIndex bucket placement) byInstance
  end.

(** [entry.fi_lookup_norm || entry.fi_lookup_key?.toLowerCase()] *)
Definition placementEntryFiKey (entry : PlacementBucket) : string :=
  orElse (p_fi_lookup_norm entry) (toLowerCase (p_fi_lookup_key entry)).

(** The inner loop over [Object.entries(entry.by_termination)]. *)
Definition mergeTerminations (into from : obj Z) : obj Z :=
  foldl (fun acc kv => bump (fst kv) (snd kv) acc) into from.

Definition placementFiAdd (fiBucket : PlacementTotals) (entry : PlacementBucket)
  : PlacementTotals :=
  {| total_placements := total_placements fiBucket + total_placements (p_totals entry);
     successful_placements :=
       successful_placements fiBucket + successful_placements (p_totals entry);
     by_termination :=
       mergeTerminations (by_termination fiBucket) (by_termination (p_totals entry)) |}.

(** Body of the second loop. For an inherited name the bucket read from
    [byFi] is the inherited object, which has no [by_termination]: the first
    pass of the inner loop raises a [TypeError] ([None]). *)
Definition placementFiStep (byFi : obj PlacementTotals) (entry : PlacementBucket)
  : option (obj PlacementTotals) :=
  let fiKey := placementEntryFiKey entry in
  if isEmpty fiKey then Some byFi
  else if inheritedName fiKey then
    match by_termination (p_totals entry) with
    | [] => Some byFi
    | _ :: _ => None
    end
  else
    let fiBucket :=
      match oget fiKey byFi with
      | Some b => b
      | None => emptyPlacementTotals
      end in
    Some (oset fiKey (placementFiAdd fiBucket entry) byFi).

Fixpoint placementFold (entries : list PlacementBucket) (byFi : obj PlacementTotals)
  : option (obj PlacementTotals) :=
  match entries with
  | [] => Some byFi
  | entry :: rest =>
      match placementFiStep byFi entry with
      | Some byFi' => placementFold rest byFi'
      | None => None
      end
  end.

Definition aggregatePlacementsFromRaw (raw : option Payload) (registryIndex : RegistryIndex)
  : option (Aggregate PlacementBucket PlacementTotals) :=
  match raw with
  | None => Some emptyAggregate
  | Some raw =>
      if truthy (pl_error raw) then Some emptyAggregate
      else
        let byInstance := foldl (placementStep registryIndex) [] (payloadItems raw) in
        match placementFold (ovalues byInstance) [] with
        | None => None
        | Some byFi => Some {| byInstance := byInstance; byFi := byFi |}
        end
  end.

End Aggregators.

(** ** Daily document builder ([src/lib/daily-rollups.mjs]) *)

Record GaCounts : Type := {
  select_merchants : num;
  user_data_collection : num;
  credential_entry : num
}.

Record SessionCounts : Type := {
  total : Z;
  with_jobs : Z;
  with_success : Z;
  without_jobs : Z;
  total_jobs : num;
  successful_jobs : num;
  job_distribution : obj Z
}.

Record FiEntry : Type := {
  fi_ga : GaCounts;
  fi_ga_instances : list string;
  fi_sessions : SessionCounts;
  fi_placements : PlacementTotals
}.

Record FiInstanceEntry : Type := {
  fi_lookup_key : string;
  instance : string;
  is_test : bool;
  in_ga : GaCounts;
  in_sessions : SessionCounts;
  in_placements : PlacementTotals
}.

Record Sources : Type := {
  src_ga : bool;
  src_sis_sessions : bool;
  src_sis_placements : bool
}.

Record DailyDocument : Type := {
  date : string;
  sources : Sources;
  fi : obj FiEntry;
  fi_instances : obj FiInstanceEntry
}.

(** [key.split("__")] *)
Fixpoint splitDunder (cur : string) (s : string) : list string :=
  match s with
  | EmptyString => [cur]
  | String c r =>
      match r with
      | String c' r' =>
          if Ascii.eqb c "_" && Ascii.eqb c' "_" then cur :: splitDunder EmptyString r'
          else splitDunder (cur +:+ String c EmptyString) r
      | EmptyString => [cur +:+ String c EmptyString]
      end
  end.

(** [parseInstanceKey]: the pair [(fi, instance)]. *)
Definition parseInstanceKey (key : string) : string * string :=
  match splitDunder EmptyString key with
  | fi :: instance :: _ => (fi, orElse instance UNKNOWN_INSTANCE)
  | _ => (key, UNKNOWN_INSTANCE)
  end.

Definition includesHyphen (s : string) : bool :=
  negb (isEmpty (filterString (Ascii.eqb "-") s)).

(** [chooseInstanceDisplay]; an absent argument is the empty string. *)
Definition chooseInstanceDisplay (values : list string) : string :=
  let candidates :=
    List.filter (fun v => negb (isEmpty v) && negb (String.eqb v UNKNOWN_INSTANCE)) values in
  match find includesHyphen candidates with
  | Some preferred => preferred
  | None =>
      match candidates with
      | c :: _ => orElse c UNKNOWN_INSTANCE
      | [] => UNKNOWN_INSTANCE
      end
  end.

(** [new Set([...])]: first occurrences, in order. *)
Fixpoint uniq (seen : list string) (l : list string) : list string :=
  match l with
  | [] => []
  | k :: r =>
      if existsb (String.eqb k) seen then uniq seen r else k :: uniq (k :: seen) r
  end.

Definition firstNonEmpty (l : list string) : string :=
  match find (fun s => negb (isEmpty s)) l with
  | Some s => s
  | None => ""
  end.

(** [Math.max(0, (s.total_sessions || 0) - (s.sessions_with_jobs || 0))] *)
Definition withoutJobs (total_sessions sessions_with_jobs : Z) : Z :=
  Z.max 0 (total_sessions - sessions_with_jobs).

Section Builder.

Context (rt : JsRuntime).

(** The loop that fills [gaInstances]. *)
Definition dedupInstances (gaInstancesRaw : list string) : list string :=
  foldl (fun gaInstances display =>
           if isEmpty display then gaInstances
           else if existsb (fun v => String.eqb (canonicalInstance rt (VStr v))
                                        (canonicalInstance rt (VStr display))) gaInstances
                then gaInstances
                else (gaInstances ++ [display])%list)
        [] gaInstancesRaw.

Definition gaCountsOf (sm udc ce : num) : GaCounts :=
  {| select_merchants := numOrZero sm;
     user_data_collection := numOrZero udc;
     credential_entry := numOrZero ce |}.

Definition zeroSessions : SessionCounts :=
  {| total := 0; with_jobs := 0; with_success := 0; without_jobs := withoutJobs 0 0;
     total_jobs := Fin 0; successful_jobs := Fin 0; job_distribution := [] |}.

Definition fiEntryOf (gRaw : option GaFiBucket) (s : option SessionFiBucket)
    (p : option PlacementTotals) : FiEntry :=
  {| fi_ga :=
       match gRaw with
       | Some g => gaCountsOf (gf_select_merchants g) (gf_user_data_collection g)
                     (gf_credential_entry g)
       | None => gaCountsOf (Fin 0) (Fin 0) (Fin 0)
       end;
     fi_ga_instances :=
       match gRaw with
       | Some g =>
           dedupInstances (List.filter (fun i => negb (isEmpty i)) (gf_instances g))
       | None => []
       end;
     fi_sessions :=
       match s with
       | Some s =>
           {| total := sf_total_sessions s;
              with_jobs := sf_sessions_with_jobs s;
              with_success := sf_sessions_with_success s;
              without_jobs := withoutJobs (sf_total_sessions s) (sf_sessions_with_jobs s);
              total_jobs := numOrZero (sf_total_jobs_sum s);
              successful_jobs := numOrZero (sf_successful_jobs_sum s);
              job_distribution := [] |}
       | None => zeroSessions
       end;
     fi_placements :=
       match p with
       | Some p => p
       | None => emptyPlacementTotals
       end |}.

Definition fiInstanceEntryOf (instanceKey : string) (gaEntry : option GaBucket)
    (sessionEntry : option SessionBucket) (placementEntry : option PlacementBucket)
  : FiInstanceEntry :=
  let parsed := parseInstanceKey instanceKey in
  {| fi_lookup_key :=
       orElse (firstNonEmpty
                 [from_option g_fi_lookup_key "" gaEntry;
                  from_option s_fi_lookup_key "" sessionEntry;
                  from_option p_fi_lookup_key "" placementEntry;
                  fst parsed]) "unknown_fi";
     instance :=
       chooseInstanceDisplay
         [from_option g_instance "" gaEntry;
          from_option s_instance "" sessionEntry;
          from_option p_instance "" placementEntry;
          snd parsed];
     is_test :=
       from_option g_is_test false gaEntry || from_option s_is_test false sessionEntry
       || from_option p_is_test false placementEntry;
     in_ga :=
       match gaEntry with
       | Some g => gaCountsOf (g_select_merchants g) (g_user_data_collection g)
                     (g_credential_entry g)
       | None => gaCountsOf (Fin 0) (Fin 0) (Fin 0)
       end;
     in_sessions :=
       match sessionEntry with
       | Some s =>
           {| total := s_total_sessions s;
              with_jobs := s_sessions_with_jobs s;
              with_success := s_sessions_with_success s;
              without_jobs := withoutJobs (s_total_sessions s) (s_sessions_with_jobs s);
              total_jobs := numOrZero (s_total_jobs_sum s);
              successful_jobs := numOrZero (s_successful_jobs_sum s);
              job_distribution := [] |}
       | None => zeroSessions
       end;
     in_placements :=
       match placementEntry with
       | Some p => p_totals p
       | None => emptyPlacementTotals
       end |}.

(** [buildDailyDocument]. The six dictionaries come from the aggregators,
    so none of their own keys is an inherited name and a plain look-up
    reads them. *)
Definition buildDailyDocument (day : string)
    (ga : Aggregate GaBucket GaFiBucket)
    (sessions : Aggregate SessionBucket SessionFiBucket)
    (placements : Aggregate PlacementBucket PlacementTotals) : DailyDocument :=
  let allKeys :=
    uniq [] (okeys (byFi ga) ++ okeys (byFi sessions) ++ okeys (byFi placements)) in
  let instanceKeys :=
    uniq [] (okeys (byInstance ga) ++ okeys (byInstance sessions)
               ++ okeys (byInstance placements)) in
  {| date := day;
     sources :=
       {| src_ga := negb (Nat.eqb (List.length (okeys (byFi ga))) 0);
          src_sis_sessions := negb (Nat.eqb (List.length (okeys (byFi sessions))) 0);
          src_sis_placements := negb (Nat.eqb (List.length (okeys (byFi placements))) 0) |};
     fi :=
       map (fun key =>
              (key, fiEntryOf (oget key (byFi ga)) (oget key (byFi sessions))
                      (oget key (byFi placements))))
           allKeys;
     fi_instances :=
       map (fun instanceKey =>
              (instanceKey,
               fiInstanceEntryOf instanceKey (oget instanceKey (byInstance ga))
                 (oget instanceKey (byInstance sessions))
                 (oget instanceKey (byInstance placements))))
           instanceKeys |}.

End Builder.

(** ** Atomic write and range driver *)

(** The file system: path to contents. Directories are not tracked. *)
Abbreviation FileSystem := (gmap string string).

Inductive FsOp : Type :=
| OpMkdir (dir : string)
| OpWriteFile (path content : string)
| OpRename (oldPath newPath : string).

(** The effect of a completed operation. *)
Definition applyOp (fs : FileSystem) (op : FsOp) : FileSystem :=
  match op with
  | OpMkdir _ => fs
  | OpWriteFile path content => <[path := content]> fs
  | OpRename oldPath newPath =>
      match fs !! oldPath with
      | Some content => <[newPath := content]> (delete oldPath fs)
      | None => fs
      end
  end.

(** What another process may find while one operation runs: the state
    before it, the state after it and, for a write, the file holding any
    prefix of the contents. A rename has no state in between. *)
Inductive during : FsOp -> FileSystem -> FileSystem -> Prop :=
| during_before op fs : during op fs fs
| during_after op fs : during op fs (applyOp fs op)
| during_partial path content part fs :
    startsWith content part = true ->
    during (OpWriteFile path content) fs (<[path := part]> fs).

(** The states met while a sequence of operations runs. *)
Inductive observable : list FsOp -> FileSystem -> FileSystem -> Prop :=
| observable_done fs : observable [] fs fs
| observable_now op ops fs st : during op fs st -> observable (op :: ops) fs st
| observable_later op ops fs st :
    observable ops (applyOp fs op) st -> observable (op :: ops) fs st.

(** [path.join(dir, name)] for a file name that needs no normalisation. *)
Definition pathJoin (dir name : string) : string := dir +:+ "/" +:+ name.

Definition dailyFilePath (baseDir day : string) : string :=
  pathJoin baseDir (day +:+ ".json").

(** [nonce] is [`${process.pid}-${Date.now()}-${Math.random()...}`]. *)
Definition dailyTmpPath (baseDir day nonce : string) : string :=
  pathJoin baseDir ("." +:+ day +:+ ".json.tmp-" +:+ nonce).

Definition writeDailyFileOps (baseDir day nonce content : string) : list FsOp :=
  [OpMkdir baseDir;
   OpWriteFile (dailyTmpPath baseDir day nonce) content;
   OpRename (dailyTmpPath baseDir day nonce) (dailyFilePath baseDir day)].

Definition allSourcesMissing (rawValues : list (option Payload)) : bool :=
  forallb (fun v => match v with None => true | Some _ => false end) rawValues.

(** [DAILY_FORMAT], [/^\d{4}-\d{2}-\d{2}$/] *)
Definition isIsoDate (s : string) : bool :=
  match list_ascii_of_string s with
  | [y1; y2; y3; y4; h1; m1; m2; h2; d1; d2] =>
      forallb isDigit [y1; y2; y3; y4; m1; m2; d1; d2]
      && Ascii.eqb h1 "-" && Ascii.eqb h2 "-"
  | _ => false
  end.

(** What [enumerateRange] returns: the start date alone, as it is given,
    when both ends are equal; otherwise validated ISO dates. *)
Definition isEnumeratedRange (dates : list string) : Prop :=
  (exists d, dates = [d]) \/ Forall (fun d => isIsoDate d = true) dates.

Inductive DayOutcome : Type :=
| DaySkipped
| DayBuilt (doc : DailyDocument)
| DayThrew.

Section Driver.

Context (rt : JsRuntime).

(** [JSON.stringify(doc, null, 2)] *)
Context (stringify : DailyDocument -> string).

(** [readRaw(type, day)]: the parsed payload, [None] when the file is
    missing. *)
Context (readRaw : string -> string -> option Payload).

Definition writeDailyFile (fs : FileSystem) (baseDir day : string) (doc : DailyDocument)
    (nonce : string) : FileSystem :=
  foldl applyOp fs (writeDailyFileOps baseDir day nonce (stringify doc)).

(** One pass of the loop of [buildDailyFromRawRange], up to the write. *)
Definition buildDay (registryIndex : RegistryIndex) (day : string) : DayOutcome :=
  let gaRaw := readRaw "ga" day in
  let sessionsRaw := readRaw "sessions" day in
  let placementsRaw := readRaw "placements" day in
  if allSourcesMissing [gaRaw; sessionsRaw; placementsRaw] then DaySkipped
  else
    match aggregateGaFromRaw rt day gaRaw registryIndex with
    | None => DayThrew
    | Some ga =>
        let sessions := aggregateSessionsFromRaw rt sessionsRaw registryIndex in
        match aggregatePlacementsFromRaw rt placementsRaw registryIndex with
        | None => DayThrew
        | Some placements => DayBuilt (buildDailyDocument rt day ga sessions placements)
        end
    end.

(** The loop over the dates. [nonce i] names the temporary file of the
    [i]-th write; the result tells whether the loop ran to its end. *)
Fixpoint runDays (registryIndex : RegistryIndex) (outDir : string) (nonce : nat -> string)
    (i : nat) (dates : list string) (fs : FileSystem) : FileSystem * bool :=
  match dates with
  | [] => (fs, true)
  | day :: rest =>
      match buildDay registryIndex day with
      | DaySkipped => runDays registryIndex outDir nonce i rest fs
      | DayBuilt doc =>
          runDays registryIndex outDir nonce (S i) rest
            (writeDailyFile fs outDir day doc (nonce i))
      | DayThrew => (fs, false)
      end
  end.

(** The text a run over [dates] leaves in the file of [day], if it writes
    that file: the document of the last pass for [day] that the loop
    reaches. *)
Fixpoint writtenBy (registryIndex : RegistryIndex) (dates : list string) (day : string)
  : option string :=
  match dates with
  | [] => None
  | d :: rest =>
      match buildDay registryIndex d with
      | DaySkipped => writtenBy registryIndex rest day
      | DayBuilt doc =>
          match writtenBy registryIndex rest day with
          | Some text => Some text
          | None => if String.eqb d day then Some (stringify doc) else None
          end
      | DayThrew => None
      end
  end.

(** [buildDailyFromRawRange]; [dates] is [enumerateRange(startDate, endDate)]. *)
Definition buildDailyFromRawRange (fiRegistry : list item) (outDir : string)
    (nonce : nat -> string) (dates : list string) (fs : FileSystem) : FileSystem * bool :=
  runDays (buildRegistryIndex rt fiRegistry) outDir nonce 0 dates fs.

End Driver.

(** ** A runtime for concrete evaluation

    Decimal integer literals, byte-wise collation. The theorems below hold
    for every runtime; this one only closes the worked examples. *)

Fixpoint digitsValue (acc : Z) (s : string) : option Z :=
  match s with
  | EmptyString => Some acc
  | String c r =>
      if isDigit c then digitsValue (10 * acc + Z.of_nat (nat_of_ascii c - 48)) r
      else None
  end.

Definition decimalStringToNumber (s : string) : num :=
  match trim s with
  | EmptyString => Fin 0
  | String c r as t =>
      if String.eqb t "Infinity" || String.eqb t "+Infinity" then PInf
      else if String.eqb t "-Infinity" then NInf
      else
        let body := if Ascii.eqb c "-" || Ascii.eqb c "+" then r else t in
        match body with
        | EmptyString => NaN
        | _ =>
            match digitsValue 0 body with
            | Some z => Fin (if Ascii.eqb c "-" then - z else z)
            | None => NaN
            end
        end
  end.

Fixpoint digitsOf (fuel : nat) (n : N) (acc : string) : string :=
  match fuel with
  | O => acc
  | S fuel' =>
      let d := String (ascii_of_N (48 + N.modulo n 10)) acc in
      if N.ltb n 10 then d else digitsOf fuel' (N.div n 10) d
  end.

Definition decimalNumberToString (n : num) : string :=
  match n with
  | NaN => "NaN"
  | PInf => "Infinity"
  | NInf => "-Infinity"
  | Fin z =>
      let body := digitsOf (S (N.to_nat (N.log2 (Z.abs_N z)))) (Z.abs_N z) "" in
      if Z.ltb z 0 then "-" +:+ body else body
  end.

Fixpoint insertSorted (x : string) (l : list string) : list string :=
  match l with
  | [] => [x]
  | y :: r => if String.leb x y then x :: l else y :: insertSorted x r
  end.

Definition plainRuntime : JsRuntime :=
  {| StringToNumber := decimalStringToNumber;
     NumberToString := decimalNumberToString;
     localeSort := foldr insertSorted [] |}.

(** ** Sums and predicates used to state the properties *)

(** Sum of [f] over the entries filed under FI key [k], in list order. *)
Definition sumBy {E M} (op : M -> M -> M) (e0 : M) (keyOf : E -> string) (f : E -> M)
    (k : string) (entries : list E) : M :=
  foldl (fun acc e => if String.eqb (keyOf e) k then op acc (f e) else acc) e0 entries.

Definition sumNum {E} (keyOf : E -> string) (f : E -> num) (k : string) (entries : list E)
  : num := sumBy numAdd (Fin 0) keyOf f k entries.

Definition sumZ {E} (keyOf : E -> string) (f : E -> Z) (k : string) (entries : list E) : Z :=
  sumBy Z.add 0 keyOf f k entries.

(** [o[k] || 0] *)
Definition countAt (k : string) (o : obj Z) : Z :=
  match oget k o with Some c => c | None => 0 end.

(** Sum of all the counts of a frequency map. *)
Definition sumCounts (o : obj Z) : Z := foldr (fun kv acc => snd kv + acc) 0 o.

(** The FI keys the second loops of Sessions and Placements pass over. *)
Definition skippedFiKey (k : string) : bool := isEmpty k || inheritedName k.

(** The common shape of the three second loops: entries whose FI key is
    skipped leave [byFi] alone, any other entry is combined into the bucket
    of its key, created from [dflt] when missing. *)
Definition groupStep {E F} (keyOf : E -> string) (skip : string -> bool) (dflt : F)
    (combine : F -> E -> F) (byFi : obj F) (e : E) : obj F :=
  if skip (keyOf e) then byFi
  else oset (keyOf e) (combine (from_option id dflt (oget (keyOf e) byFi)) e) byFi.

(** The common shape of the first loops of Sessions and Placements: a
    record is counted into the bucket of its key, created when missing. *)
Definition upsertStep {B} (keyOf : record -> string) (fresh : record -> B)
    (upd : B -> record -> B) (byInstance : obj B) (row : item) : obj B :=
  match row with
  | NotObject => byInstance
  | Object r =>
      oset (keyOf r) (upd (from_option id (fresh r) (oget (keyOf r) byInstance)) r)
        byInstance
  end.

(** The instance key [ik] belongs to a bucket that the source filed under
    FI key [k]. *)
Definition filedUnder {I} (keyOf : I -> string) (byInstance : obj I) (k ik : string) : bool :=
  match oget ik byInstance with
  | Some b => String.eqb (keyOf b) k
  | None => false
  end.

(** Sum of [f] over the [fi_instances] entries of a document whose key
    passes [filed]. *)
Definition docSum {M} (op : M -> M -> M) (e0 : M) (filed : string -> bool)
    (f : FiInstanceEntry -> M) (doc : DailyDocument) : M :=
  foldl (fun acc kv => if filed (fst kv) then op acc (f (snd kv)) else acc) e0
        (fi_instances doc).

Definition docSumNum := @docSum num numAdd (Fin 0).
Definition docSumZ := @docSum Z Z.add 0.

(** Each [byFi] bucket is the sum, counter by counter, of the [byInstance]
    buckets filed under its key. *)
Definition gaFolded (agg : Aggregate GaBucket GaFiBucket) : Prop :=
  forall k b, oget k (byFi agg) = Some b ->
    let entries := ovalues (byInstance agg) in
    gf_select_merchants b = sumNum g_fi_lookup_key g_select_merchants k entries
    /\ gf_user_data_collection b = sumNum g_fi_lookup_key g_user_data_collection k entries
    /\ gf_credential_entry b = sumNum g_fi_lookup_key g_credential_entry k entries.

Definition sessionsFolded (agg : Aggregate SessionBucket SessionFiBucket) : Prop :=
  forall k b, oget k (byFi agg) = Some b ->
    let entries := ovalues (byInstance agg) in
    sf_total_sessions b = sumZ sessionEntryFiKey s_total_sessions k entries
    /\ sf_sessions_with_jobs b = sumZ sessionEntryFiKey s_sessions_with_jobs k entries
    /\ sf_sessions_with_success b = sumZ sessionEntryFiKey s_sessions_with_success k entries
    /\ sf_total_jobs_sum b
       = sumNum sessionEntryFiKey (fun e => numOrZero (s_total_jobs_sum e)) k entries
    /\ sf_successful_jobs_sum b
       = sumNum sessionEntryFiKey (fun e => numOrZero (s_successful_jobs_sum e)) k entries.

Definition placementsFolded (agg : Aggregate PlacementBucket PlacementTotals) : Prop :=
  forall k b, oget k (byFi agg) = Some b ->
    let entries := ovalues (byInstance agg) in
    total_placements b
    = sumZ placementEntryFiKey (fun e => total_placements (p_totals e)) k entries
    /\ successful_placements b
       = sumZ placementEntryFiKey (fun e => successful_placements (p_totals e)) k entries
    /\ forall t,
         countAt t (by_termination b)
         = sumZ placementEntryFiKey (fun e => countAt t (by_termination (p_totals e)))
             k entries.

(** Every instance bucket whose FI key the second loop does not pass over
    has a [byFi] bucket. *)
Definition fiCovered {I F} (keyOf : I -> string) (skip : string -> bool)
    (agg : Aggregate I F) : Prop :=
  forall ik b, oget ik (byInstance agg) = Some b -> skip (keyOf b) = false ->
    exists fb, oget (keyOf b) (byFi agg) = Some fb.

(** No GA count and no job sum of an instance bucket is NaN or infinite. *)
Definition countsFinite (ga : Aggregate GaBucket GaFiBucket)
    (sessions : Aggregate SessionBucket SessionFiBucket) : Prop :=
  Forall (fun b => numIsFinite (g_select_merchants b) = true
                   /\ numIsFinite (g_user_data_collection b) = true
                   /\ numIsFinite (g_credential_entry b) = true)
         (ovalues (byInstance ga))
  /\ Forall (fun b => numIsFinite (s_total_jobs_sum b) = true
                      /\ numIsFinite (s_successful_jobs_sum b) = true)
            (ovalues (byInstance sessions)).

(** Each [fi] entry of the document is the sum, counter by counter, of the
    [fi_instances] entries that the source of the counter filed under its
    key. *)
Definition documentFolded (ga : Aggregate GaBucket GaFiBucket)
    (sessions : Aggregate SessionBucket SessionFiBucket)
    (placements : Aggregate PlacementBucket PlacementTotals) (doc : DailyDocument) : Prop :=
  forall k e, oget k (fi doc) = Some e ->
    let inGa := filedUnder g_fi_lookup_key (byInstance ga) k in
    let inSessions := filedUnder sessionEntryFiKey (byInstance sessions) k in
    let inPlacements := filedUnder placementEntryFiKey (byInstance placements) k in
    select_merchants (fi_ga e)
    = docSumNum inGa (fun ie => select_merchants (in_ga ie)) doc
    /\ user_data_collection (fi_ga e)
       = docSumNum inGa (fun ie => user_data_collection (in_ga ie)) doc
    /\ credential_entry (fi_ga e)
       = docSumNum inGa (fun ie => credential_entry (in_ga ie)) doc
    /\ total (fi_sessions e) = docSumZ inSessions (fun ie => total (in_sessions ie)) doc
    /\ with_jobs (fi_sessions e)
       = docSumZ inSessions (fun ie => with_jobs (in_sessions ie)) doc
    /\ with_success (fi_sessions e)
       = docSumZ inSessions (fun ie => with_success (in_sessions ie)) doc
    /\ total_jobs (fi_sessions e)
       = docSumNum inSessions (fun ie => total_jobs (in_sessions ie)) doc
    /\ successful_jobs (fi_sessions e)
       = docSumNum inSessions (fun ie => successful_jobs (in_sessions ie)) doc
    /\ total_placements (fi_placements e)
       = docSumZ inPlacements (fun ie => total_placements (in_placements ie)) doc
    /\ successful_placements (fi_placements e)
       = docSumZ inPlacements (fun ie => successful_placements (in_placements ie)) doc
    /\ forall t,
         countAt t (by_termination (fi_placements e))
         = docSumZ inPlacements (fun ie => countAt t (by_termination (in_placements ie))) doc.

(** What the first loop of GA keeps true of [byInstance]: one bucket per
    key, each with a non-empty FI key. *)
Definition gaKeyed (byInstance : obj GaBucket) : Prop :=
  List.NoDup (okeys byInstance)
  /\ Forall (fun kv => isEmpty (g_fi_lookup_key (snd kv)) = false) byInstance.

(** A frequency map lists each termination once. *)
Definition termsKeyed (t : PlacementTotals) : Prop :=
  List.NoDup (okeys (by_termination t)).

(** The breakdown of a bucket accounts for each of its placements once. *)
Definition partitioned (t : PlacementTotals) : Prop :=
  sumCounts (by_termination t) = total_placements t.

(** An instance key is the FI part, two underscores and a non-empty
    instance part over [[a-z0-9]]. *)
Definition keyedBy (fiNorm instanceNorm : string) (k : string) : Prop :=
  k = fiNorm +:+ "__" +:+ instanceNorm
  /\ allString isAlnumLower instanceNorm = true.

(** A record without any FI-identifying field: neither look-up key nor
    name is truthy. *)
Definition sessionHasNoFi (session : record) : bool :=
  negb (truthy (sessionLookup session)) && negb (truthy (sessionName session)).

Definition placementHasNoFi (placement : record) : bool :=
  negb (truthy (placementLookup placement)) && negb (truthy (placementName placement)).

(** The document of a day without records. *)
Definition emptyDocument (day : string) : DailyDocument :=
  {| date := day;
     sources := {| src_ga := false; src_sis_sessions := false;
                   src_sis_placements := false |};
     fi := [];
     fi_instances := [] |}.

(** ** Worked inputs *)

Definition payloadOf (items : list item) : Payload :=
  {| pl_error := VUndef; pl_items := Some items |}.

(** The two GA rows of the acme scenario. *)
Definition scenarioRows : list item :=
  [Object {[ "host" := VStr "acme.instance1.cardupdatr.app";
             "page" := VStr "/select-merchants";
             "active_users" := VNum (Fin 5) ]};
   Object {[ "host" := VStr "acme.instance1.cardupdatr.app";
             "page" := VStr "/credential-entry";
             "active_users" := VNum (Fin 2) ]}].

(** The session of the spec's scenario. *)
Definition sampleSessions : list item :=
  [Object {[ "total_jobs" := VNum (Fin 3); "successful_jobs" := VNum (Fin 1);
             "fi_lookup_key" := VStr "acme"; "_instance" := VStr "Instance1" ]}].

(** Three placements of one instance: two successes and one without any
    termination. *)
Definition samplePlacements : list item :=
  [Object {[ "fi_lookup_key" := VStr "acme"; "_instance" := VStr "Instance1";
             "status" := VStr "successful" ]};
   Object {[ "fi_lookup_key" := VStr "acme"; "_instance" := VStr "Instance1";
             "termination_type" := VStr "billable" ]};
   Object {[ "fi_lookup_key" := VStr "acme"; "_instance" := VStr "Instance1" ]}].

Definition samplePlacementsAggregate : Aggregate PlacementBucket PlacementTotals :=
  match aggregatePlacementsFromRaw plainRuntime (Some (payloadOf samplePlacements))
          emptyIndex with
  | Some agg => agg
  | None => emptyAggregate
  end.

Definition gaOf (rows : list item) : Aggregate GaBucket GaFiBucket :=
  match aggregateGaFromRaw plainRuntime "2025-01-01" (Some (payloadOf rows)) emptyIndex with
  | Some agg => agg
  | None => emptyAggregate
  end.

(** The document of a day with the given GA rows and nothing else. *)
Definition gaOnlyDocument (rows : list item) : DailyDocument :=
  buildDailyDocument plainRuntime "2025-01-01" (gaOf rows) emptyAggregate emptyAggregate.

(** A session whose [total_jobs] was written as [1e999], which
    [JSON.parse] reads as [Infinity]. *)
Definition overflowSession : record :=
  {[ "total_jobs" := VNum PInf; "successful_jobs" := VNum (Fin 1) ]}.

(** Two GA rows of one FI on two instances; the count of the first is not
    a number. *)
Definition malformedCountRows : list item :=
  [Object {[ "fi_key" := VStr "acme"; "instance" := VStr "a";
             "page" := VStr "/select-merchants"; "active_users" := VStr "n/a" ]};
   Object {[ "fi_key" := VStr "acme"; "instance" := VStr "b";
             "page" := VStr "/select-merchants"; "active_users" := VNum (Fin 5) ]}].

(** A GA row without FI key, FI name or host. *)
Definition anonymousGaRows : list item :=
  [Object {[ "page" := VStr "/select-merchants"; "active_users" := VNum (Fin 3) ]}].

(** A session without any FI-identifying field. *)
Definition anonymousSessions : list item :=
  [Object {[ "_instance" := VStr "Instance1"; "total_jobs" := VNum (Fin 2) ]}].

(** The same FI key and instance, as a GA row and as a session. *)
Definition defaultAdvancialGaRows : list item :=
  [Object {[ "fi_key" := VStr "default"; "instance" := VStr "advancialprod";
             "page" := VStr "/select-merchants"; "active_users" := VNum (Fin 1) ]}].

Definition defaultAdvancialSessions : list item :=
  [Object {[ "fi_lookup_key" := VStr "default"; "_instance" := VStr "advancialprod" ]}].

(** A day whose three raw files exist and hold no record, and a day
    without raw files. *)
Definition emptyDayStore (type day : string) : option Payload :=
  if String.eqb day "2025-01-01" then Some (payloadOf []) else None.

(** A day with the scenario's GA rows, session and placements. *)
Definition sampleStore (type day : string) : option Payload :=
  if String.eqb day "2025-01-01" then
    if String.eqb type "ga" then Some (payloadOf scenarioRows)
    else if String.eqb type "sessions" then Some (payloadOf sampleSessions)
    else Some (payloadOf samplePlacements)
  else None.

(** Stand-ins for closed examples: a serialiser that is the date of the
    document (any function would do) and the names of two processes'
    temporary files. *)
Definition dateOnly (doc : DailyDocument) : string := date doc.

Definition firstNonce (i : nat) : string := "4242-1735689600000-9f3a".
Definition secondNonce (i : nat) : string := "977-1735776000000-1c0e".

(** ** Predicates on formatted names and instance keys *)

(** Neither white space, nor an underscore, nor an upper-case letter. *)
Definition isDisplayChar (c : ascii) : bool :=
  negb (isSpaceOrUnderscore c) && negb (isUpperAZ c).

(** [s.includes("__")] *)
Fixpoint includesDunder (s : string) : bool :=
  match s with
  | EmptyString => false
  | String c r =>
      match r with
      | String c' _ => (Ascii.eqb c "_" && Ascii.eqb c' "_") || includesDunder r
      | EmptyString => false
      end
  end.

(** No two displays of the list have the same canonical form. *)
Definition distinctInstances (rt : JsRuntime) (l : list string) : Prop :=
  List.NoDup (map (fun d => canonicalInstance rt (VStr d)) l).

(** The collation of the runtime orders a list: it neither adds nor loses
    an element. *)
Definition sortPermutes (rt : JsRuntime) : Prop :=
  forall l, Permutation (localeSort rt l) l.

(** What the first loop of GA keeps true of a bucket stored under [k]. *)
Definition gaBucketFormed (rt : JsRuntime) (k : string) (b : GaBucket) : Prop :=
  k = toLowerCase (g_fi_lookup_key b) +:+ "__" +:+ g_instance_norm b
  /\ g_instance_norm b = canonicalInstance rt (VStr (g_instance b))
  /\ isEmpty (g_instance b) = false
  /\ g_is_test b = isTestInstanceName (g_instance_norm b).

(** ** GA rows: key and counter *)

(** The instance key under which the first loop of [aggregateGaFromRaw]
    files a row; [None] for a row the loop skips (no object, or no FI key)
    and for one on which it raises. *)
Definition gaRowKey (rt : JsRuntime) (registryIndex : RegistryIndex) (row : item)
    : option string :=
  match row with
  | NotObject => None
  | Object originalRow =>
      match gaHost originalRow with
      | VStr host =>
          let parsedHost := resolveFiFromHost host in
          let fiKey := gaFiKey rt originalRow parsedHost registryIndex in
          if negb (truthy fiKey) then None
          else
            let instanceDisplay := gaInstanceDisplay rt originalRow parsedHost fiKey in
            let normalizedInstance := canonicalInstance rt (VStr instanceDisplay) in
            Some (makeFiInstanceKey rt fiKey (VStr normalizedInstance))
      | _ => None
      end
  end.

(** The three counters of a GA bucket, and the one a page path adds to. *)
Inductive GaColumn : Type := SelectMerchants | UserDataCollection | CredentialEntry.

Definition gaColumnOf (pagePath : string) : option GaColumn :=
  if startsWith pagePath "/select-merchants" then Some SelectMerchants
  else if startsWith pagePath "/user-data-collection" then Some UserDataCollection
  else if startsWith pagePath "/credential-entry" then Some CredentialEntry
  else None.

Definition gaColumnGet (column : GaColumn) (bucket : GaBucket) : num :=
  match column with
  | SelectMerchants => g_select_merchants bucket
  | UserDataCollection => g_user_data_collection bucket
  | CredentialEntry => g_credential_entry bucket
  end.

Definition gaColumnEqb (a b : GaColumn) : bool :=
  match a, b with
  | SelectMerchants, SelectMerchants
  | UserDataCollection, UserDataCollection
  | CredentialEntry, CredentialEntry => true
  | _, _ => false
  end.

(** The rows filed under key [k] whose page belongs to [column], and the
    sum of their counts in the order of the rows. *)
Definition gaRowCounts (rt : JsRuntime) (registryIndex : RegistryIndex) (k : string)
    (column : GaColumn) (row : item) : bool :=
  match gaRowKey rt registryIndex row, row with
  | Some k', Object originalRow =>
      String.eqb k' k
      && from_option (gaColumnEqb column) false (gaColumnOf (gaPagePath rt originalRow))
  | _, _ => false
  end.

Definition gaRowCount (rt : JsRuntime) (row : item) : num :=
  match row with
  | Object originalRow => gaCount rt originalRow
  | NotObject => Fin 0
  end.

Definition gaColumnTotal (rt : JsRuntime) (registryIndex : RegistryIndex) (k : string)
    (column : GaColumn) (rows : list item) : num :=
  foldl numAdd (Fin 0)
    (map (gaRowCount rt) (List.filter (gaRowCounts rt registryIndex k column) rows)).

(** The counter of a column under key [k], zero while the key has no
    bucket. *)
Definition gaColumnAt (column : GaColumn) (o : obj GaBucket) (k : string) : num :=
  from_option (gaColumnGet column) (Fin 0) (oget k o).

(** A GA bucket is not the pair of the FI advancial-prod and the instance
    default. *)
Definition gaPairKept (rt : JsRuntime) (b : GaBucket) : Prop :=
  ~ (normalizeFiKey rt (VStr (g_fi_lookup_key b)) = "advancial-prod"
     /\ g_instance_norm b = "default").

(** ** The registry, entry by entry *)

(** [lookup] and [name] of a registry entry, as [buildRegistryIndex]
    computes them. *)
Definition registryLookupOf (rt : JsRuntime) (e : record) : string :=
  toLowerCase (toString rt (field e "fi_lookup_key" <||> field e "fi_name" <||> VStr "")%js).

Definition registryNameOf (rt : JsRuntime) (e : record) : string :=
  toLowerCase (toString rt (field e "fi_name" <||> VStr "")%js).

(** The entry files its look-up key under [name] in [byName]. *)
Definition namesFi (rt : JsRuntime) (name : string) (entry : item) : bool :=
  match entry with
  | NotObject => false
  | Object e =>
      String.eqb (registryNameOf rt e) name
      && negb (isEmpty (registryNameOf rt e)) && negb (isEmpty (registryLookupOf rt e))
  end.

Definition entryLookup (rt : JsRuntime) (entry : item) : string :=
  match entry with
  | NotObject => ""
  | Object e => registryLookupOf rt e
  end.

(** Every key the index resolves to is lower-case. *)
Definition loweredIndex (idx : RegistryIndex) : Prop :=
  (forall k v, byLookup idx !! k = Some v -> v = k)
  /\ (forall k v, byName idx !! k = Some v -> toLowerCase v = v).

(** ** What the first loops keep true of their buckets *)

(** A Sessions bucket stored under [k]. *)
Definition sessionBucketFormed (rt : JsRuntime) (k : string) (b : SessionBucket) : Prop :=
  k = s_fi_lookup_norm b +:+ "__" +:+ s_instance_norm b
  /\ s_fi_lookup_norm b = normalizeFiKey rt (VStr (s_fi_lookup_key b))
  /\ isEmpty (s_fi_lookup_key b) = false
  /\ s_instance_norm b = canonicalInstance rt (VStr (s_instance b))
  /\ isEmpty (s_instance b) = false
  /\ s_is_test b = isTestInstanceName (s_instance_norm b).

(** A Placements bucket stored under [k]. *)
Definition placementBucketFormed (rt : JsRuntime) (k : string) (b : PlacementBucket) : Prop :=
  k = p_fi_lookup_norm b +:+ "__" +:+ p_instance_norm b
  /\ p_fi_lookup_norm b = normalizeFiKey rt (VStr (p_fi_lookup_key b))
  /\ isEmpty (p_fi_lookup_key b) = false
  /\ p_instance_norm b = canonicalInstance rt (VStr (p_instance b))
  /\ isEmpty (p_instance b) = false
  /\ p_is_test b = isTestInstanceName (p_instance_norm b).

(** The session counters of a bucket: the sessions with jobs and the
    sessions with a success are among the sessions. *)
Definition sessionsOrdered (total_sessions sessions_with_jobs sessions_with_success : Z)
  : Prop :=
  0 <= sessions_with_jobs <= total_sessions
  /\ 0 <= sessions_with_success <= total_sessions.

(** The placement counters of a bucket: the successes are among the
    placements. *)
Definition placementsOrdered (t : PlacementTotals) : Prop :=
  0 <= successful_placements t <= total_placements t.

(** The objects among the elements of a raw array, and their number. *)
Definition isObject (row : item) : bool :=
  match row with
  | Object _ => true
  | NotObject => false
  end.

Definition objectCount (rows : list item) : Z :=
  Z.of_nat (List.length (List.filter isObject rows)).

(** The number of records of a raw array that satisfy [p]. *)
Definition recordsWhere (p : record -> bool) (rows : list item) : Z :=
  Z.of_nat (List.length
              (List.filter (fun row => match row with
                                       | Object r => p r
                                       | NotObject => false
                                       end) rows)).

(** Sum of a counter over all the buckets of a dictionary. *)
Definition totalOver {A} (f : A -> Z) (o : obj A) : Z :=
  foldr (fun kv acc => f (snd kv) + acc) 0 o.

(** [host] of a GA row is a string (the empty string when the row names
    none). *)
Definition gaHostIsString (originalRow : record) : bool :=
  match gaHost originalRow with
  | VStr _ => true
  | _ => false
  end.

(** No dot in the string: a single label of a host name. *)
Definition isLabel (s : string) : bool :=
  allString (fun c => negb (Ascii.eqb c ".")) s.

(** A candidate of [chooseInstanceDisplay]: neither empty nor [unknown]. *)
Definition isCandidate (v : string) : bool :=
  negb (isEmpty v) && negb (String.eqb v UNKNOWN_INSTANCE).

(** ** Date ranges ([scripts/fetch-raw.mjs], [enumerateRange]) *)

(** What the enumeration needs from [Date]: the time value, in
    milliseconds, of [new Date(`${s}T00:00:00Z`)] ([None] for a string
    that [Date] cannot read) and the first ten characters of
    [toISOString()] of a time value. *)
Record DateRuntime : Type := {
  utcMidnight : string -> option Z;
  isoDay : Z -> string
}.

Definition MS_PER_DAY : Z := 24 * 60 * 60 * 1000.

(** The largest time value of a [Date]. *)
Definition MAX_TIME : Z := 8640000000000000.

(** [new Date(t)] for a number [t]; [None] is the invalid date. *)
Definition timeClip (t : Z) : option Z :=
  if Z.abs t <=? MAX_TIME then Some t else None.

(** [new Date(`${s}T00:00:00Z`)] *)
Definition dateOf (drt : DateRuntime) (s : string) : option Z :=
  match utcMidnight drt s with
  | Some t => timeClip t
  | None => None
  end.

(** The [while (cursor <= end)] loop of [enumerateDates]. A comparison
    with an invalid date is false. [None] when the fuel runs out. *)
Fixpoint enumerateFrom (drt : DateRuntime) (fuel : nat) (cursor endDate : option Z)
    (dates : list string) : option (list string) :=
  match fuel with
  | O => None
  | S fuel' =>
      match cursor, endDate with
      | Some c, Some e =>
          if c <=? e
          then enumerateFrom drt fuel' (timeClip (c + 24 * 60 * 60 * 1000)) endDate
                 (dates ++ [isoDay drt c])%list
          else Some dates
      | _, _ => Some dates
      end
  end.

(** [enumerateDates]. Its guard, [Number.isNaN(cursor) ||
    Number.isNaN(end)], is applied to two [Date] objects and
    [Number.isNaN] is false of anything that is not a number: the
    function never raises. *)
Definition enumerateDates (drt : DateRuntime) (fuel : nat) (startDate endDate : string)
  : option (list string) :=
  enumerateFrom drt fuel (dateOf drt startDate) (dateOf drt endDate) [].

(** The day [i] days after the time value [t], and the days from one time
    value through another. *)
Definition dayAfter (drt : DateRuntime) (t : Z) (i : nat) : string :=
  isoDay drt (t + Z.of_nat i * MS_PER_DAY).

Definition daysThrough (drt : DateRuntime) (first last : option Z) : list string :=
  match first, last with
  | Some a, Some b => map (dayAfter drt a) (seq 0 (Z.to_nat ((b - a) / MS_PER_DAY + 1)))
  | _, _ => []
  end.

(** The errors of [parseDateArgs]. *)
Inductive DateError : Type :=
| InvalidDate (value : string)
| StartAfterEnd (startDate endDate : string)
| Usage.

Inductive Outcome (A : Type) : Type :=
| Returned (a : A)
| Raised (e : DateError)
| OutOfFuel.
Arguments Returned {A} a.
Arguments Raised {A} e.
Arguments OutOfFuel {A}.

Record DateArgs : Type := {
  da_startDate : string;
  da_endDate : string;
  da_dates : list string
}.

Definition validateIsoDate (value : string) : Outcome string :=
  if isIsoDate value then Returned value else Raised (InvalidDate value).

(** [parseDateArgs]; [today] is [todayUtc()]. [startDate > endDate]
    compares the two strings code unit by code unit. *)
Definition parseDateArgs (drt : DateRuntime) (fuel : nat) (today : string)
    (argv : list string) : Outcome DateArgs :=
  match argv with
  | [] => Returned {| da_startDate := today; da_endDate := today; da_dates := [today] |}
  | [a] =>
      match validateIsoDate a with
      | Returned day =>
          Returned {| da_startDate := day; da_endDate := day; da_dates := [day] |}
      | Raised e => Raised e
      | OutOfFuel => OutOfFuel
      end
  | [a; b] =>
      match validateIsoDate a with
      | Returned startDate =>
          match validateIsoDate b with
          | Returned endDate =>
              if String.ltb endDate startDate
              then Raised (StartAfterEnd startDate endDate)
              else
                match enumerateDates drt fuel startDate endDate with
                | Some dates =>
                    Returned {| da_startDate := startDate; da_endDate := endDate;
                                da_dates := dates |}
                | None => OutOfFuel
                end
          | Raised e => Raised e
          | OutOfFuel => OutOfFuel
          end
      | Raised e => Raised e
      | OutOfFuel => OutOfFuel
      end
  | _ => Raised Usage
  end.

(** [enumerateRange] of [scripts/build-daily-from-raw.mjs]. *)
Definition enumerateRange (drt : DateRuntime) (fuel : nat) (today : string)
    (startDate endDate : string) : Outcome (list string) :=
  if String.eqb startDate endDate then Returned [startDate]
  else
    match parseDateArgs drt fuel today [startDate; endDate] with
    | Returned r => Returned (da_dates r)
    | Raised e => Raised e
    | OutOfFuel => OutOfFuel
    end.

(** *** A calendar for concrete evaluation

    The proleptic Gregorian calendar, days counted from 1970-01-01;
    months 01 to 12 and days 01 to 31 are read, a day past the end of its
    month running into the next, as Node does. *)

Definition daysFromCivil (y m d : Z) : Z :=
  let y' := if m <=? 2 then y - 1 else y in
  let era := y' / 400 in
  let yoe := y' - era * 400 in
  let doy := (153 * (if 2 <? m then m - 3 else m + 9) + 2) / 5 + d - 1 in
  let doe := yoe * 365 + yoe / 4 - yoe / 100 + doy in
  era * 146097 + doe - 719468.

Definition civilFromDays (days : Z) : Z * Z * Z :=
  let z := days + 719468 in
  let era := z / 146097 in
  let doe := z - era * 146097 in
  let yoe := (doe - doe / 1460 + doe / 36524 - doe / 146096) / 365 in
  let y := yoe + era * 400 in
  let doy := doe - (365 * yoe + yoe / 4 - yoe / 100) in
  let mp := (5 * doy + 2) / 153 in
  let d := doy - (153 * mp + 2) / 5 + 1 in
  let m := if mp <? 10 then mp + 3 else mp - 9 in
  (if m <=? 2 then y + 1 else y, m, d).

Definition digitChar (n : Z) : ascii := ascii_of_N (48 + Z.to_N (n mod 10)).

Definition twoDigits (n : Z) : string :=
  String (digitChar (n / 10)) (String (digitChar n) "").

Definition fourDigits (n : Z) : string :=
  String (digitChar (n / 1000)) (String (digitChar (n / 100)) (twoDigits n)).

Definition digitsToZ (cs : list ascii) : Z :=
  foldl (fun acc c => 10 * acc + Z.of_nat (nat_of_ascii c - 48)) 0 cs.

Definition plainUtcMidnight (s : string) : option Z :=
  if isIsoDate s then
    match list_ascii_of_string s with
    | [y1; y2; y3; y4; _; m1; m2; _; d1; d2] =>
        let y := digitsToZ [y1; y2; y3; y4] in
        let m := digitsToZ [m1; m2] in
        let d := digitsToZ [d1; d2] in
        if (1 <=? m) && (m <=? 12) && (1 <=? d) && (d <=? 31)
        then Some (daysFromCivil y m d * MS_PER_DAY)
        else None
    | _ => None
    end
  else None.

Definition plainIsoDay (t : Z) : string :=
  match civilFromDays (t / MS_PER_DAY) with
  | (y, m, d) =>
      if (0 <=? y) && (y <=? 9999)
      then fourDigits y +:+ "-" +:+ twoDigits m +:+ "-" +:+ twoDigits d
      else (if y <? 0 then "-" else "+")
             +:+ twoDigits (Z.abs y / 10000) +:+ fourDigits (Z.abs y) +:+ "-" +:+ twoDigits m
  end.

Definition plainDates : DateRuntime :=
  {| utcMidnight := plainUtcMidnight; isoDay := plainIsoDay |}.

(** Four GA rows: three of the host acme, one of them for a page that is
    none of the three steps, and one of the host beta for such a page. *)
Definition gaCountRows : list item :=
  [ Object {[ "host" := VStr "acme.cardupdatr.app"; "page" := VStr "/select-merchants";
              "active_users" := VNum (Fin 3) ]};
    Object {[ "host" := VStr "acme.cardupdatr.app"; "page" := VStr "/other";
              "active_users" := VNum (Fin 9) ]};
    Object {[ "host" := VStr "acme.cardupdatr.app"; "page" := VStr "/select-merchants/x";
              "views" := VNum (Fin 4) ]};
    Object {[ "host" := VStr "beta.cardupdatr.app"; "page" := VStr "/other";
              "active_users" := VNum (Fin 5) ]} ].

(** Four placements: two of one instance of acme, one of them without
    any termination, one of a second instance, and one of another FI. *)
Definition mixedPlacements : list item :=
  [Object {[ "fi_lookup_key" := VStr "acme"; "_instance" := VStr "Instance1";
             "termination_type" := VStr "billable" ]};
   Object {[ "fi_lookup_key" := VStr "acme"; "_instance" := VStr "Instance1" ]};
   Object {[ "fi_lookup_key" := VStr "acme"; "_instance" := VStr "Instance2";
             "status" := VStr "successful" ]};
   Object {[ "fi_lookup_key" := VStr "beta"; "_instance" := VStr "Instance1";
             "termination" := VStr "abandoned" ]}].

Definition mixedPlacementsAggregate : Aggregate PlacementBucket PlacementTotals :=
  match aggregatePlacementsFromRaw plainRuntime (Some (payloadOf mixedPlacements))
          emptyIndex with
  | Some agg => agg
  | None => emptyAggregate
  end.

(** A registry with one FI, and a session and a placement that name an
    FI the registry does not have and bring no look-up key. *)
Definition acmeRegistryIndex : RegistryIndex :=
  buildRegistryIndex plainRuntime
    [Object {[ "fi_lookup_key" := VStr "acme"; "fi_name" := VStr "Acme Bank" ]}].

Definition unmatchedNameSessions : list item :=
  [Object {[ "fi_name" := VStr "Nobody FCU"; "_instance" := VStr "Instance1";
             "total_jobs" := VNum (Fin 2) ]}].

Definition unmatchedNamePlacements : list item :=
  [Object {[ "fi_name" := VStr "Nobody FCU"; "_instance" := VStr "Instance1";
             "termination_type" := VStr "billable" ]}].

Definition unmatchedNameDocument : DailyDocument :=
  buildDailyDocument plainRuntime "2025-01-01" emptyAggregate
    (aggregateSessionsFromRaw plainRuntime (Some (payloadOf unmatchedNameSessions))
       acmeRegistryIndex)
    (match aggregatePlacementsFromRaw plainRuntime
             (Some (payloadOf unmatchedNamePlacements)) acmeRegistryIndex with
     | Some agg => agg
     | None => emptyAggregate
     end).

(** * Properties *)

(** ** Characters *)

Ltac by_cases_on_char c :=
  destruct c as [[] [] [] [] [] [] [] []]; vm_compute; try reflexivity; try discriminate.

Lemma alnum_not_upper c : isAlnumLower c = true -> isUpperAZ c = false.
Proof. by_cases_on_char c. Qed.

Lemma alnum_not_space c : isAlnumLower c = true -> isSpace c = false.
Proof. by_cases_on_char c. Qed.

Lemma space_not_alnum_lowered c : isSpace c = true -> isAlnumLower (lowerChar c) = false.
Proof. by_cases_on_char c. Qed.

Lemma eqb_empty_isEmpty s : String.eqb s "" = isEmpty s.
Proof. destruct s; reflexivity. Qed.

Lemma allString_filter p s : allString p (filterString p s) = true.
Proof.
  induction s as [|c r IH]; simpl; [reflexivity|].
  destruct (p c) eqn:E; simpl; [rewrite E|]; exact IH.
Qed.

Lemma filterString_id p s : allString p s = true -> filterString p s = s.
Proof.
  induction s as [|c r IH]; simpl; [reflexivity|].
  intros [Hc Hr]%andb_prop. rewrite Hc, IH; auto.
Qed.

Lemma toLowerCase_id s : allString isAlnumLower s = true -> toLowerCase s = s.
Proof.
  unfold toLowerCase.
  induction s as [|c r IH]; simpl; [reflexivity|].
  intros [Hc Hr]%andb_prop.
  unfold lowerChar at 1. rewrite (alnum_not_upper _ Hc), IH; auto.
Qed.

Lemma trimStart_id s : allString isAlnumLower s = true -> trimStart s = s.
Proof.
  destruct s as [|c r]; simpl; [reflexivity|].
  intros [Hc _]%andb_prop. now rewrite (alnum_not_space _ Hc).
Qed.

Lemma trimEnd_id s : allString isAlnumLower s = true -> trimEnd s = s.
Proof.
  induction s as [|c r IH]; simpl; [reflexivity|].
  intros [Hc Hr]%andb_prop. rewrite (alnum_not_space _ Hc), IH; auto.
Qed.

Lemma trim_id s : allString isAlnumLower s = true -> trim s = s.
Proof. intros H. unfold trim. rewrite trimStart_id, trimEnd_id; auto. Qed.

Lemma filter_lower_trimStart s :
  filterString isAlnumLower (toLowerCase (trimStart s))
  = filterString isAlnumLower (toLowerCase s).
Proof.
  unfold toLowerCase.
  induction s as [|c r IH]; simpl; [reflexivity|].
  destruct (isSpace c) eqn:E; [|reflexivity].
  now rewrite IH, (space_not_alnum_lowered _ E).
Qed.

Lemma filter_lower_trimEnd s :
  filterString isAlnumLower (toLowerCase (trimEnd s))
  = filterString isAlnumLower (toLowerCase s).
Proof.
  unfold toLowerCase.
  induction s as [|c r IH]; simpl; [reflexivity|].
  destruct (isSpace c) eqn:E; simpl.
  - rewrite (space_not_alnum_lowered _ E), <- IH.
    rewrite eqb_empty_isEmpty.
    destruct (trimEnd r) eqn:T; simpl; [reflexivity|].
    now rewrite (space_not_alnum_lowered _ E).
  - now rewrite IH.
Qed.

Lemma filter_lower_trim s :
  filterString isAlnumLower (toLowerCase (trim s))
  = filterString isAlnumLower (toLowerCase s).
Proof. unfold trim. now rewrite filter_lower_trimEnd, filter_lower_trimStart. Qed.

Lemma orElse_nonempty s d : isEmpty d = false -> isEmpty (orElse s d) = false.
Proof. intros H. unfold orElse. destruct (isEmpty s) eqn:E; auto. Qed.

(** ** The key normaliser *)

Section KeyNormalizerFacts.

Context (rt : JsRuntime).

Lemma canonicalInstance_alnum v : allString isAlnumLower (canonicalInstance rt v) = true.
Proof.
  unfold canonicalInstance, orElse.
  destruct (truthy v); [|reflexivity].
  destruct (isEmpty _); [reflexivity|apply allString_filter].
Qed.

Lemma canonicalInstance_nonempty v : isEmpty (canonicalInstance rt v) = false.
Proof.
  unfold canonicalInstance.
  destruct (truthy v); [|reflexivity].
  now apply orElse_nonempty.
Qed.

Lemma canonicalInstance_fixed s :
  allString isAlnumLower s = true -> isEmpty s = false ->
  canonicalInstance rt (VStr s) = s.
Proof.
  intros Ha Hn. unfold canonicalInstance. simpl. rewrite Hn. simpl.
  rewrite trim_id, toLowerCase_id, filterString_id by auto.
  unfold orElse. now rewrite Hn.
Qed.


End KeyNormalizerFacts.

(** ** Dictionaries *)

Section ObjFacts.

Context {A : Type}.
Implicit Types (o : obj A) (k : string) (v : A).

Lemma oget_oset k k' v o :
  oget k' (oset k v o) = if String.eqb k' k then Some v else oget k' o.
Proof.
  induction o as [|[k0 v0] r IH]; simpl.
  - destruct (String.eqb_spec k' k); reflexivity.
  - destruct (String.eqb_spec k k0) as [->|Hne]; simpl.
    + destruct (String.eqb_spec k' k0); reflexivity.
    + destruct (String.eqb_spec k' k0) as [->|Hne'].
      * destruct (String.eqb_spec k0 k); [congruence|reflexivity].
      * exact IH.
Qed.

Lemma oget_oset_eq k v o : oget k (oset k v o) = Some v.
Proof. rewrite oget_oset. now rewrite String.eqb_refl. Qed.

Lemma oget_oset_ne k k' v o : k' <> k -> oget k' (oset k v o) = oget k' o.
Proof. intros H. rewrite oget_oset. now destruct (String.eqb_spec k' k). Qed.

Lemma oget_In k v o : oget k o = Some v -> In (k, v) o.
Proof.
  induction o as [|[k0 v0] r IH]; simpl; [discriminate|].
  destruct (String.eqb_spec k k0) as [->|Hne].
  - intros [= ->]. now left.
  - intros H. right. auto.
Qed.

Lemma oget_In_values k v o : oget k o = Some v -> In v (ovalues o).
Proof. intros H%oget_In. apply (in_map snd) in H. exact H. Qed.

Lemma oget_In_keys k v o : oget k o = Some v -> In k (okeys o).
Proof. intros H%oget_In. apply (in_map fst) in H. exact H. Qed.

Lemma In_keys_oget k o : In k (okeys o) -> exists v, oget k o = Some v.
Proof.
  induction o as [|[k0 v0] r IH]; simpl; [tauto|].
  destruct (String.eqb_spec k k0) as [->|Hne]; [eauto|].
  intros [H|H]; [congruence|auto].
Qed.

(** A property of every stored value survives [oset] of a value that has it. *)
Lemma Forall_oset (P : string * A -> Prop) k v o :
  Forall P o -> P (k, v) -> Forall P (oset k v o).
Proof.
  intros Ho Hv. induction Ho as [|[k0 v0] r H0 Hr IH]; simpl.
  - repeat constructor. exact Hv.
  - destruct (String.eqb k k0); constructor; auto.
Qed.

Lemma Forall_oget (P : string * A -> Prop) k v o :
  Forall P o -> oget k o = Some v -> P (k, v).
Proof.
  intros Ho Hg. apply oget_In in Hg.
  rewrite List.Forall_forall in Ho. auto.
Qed.

Lemma okeys_oset_In k k' v o : In k' (okeys (oset k v o)) <-> k' = k \/ In k' (okeys o).
Proof.
  induction o as [|[k0 v0] r IH]; simpl.
  - intuition congruence.
  - destruct (String.eqb_spec k k0) as [->|Hne]; simpl.
    + intuition congruence.
    + rewrite IH. intuition congruence.
Qed.

Lemma NoDup_okeys_oset k v o : List.NoDup (okeys o) -> List.NoDup (okeys (oset k v o)).
Proof.
  induction o as [|[k0 v0] r IH]; simpl; intros Hnd.
  - constructor; [simpl; tauto|constructor].
  - inversion Hnd as [|? ? Hnin Hr]; subst.
    destruct (String.eqb_spec k k0) as [->|Hne]; simpl.
    + constructor; assumption.
    + constructor; [|auto].
      rewrite okeys_oset_In. intuition congruence.
Qed.

End ObjFacts.

(** Look-up in a dictionary tabulated over a key list. *)
Lemma oget_tabulate {B} (f : string -> B) k (l : list string) :
  oget k (map (fun key => (key, f key)) l)
  = if existsb (String.eqb k) l then Some (f k) else None.
Proof.
  induction l as [|a r IH]; simpl; [reflexivity|].
  destruct (String.eqb_spec k a) as [->|Hne]; simpl; [reflexivity|exact IH].
Qed.

Lemma existsb_eqb_In k (l : list string) : existsb (String.eqb k) l = true <-> In k l.
Proof.
  rewrite existsb_exists. split.
  - intros [x [Hin Heq]]. apply String.eqb_eq in Heq. now subst.
  - intros H. exists k. split; [exact H|apply String.eqb_refl].
Qed.

Lemma In_uniq k seen l : In k (uniq seen l) <-> In k l /\ ~ In k seen.
Proof.
  revert seen. induction l as [|a r IH]; intros seen; simpl; [tauto|].
  destruct (existsb (String.eqb a) seen) eqn:E.
  - apply existsb_eqb_In in E. rewrite IH. intuition congruence.
  - assert (Hn : ~ In a seen).
    { intros H. apply existsb_eqb_In in H. congruence. }
    simpl. rewrite IH. simpl.
    destruct (String.eqb_spec a k) as [->|Hne]; intuition congruence.
Qed.

Lemma NoDup_uniq seen l : List.NoDup (uniq seen l).
Proof.
  revert seen. induction l as [|a r IH]; intros seen; simpl; [constructor|].
  destruct (existsb (String.eqb a) seen) eqn:E; [apply IH|].
  constructor; [|apply IH].
  rewrite In_uniq. simpl. tauto.
Qed.

Lemma existsb_uniq k l : existsb (String.eqb k) (uniq [] l) = existsb (String.eqb k) l.
Proof.
  apply eq_true_iff_eq. rewrite !existsb_eqb_In, In_uniq. simpl. tauto.
Qed.

(** ** The document builder *)

Section BuilderFacts.

Context (rt : JsRuntime).

Lemma fi_lookup day ga sessions placements k :
  oget k (fi (buildDailyDocument rt day ga sessions placements))
  = if existsb (String.eqb k)
         (okeys (byFi ga) ++ okeys (byFi sessions) ++ okeys (byFi placements))%list
    then Some (fiEntryOf rt (oget k (byFi ga)) (oget k (byFi sessions))
                 (oget k (byFi placements)))
    else None.
Proof. unfold buildDailyDocument. simpl. now rewrite oget_tabulate, existsb_uniq. Qed.

Lemma fi_instances_lookup day ga sessions placements k :
  oget k (fi_instances (buildDailyDocument rt day ga sessions placements))
  = if existsb (String.eqb k)
         (okeys (byInstance ga) ++ okeys (byInstance sessions)
            ++ okeys (byInstance placements))%list
    then Some (fiInstanceEntryOf k (oget k (byInstance ga)) (oget k (byInstance sessions))
                 (oget k (byInstance placements)))
    else None.
Proof. unfold buildDailyDocument. simpl. now rewrite oget_tabulate, existsb_uniq. Qed.

End BuilderFacts.

(** ** GA stages *)

Lemma stage_prefixes_exclusive (pagePath : string) :
  (startsWith pagePath "/select-merchants" = true ->
   startsWith pagePath "/user-data-collection" = false
   /\ startsWith pagePath "/credential-entry" = false)
  /\ (startsWith pagePath "/user-data-collection" = true ->
      startsWith pagePath "/credential-entry" = false).
Proof.
  destruct pagePath as [|a [|b r]].
  - simpl. split; intros; try split; congruence.
  - simpl. rewrite !andb_false_r. split; intros; try split; congruence.
  - cbn [startsWith].
    destruct (Ascii.eqb "/" a); cbn [andb]; [|split; intros; try split; congruence].
    destruct (Ascii.eqb_spec "s"%char b) as [<-|_]; cbn [andb].
    { split; [intros _; split; reflexivity|discriminate]. }
    destruct (Ascii.eqb_spec "u"%char b) as [<-|_]; cbn [andb].
    { split; [discriminate|intros _; reflexivity]. }
    split; discriminate.
Qed.

Section GaFacts.

Context (rt : JsRuntime).

(** C5. The acme scenario: whatever the sessions and placements of the day,
    the two GA rows give [fi["acme"].ga = {5, 0, 2}] under an empty registry
    index. The three page prefixes exclude one another, a row adds its count
    to the stage of the prefix it matches and to no other, and a row that
    matches none leaves the bucket as it was. *)
Theorem ga_scenario_and_stage_buckets
    (day : string) (sessions : Aggregate SessionBucket SessionFiBucket)
    (placements : Aggregate PlacementBucket PlacementTotals) :
  (exists ga,
      aggregateGaFromRaw rt day (Some (payloadOf scenarioRows)) emptyIndex = Some ga
      /\ fi_ga <$> oget "acme" (fi (buildDailyDocument rt day ga sessions placements))
         = Some {| select_merchants := Fin 5;
                   user_data_collection := Fin 0;
                   credential_entry := Fin 2 |})
  /\ (forall pagePath : string,
         let select := startsWith pagePath "/select-merchants" in
         let user := startsWith pagePath "/user-data-collection" in
         let cred := startsWith pagePath "/credential-entry" in
         (select && user = false) /\ (select && cred = false) /\ (user && cred = false))
  /\ (forall (bucket : GaBucket) (pagePath : string) (count : num),
         let after := gaAddCount bucket pagePath count in
         g_select_merchants after
         = (if startsWith pagePath "/select-merchants"
            then numAdd (g_select_merchants bucket) count else g_select_merchants bucket)
         /\ g_user_data_collection after
            = (if startsWith pagePath "/user-data-collection"
               then numAdd (g_user_data_collection bucket) count
               else g_user_data_collection bucket)
         /\ g_credential_entry after
            = (if startsWith pagePath "/credential-entry"
               then numAdd (g_credential_entry bucket) count
               else g_credential_entry bucket)
         /\ (if startsWith pagePath "/select-merchants"
                || startsWith pagePath "/user-data-collection"
                || startsWith pagePath "/credential-entry"
             then True else after = bucket)).
Proof.
  split; [|split].
  - eexists. split; [vm_compute; reflexivity|].
    rewrite fi_lookup. reflexivity.
  - intros pagePath. destruct (stage_prefixes_exclusive pagePath) as [H1 H2]. simpl.
    destruct (startsWith pagePath "/select-merchants").
    + destruct (H1 eq_refl) as [-> ->]; auto.
    + destruct (startsWith pagePath "/user-data-collection").
      * rewrite (H2 eq_refl); auto.
      * auto.
  - intros bucket pagePath count.
    destruct (stage_prefixes_exclusive pagePath) as [H1 H2]. simpl.
    unfold gaAddCount.
    destruct (startsWith pagePath "/select-merchants").
    + destruct (H1 eq_refl) as [-> ->]; simpl; auto.
    + destruct (startsWith pagePath "/user-data-collection").
      * rewrite (H2 eq_refl); simpl; auto.
      * destruct (startsWith pagePath "/credential-entry"); simpl; auto.
Qed.

End GaFacts.

(** ** Sessions: what one record adds *)

Lemma numOrZero_cases (n : num) : numOrZero n = match n with NaN => Fin 0 | _ => n end.
Proof.
  destruct n as [z| | |]; try reflexivity.
  unfold numOrZero. simpl. destruct (Z.eqb_spec z 0); subst; reflexivity.
Qed.

Section SessionFacts.

Context (rt : JsRuntime).

(** C6, as the code has it. A session adds [Number(total_jobs) || 0] to
    [total_jobs_sum] of its bucket, and likewise for [successful_jobs]: the
    numeric value of the field, with NaN replaced by 0. An infinite value
    is added as it is. *)
Theorem session_job_contribution
    (registryIndex : RegistryIndex) (byInstance : obj SessionBucket) (session : record) :
  let key := sessionKey rt session registryIndex in
  let total := toNumber rt (field session "total_jobs") in
  let successful := toNumber rt (field session "successful_jobs") in
  exists bucket,
    oget key (sessionStep rt registryIndex byInstance (Object session)) = Some bucket
    /\ s_total_jobs_sum bucket
       = numAdd (from_option s_total_jobs_sum (Fin 0) (oget key byInstance))
           (match total with NaN => Fin 0 | _ => total end)
    /\ s_successful_jobs_sum bucket
       = numAdd (from_option s_successful_jobs_sum (Fin 0) (oget key byInstance))
           (match successful with NaN => Fin 0 | _ => successful end).
Proof.
  intros key total successful. unfold sessionStep. fold key.
  eexists. split; [apply oget_oset_eq|].
  unfold sessionRecord, sessionTotalJobs, sessionSuccessfulJobs. fold total successful.
  rewrite !numOrZero_cases. simpl.
  destruct (oget key byInstance); simpl; auto.
Qed.

End SessionFacts.

(** C6, the claim as written fails: an infinite [total_jobs] is not
    finite, and yet the session adds it, not 0, to [total_jobs_sum]. *)
Lemma session_infinite_jobs_kept :
  numIsFinite (toNumber plainRuntime (field overflowSession "total_jobs")) = false
  /\ sessionTotalJobs plainRuntime overflowSession = PInf
  /\ sessionTotalJobs plainRuntime overflowSession <> Fin 0
  /\ s_total_jobs_sum
       <$> oget "unknown_fi__unknown"
             (byInstance (aggregateSessionsFromRaw plainRuntime
                            (Some (payloadOf [Object overflowSession])) emptyIndex))
     = Some PInf.
Proof. repeat split; try reflexivity. discriminate. Qed.

(** ** Placements: the termination breakdown *)

Lemma sumCounts_oset k v (o : obj Z) :
  sumCounts (oset k v o) = sumCounts o - countAt k o + v.
Proof.
  unfold countAt. induction o as [|[k0 v0] r IH]; simpl; [lia|].
  destruct (String.eqb_spec k k0) as [->|Hne]; simpl; lia.
Qed.

Lemma sumCounts_bump k n (o : obj Z) : sumCounts (bump k n o) = sumCounts o + n.
Proof. unfold bump. rewrite sumCounts_oset. unfold countAt. lia. Qed.

Lemma countAt_bump t k n (o : obj Z) :
  countAt t (bump k n o) = countAt t o + (if String.eqb t k then n else 0).
Proof.
  unfold bump, countAt. rewrite oget_oset.
  destruct (String.eqb_spec t k) as [->|Hne]; lia.
Qed.

Lemma sumCounts_merge (from into : obj Z) :
  sumCounts (mergeTerminations into from) = sumCounts into + sumCounts from.
Proof.
  unfold mergeTerminations. revert into.
  induction from as [|[k n] r IH]; intros into; simpl; [lia|].
  rewrite IH, sumCounts_bump. lia.
Qed.

Lemma partitioned_empty : partitioned emptyPlacementTotals.
Proof. reflexivity. Qed.

Lemma partitioned_count t success termination :
  partitioned t -> partitioned (placementCount t success termination).
Proof. unfold partitioned. simpl. rewrite sumCounts_bump. lia. Qed.

(** A property of placement totals that holds of the empty totals and
    survives the count of one placement holds of every instance bucket. *)
Section PlacementInvariant.

Context (rt : JsRuntime) (P : PlacementTotals -> Prop).
Hypothesis P_empty : P emptyPlacementTotals.
Hypothesis P_count :
  forall t success termination, P t -> P (placementCount t success termination).

Abbreviation everyInstance :=
  (Forall (fun kv : string * PlacementBucket => P (p_totals (snd kv)))).

Lemma placementStep_keeps registryIndex byInstance row :
  everyInstance byInstance ->
  everyInstance (placementStep rt registryIndex byInstance row).
Proof.
  intros H. destruct row as [|placement]; simpl; [exact H|].
  apply Forall_oset; [exact H|]. simpl.
  apply P_count.
  destruct (oget _ byInstance) as [b|] eqn:E.
  - apply (Forall_oget _ _ _ _ H E).
  - apply P_empty.
Qed.

Lemma placementRows_keep registryIndex rows byInstance :
  everyInstance byInstance ->
  everyInstance (foldl (placementStep rt registryIndex) byInstance rows).
Proof.
  revert byInstance. induction rows as [|row rest IH]; intros byInstance H; simpl.
  - exact H.
  - apply IH, placementStep_keeps, H.
Qed.

End PlacementInvariant.

Section PlacementFacts.

Context (rt : JsRuntime).

Abbreviation instancesPartitioned :=
  (Forall (fun kv : string * PlacementBucket => partitioned (p_totals (snd kv)))).

Abbreviation fisPartitioned :=
  (Forall (fun kv : string * PlacementTotals => partitioned (snd kv))).

Lemma placementFiStep_partitioned byFi entry byFi' :
  fisPartitioned byFi -> partitioned (p_totals entry) ->
  placementFiStep byFi entry = Some byFi' -> fisPartitioned byFi'.
Proof.
  intros H He. unfold placementFiStep.
  destruct (isEmpty _); [intros [= <-]; exact H|].
  destruct (inheritedName _).
  { destruct (by_termination _); [intros [= <-]; exact H|discriminate]. }
  intros [= <-]. apply Forall_oset; [exact H|]. simpl.
  unfold partitioned in *. simpl. rewrite sumCounts_merge.
  destruct (oget _ byFi) as [b|] eqn:E.
  - pose proof (Forall_oget _ _ _ _ H E) as Hb. simpl in Hb. lia.
  - simpl. lia.
Qed.

Lemma placementFold_partitioned entries byFi byFi' :
  fisPartitioned byFi -> Forall (fun e => partitioned (p_totals e)) entries ->
  placementFold entries byFi = Some byFi' -> fisPartitioned byFi'.
Proof.
  revert byFi. induction entries as [|e rest IH]; intros byFi H He; simpl.
  - intros [= <-]. exact H.
  - inversion He as [|? ? He1 He2]; subst.
    destruct (placementFiStep byFi e) as [byFi1|] eqn:E; [|discriminate].
    apply IH; [|exact He2]. eapply placementFiStep_partitioned; eauto.
Qed.

Lemma aggregate_partitioned raw registryIndex agg :
  aggregatePlacementsFromRaw rt raw registryIndex = Some agg ->
  instancesPartitioned (byInstance agg) /\ fisPartitioned (byFi agg).
Proof.
  unfold aggregatePlacementsFromRaw.
  destruct raw as [raw|]; [|intros [= <-]; split; constructor].
  destruct (truthy (pl_error raw)); [intros [= <-]; split; constructor|].
  destruct (placementFold _ _) as [byFi0|] eqn:E; [|discriminate].
  intros [= <-]. simpl.
  assert (Hi : instancesPartitioned
                 (foldl (placementStep rt registryIndex) [] (payloadItems raw))).
  { apply placementRows_keep; [exact partitioned_empty|exact partitioned_count|].
    constructor. }
  split; [exact Hi|].
  eapply placementFold_partitioned; [| |exact E]; [constructor|].
  unfold ovalues. rewrite List.Forall_map. exact Hi.
Qed.

End PlacementFacts.

(** ** Grouped sums *)

Lemma In_oget_NoDup {A} k (v : A) (o : obj A) :
  List.NoDup (okeys o) -> In (k, v) o -> oget k o = Some v.
Proof.
  induction o as [|[k0 v0] r IH]; simpl; [tauto|].
  intros Hnd [H|H].
  - injection H as -> ->. now rewrite String.eqb_refl.
  - inversion Hnd as [|? ? Hnin Hr]; subst.
    destruct (String.eqb_spec k k0) as [->|Hne]; [|auto].
    exfalso. apply Hnin. apply (in_map fst) in H. exact H.
Qed.

Lemma oget_not_In {A} k (o : obj A) : ~ In k (okeys o) -> oget k o = None.
Proof.
  intros H. destruct (oget k o) eqn:E; [|reflexivity].
  exfalso. apply H. eapply oget_In_keys, E.
Qed.

Section GroupedSums.

Context {M : Type} (op : M -> M -> M) (e0 : M).
Hypothesis op_comm : forall a b, op a b = op b a.
Hypothesis op_assoc : forall a b c, op a (op b c) = op (op a b) c.
Hypothesis op_unit : forall a, op a e0 = a.

Lemma op_unit_l a : op e0 a = a.
Proof. now rewrite op_comm. Qed.

Lemma foldl_cond_total {X} (P : X -> bool) (f : X -> M) (l : list X) (a : M) :
  foldl (fun acc x => if P x then op acc (f x) else acc) a l
  = op a (foldr op e0 (map (fun x => if P x then f x else e0) l)).
Proof.
  revert a. induction l as [|x r IH]; intros a; simpl.
  - now rewrite op_unit.
  - rewrite IH. destruct (P x).
    + now rewrite op_assoc.
    + now rewrite op_unit_l.
Qed.

Lemma total_perm (l l' : list M) : Permutation l l' -> foldr op e0 l = foldr op e0 l'.
Proof.
  induction 1 as [|x l l' _ IH|x y l|l l' l'' _ IH1 _ IH2]; simpl.
  - reflexivity.
  - now rewrite IH.
  - rewrite !op_assoc. f_equal. apply op_comm.
  - now rewrite IH1.
Qed.

Lemma sumBy_total {E} (keyOf : E -> string) (f : E -> M) k (entries : list E) :
  sumBy op e0 keyOf f k entries
  = foldr op e0 (map (fun e => if String.eqb (keyOf e) k then f e else e0) entries).
Proof. unfold sumBy. now rewrite foldl_cond_total, op_unit_l. Qed.

(** Summing over a duplicate-free list of keys that covers a dictionary,
    with nothing added for a key the dictionary lacks, sums over its
    entries. *)
Lemma keys_sum_entries {I} (S : obj I) (keys : list string) (c : I -> M) :
  List.NoDup (okeys S) -> List.NoDup keys ->
  (forall x, In x (okeys S) -> In x keys) ->
  foldr op e0 (map (fun ik => from_option c e0 (oget ik S)) keys)
  = foldr op e0 (map c (ovalues S)).
Proof.
  intros HS Hkeys Hcover.
  set (inS := fun ik => existsb (String.eqb ik) (okeys S)).
  assert (Hfilter :
            foldr op e0 (map (fun ik => from_option c e0 (oget ik S)) keys)
            = foldr op e0 (map (fun ik => from_option c e0 (oget ik S))
                             (List.filter inS keys))).
  { clear Hkeys Hcover. induction keys as [|ik r IH]; simpl; [reflexivity|].
    destruct (inS ik) eqn:E; simpl; [now rewrite IH|].
    rewrite oget_not_In; simpl; [now rewrite op_unit_l|].
    intros Hin. apply existsb_eqb_In in Hin. unfold inS in E. congruence. }
  rewrite Hfilter.
  assert (Hperm : Permutation (List.filter inS keys) (okeys S)).
  { apply Permutation.NoDup_Permutation; [now apply List.NoDup_filter|exact HS|].
    intros x. rewrite List.filter_In. unfold inS. rewrite existsb_eqb_In.
    split; [tauto|auto]. }
  rewrite (total_perm _ _ (Permutation_map _ Hperm)).
  f_equal. unfold okeys, ovalues. rewrite !List.map_map.
  apply List.map_ext_in. intros [k v] Hin. simpl.
  now rewrite (In_oget_NoDup _ _ _ HS Hin).
Qed.

End GroupedSums.

(** The second loops. *)
Section GroupedFold.

Context {E F M : Type}.
Context (keyOf : E -> string) (skip : string -> bool) (dflt : F) (combine : F -> E -> F).
Context (op : M -> M -> M) (e0 : M) (proj : F -> M) (f : E -> M) (Q : E -> Prop).
Hypothesis proj_dflt : proj dflt = e0.
Hypothesis proj_combine : forall b e, Q e -> proj (combine b e) = op (proj b) (f e).

Abbreviation step := (groupStep keyOf skip dflt combine).

Lemma groupStep_lookup byFi e k :
  skip k = false -> Q e ->
  from_option proj e0 (oget k (step byFi e))
  = if String.eqb (keyOf e) k
    then op (from_option proj e0 (oget k byFi)) (f e)
    else from_option proj e0 (oget k byFi).
Proof.
  intros Hk He. unfold groupStep.
  destruct (String.eqb_spec (keyOf e) k) as [->|Hne].
  - rewrite Hk, oget_oset_eq. simpl. rewrite proj_combine by exact He.
    destruct (oget k byFi); simpl; [reflexivity|now rewrite proj_dflt].
  - destruct (skip (keyOf e)); [reflexivity|].
    rewrite oget_oset_ne by congruence. reflexivity.
Qed.

Lemma groupFold_lookup entries byFi k :
  skip k = false -> Forall Q entries ->
  from_option proj e0 (oget k (foldl step byFi entries))
  = foldl (fun acc e => if String.eqb (keyOf e) k then op acc (f e) else acc)
          (from_option proj e0 (oget k byFi)) entries.
Proof.
  intros Hk HQ. revert byFi. induction HQ as [|e r He Hr IH]; intros byFi; simpl.
  - reflexivity.
  - now rewrite IH, groupStep_lookup.
Qed.

Lemma groupFold_keys entries byFi k :
  In k (okeys (foldl step byFi entries))
  <-> In k (okeys byFi) \/ (skip k = false /\ exists e, In e entries /\ keyOf e = k).
Proof.
  revert byFi. induction entries as [|e r IH]; intros byFi; simpl.
  - split; [tauto|]. intros [H|[_ [e [[] _]]]]. exact H.
  - rewrite IH. unfold groupStep at 1.
    destruct (skip (keyOf e)) eqn:Es.
    + split.
      * intros [H|[Hk [e' [He' Hk']]]]; [tauto|]. right. eauto 6.
      * intros [H|[Hk [e' [[->|He'] Hk']]]]; [tauto| |right; eauto]. congruence.
    + rewrite okeys_oset_In. split.
      * intros [[->|H]|[Hk [e' [He' Hk']]]]; [right|tauto|right]; eauto 6.
      * intros [H|[Hk [e' [[->|He'] Hk']]]]; [tauto|subst; tauto|right; eauto].
Qed.

(** A bucket of the folded dictionary holds the sum over its group. *)
Lemma groupFold_field entries k b :
  Forall Q entries -> oget k (foldl step [] entries) = Some b ->
  proj b = sumBy op e0 keyOf f k entries.
Proof.
  intros HQ Hk.
  assert (Hs : skip k = false).
  { apply oget_In_keys in Hk. apply groupFold_keys in Hk as [[]|[Hs _]]. exact Hs. }
  pose proof (groupFold_lookup entries [] k Hs HQ) as H.
  rewrite Hk in H. exact H.
Qed.

(** The same read through a default: a key without bucket sums to [e0]. *)
Lemma groupFold_total entries k :
  skip k = false -> Forall Q entries ->
  from_option proj e0 (oget k (foldl step [] entries)) = sumBy op e0 keyOf f k entries.
Proof. intros Hs HQ. now rewrite groupFold_lookup. Qed.

End GroupedFold.

Lemma foldl_pointwise {A B} (f g : A -> B -> A) (l : list B) (a : A) :
  (forall a x, f a x = g a x) -> foldl f a l = foldl g a l.
Proof.
  intros H. revert a. induction l as [|x r IH]; intros a; simpl; [reflexivity|].
  now rewrite H, IH.
Qed.

(** ** Laws of the arithmetic *)

Lemma numAdd_comm a b : numAdd a b = numAdd b a.
Proof. destruct a, b; simpl; try reflexivity. f_equal. lia. Qed.

Lemma numAdd_assoc a b c : numAdd a (numAdd b c) = numAdd (numAdd a b) c.
Proof. destruct a, b, c; simpl; try reflexivity. f_equal. lia. Qed.

Lemma numAdd_zero a : numAdd a (Fin 0) = a.
Proof. destruct a; simpl; try reflexivity. f_equal. lia. Qed.

Lemma numAdd_finite a b :
  numIsFinite a = true -> numIsFinite b = true -> numIsFinite (numAdd a b) = true.
Proof. destruct a, b; simpl; congruence. Qed.

Lemma numOrZero_finite a : numIsFinite a = true -> numOrZero a = a.
Proof. intros H. rewrite numOrZero_cases. destruct a; simpl in *; congruence. Qed.

Lemma sumNum_finite {E} (keyOf : E -> string) (f : E -> num) k (entries : list E) :
  Forall (fun e => numIsFinite (f e) = true) entries ->
  numIsFinite (sumNum keyOf f k entries) = true.
Proof.
  unfold sumNum, sumBy. generalize (Fin 0) (eq_refl : numIsFinite (Fin 0) = true).
  intros a Ha H. revert a Ha.
  induction H as [|e r He Hr IH]; intros a Ha; simpl; [exact Ha|].
  apply IH. destruct (String.eqb _ _); [now apply numAdd_finite|exact Ha].
Qed.

(** ** The second loops as grouped folds *)

Lemma countAt_merge t (from into : obj Z) :
  List.NoDup (okeys from) ->
  countAt t (mergeTerminations into from) = countAt t into + countAt t from.
Proof.
  unfold mergeTerminations. intros Hnd. revert into.
  induction from as [|[k n] r IH]; intros into; simpl.
  - unfold countAt at 3. simpl. lia.
  - inversion Hnd as [|? ? Hnin Hr]; subst.
    rewrite (IH Hr), countAt_bump. unfold countAt at 4. simpl.
    destruct (String.eqb_spec t k) as [->|Hne]; [|unfold countAt; lia].
    unfold countAt at 2. rewrite (oget_not_In _ _ Hnin). lia.
Qed.

Lemma foldl_map {A B C} (f : A -> B -> A) (g : C -> B) (l : list C) (a : A) :
  foldl f a (map g l) = foldl (fun acc x => f acc (g x)) a l.
Proof. revert a. induction l as [|x r IH]; intros a; simpl; [reflexivity|apply IH]. Qed.

Lemma resolveFiKey_shape rt preferred fallbackName registryIndex :
  truthy (resolveFiKey rt preferred fallbackName registryIndex) = true ->
  exists s, resolveFiKey rt preferred fallbackName registryIndex = VStr s
            /\ isEmpty s = false.
Proof.
  unfold resolveFiKey.
  repeat match goal with
         | |- context [match ?x with _ => _ end] => destruct x eqn:?
         end; simpl; intros H; try discriminate;
    (eexists; split; [reflexivity|]); now apply negb_true_iff in H.
Qed.

Section FoldedFacts.

Context (rt : JsRuntime).

Abbreviation gaGroup :=
  (groupStep g_fi_lookup_key inheritedName gaFiZero (gaFiAdd rt)).
Abbreviation sessionGroup :=
  (groupStep sessionEntryFiKey skippedFiKey sessionFiZero sessionFiAdd).
Abbreviation placementGroup :=
  (groupStep placementEntryFiKey skippedFiKey emptyPlacementTotals placementFiAdd).

Lemma gaFiStep_group byFi e : gaFiStep rt byFi e = gaGroup byFi e.
Proof.
  unfold gaFiStep, groupStep.
  destruct (inheritedName _); [reflexivity|]. now destruct (oget _ byFi).
Qed.

Lemma sessionFiStep_group byFi e : sessionFiStep byFi e = sessionGroup byFi e.
Proof.
  unfold sessionFiStep, groupStep, skippedFiKey.
  destruct (isEmpty _); [reflexivity|]. simpl.
  destruct (inheritedName _); [reflexivity|]. now destruct (oget _ byFi).
Qed.

Lemma placementFold_group entries byFi byFi' :
  placementFold entries byFi = Some byFi' -> byFi' = foldl placementGroup byFi entries.
Proof.
  revert byFi. induction entries as [|e r IH]; intros byFi; simpl.
  - now intros [= <-].
  - destruct (placementFiStep byFi e) as [byFi1|] eqn:E; [|discriminate].
    intros H. rewrite (IH _ H). f_equal.
    revert E. unfold placementFiStep, groupStep, skippedFiKey.
    destruct (isEmpty _); [now intros [= <-]|]. simpl.
    destruct (inheritedName _).
    + destruct (by_termination _); [now intros [= <-]|discriminate].
    + intros [= <-]. now destruct (oget _ byFi).
Qed.

Lemma gaMarkTest_key isTest b : g_fi_lookup_key (gaMarkTest isTest b) = g_fi_lookup_key b.
Proof. now destruct isTest. Qed.

Lemma gaAddCount_key b pagePath count :
  g_fi_lookup_key (gaAddCount b pagePath count) = g_fi_lookup_key b.
Proof. unfold gaAddCount. now repeat destruct (startsWith _ _). Qed.

Lemma gaRowStep_keyed registryIndex byInstance row byInstance' :
  gaKeyed byInstance -> gaRowStep rt registryIndex byInstance row = Some byInstance' ->
  gaKeyed byInstance'.
Proof.
  intros [Hnd Hne]. destruct row as [|originalRow]; simpl; [now intros [= <-]|].
  destruct (gaHost originalRow) as [| | | |host]; try discriminate.
  destruct (truthy (gaFiKey _ _ _ _)) eqn:Et; simpl; [|now intros [= <-]].
  intros [= <-]. split; [now apply NoDup_okeys_oset|].
  apply Forall_oset; [exact Hne|]. simpl.
  rewrite gaAddCount_key, gaMarkTest_key.
  destruct (oget _ byInstance) as [b|] eqn:E.
  - apply (Forall_oget _ _ _ _ Hne E).
  - simpl. unfold gaFiKey in *.
    apply resolveFiKey_shape in Et as [s [-> Hs]]. exact Hs.
Qed.

Lemma gaScanRows_keyed registryIndex rows byInstance byInstance' :
  gaKeyed byInstance -> gaScanRows rt registryIndex rows byInstance = Some byInstance' ->
  gaKeyed byInstance'.
Proof.
  revert byInstance. induction rows as [|row rest IH]; intros byInstance H; simpl.
  - now intros [= <-].
  - destruct (gaRowStep rt registryIndex byInstance row) as [b1|] eqn:E; [|discriminate].
    apply IH. eapply gaRowStep_keyed; eauto.
Qed.

Lemma aggregateGa_shape day raw registryIndex agg :
  aggregateGaFromRaw rt day raw registryIndex = Some agg ->
  byFi agg = foldl gaGroup [] (ovalues (byInstance agg)) /\ gaKeyed (byInstance agg).
Proof.
  unfold aggregateGaFromRaw.
  assert (He : gaKeyed []) by (split; constructor).
  destruct raw as [raw|]; [|intros [= <-]; split; [reflexivity|exact He]].
  destruct (truthy (pl_error raw)); [intros [= <-]; split; [reflexivity|exact He]|].
  destruct (gaScanRows _ _ _ _) as [byInstance0|] eqn:E; [|discriminate].
  intros [= <-]. simpl. split.
  - apply foldl_pointwise, gaFiStep_group.
  - eapply gaScanRows_keyed; eauto.
Qed.

Lemma sessionRows_NoDup registryIndex rows byInstance :
  List.NoDup (okeys byInstance) ->
  List.NoDup (okeys (foldl (sessionStep rt registryIndex) byInstance rows)).
Proof.
  revert byInstance. induction rows as [|row rest IH]; intros byInstance H; simpl.
  - exact H.
  - apply IH. destruct row as [|session]; simpl; [exact H|].
    now apply NoDup_okeys_oset.
Qed.

Lemma aggregateSessions_shape raw registryIndex :
  let agg := aggregateSessionsFromRaw rt raw registryIndex in
  byFi agg = foldl sessionGroup [] (ovalues (byInstance agg))
  /\ List.NoDup (okeys (byInstance agg)).
Proof.
  unfold aggregateSessionsFromRaw.
  destruct raw as [raw|]; [|split; [reflexivity|constructor]].
  destruct (truthy (pl_error raw)); [split; [reflexivity|constructor]|].
  simpl. split.
  - apply foldl_pointwise, sessionFiStep_group.
  - apply sessionRows_NoDup. constructor.
Qed.

Lemma placementRows_NoDup registryIndex rows byInstance :
  List.NoDup (okeys byInstance) ->
  List.NoDup (okeys (foldl (placementStep rt registryIndex) byInstance rows)).
Proof.
  revert byInstance. induction rows as [|row rest IH]; intros byInstance H; simpl.
  - exact H.
  - apply IH. destruct row as [|placement]; simpl; [exact H|].
    now apply NoDup_okeys_oset.
Qed.

Lemma aggregatePlacements_shape raw registryIndex agg :
  aggregatePlacementsFromRaw rt raw registryIndex = Some agg ->
  byFi agg = foldl placementGroup [] (ovalues (byInstance agg))
  /\ List.NoDup (okeys (byInstance agg))
  /\ Forall (fun e => termsKeyed (p_totals e)) (ovalues (byInstance agg)).
Proof.
  unfold aggregatePlacementsFromRaw.
  destruct raw as [raw|]; [|intros [= <-]; repeat split; constructor].
  destruct (truthy (pl_error raw)); [intros [= <-]; repeat split; constructor|].
  destruct (placementFold _ _) as [byFi0|] eqn:E; [|discriminate].
  intros [= <-]. simpl. split; [|split].
  - now apply placementFold_group.
  - apply placementRows_NoDup. constructor.
  - unfold ovalues. rewrite List.Forall_map.
    apply (placementRows_keep rt termsKeyed).
    + constructor.
    + intros t success termination Ht. unfold termsKeyed, placementCount, bump. simpl.
      now apply NoDup_okeys_oset.
    + constructor.
Qed.

End FoldedFacts.

(** ** C1: [fi] against [fi_instances] *)

Lemma Forall_trivial {A} (l : list A) : Forall (fun _ => True) l.
Proof. induction l; constructor; auto. Qed.

Lemma Forall_values_oget {A} (P : A -> Prop) (o : obj A) k v :
  Forall P (ovalues o) -> oget k o = Some v -> P v.
Proof.
  intros H Hk. rewrite List.Forall_forall in H. eapply H, oget_In_values, Hk.
Qed.

Section SumOfInstances.

Context (rt : JsRuntime).

Lemma ga_folded agg :
  byFi agg = foldl (groupStep g_fi_lookup_key inheritedName gaFiZero (gaFiAdd rt)) []
               (ovalues (byInstance agg)) ->
  gaFolded agg.
Proof.
  intros Hshape k b Hk. rewrite Hshape in Hk. simpl. unfold sumNum.
  repeat split.
  - apply (groupFold_field g_fi_lookup_key inheritedName gaFiZero (gaFiAdd rt) numAdd (Fin 0)
             gf_select_merchants g_select_merchants (fun _ => True) eq_refl
             (fun _ _ _ => eq_refl) _ _ _ (Forall_trivial _) Hk).
  - apply (groupFold_field g_fi_lookup_key inheritedName gaFiZero (gaFiAdd rt) numAdd (Fin 0)
             gf_user_data_collection g_user_data_collection (fun _ => True) eq_refl
             (fun _ _ _ => eq_refl) _ _ _ (Forall_trivial _) Hk).
  - apply (groupFold_field g_fi_lookup_key inheritedName gaFiZero (gaFiAdd rt) numAdd (Fin 0)
             gf_credential_entry g_credential_entry (fun _ => True) eq_refl
             (fun _ _ _ => eq_refl) _ _ _ (Forall_trivial _) Hk).
Qed.

Lemma sessions_folded agg :
  byFi agg = foldl (groupStep sessionEntryFiKey skippedFiKey sessionFiZero sessionFiAdd) []
               (ovalues (byInstance agg)) ->
  sessionsFolded agg.
Proof.
  intros Hshape k b Hk. rewrite Hshape in Hk. simpl. unfold sumNum, sumZ.
  repeat split.
  - apply (groupFold_field sessionEntryFiKey skippedFiKey sessionFiZero sessionFiAdd Z.add 0
             sf_total_sessions s_total_sessions (fun _ => True) eq_refl
             (fun _ _ _ => eq_refl) _ _ _ (Forall_trivial _) Hk).
  - apply (groupFold_field sessionEntryFiKey skippedFiKey sessionFiZero sessionFiAdd Z.add 0
             sf_sessions_with_jobs s_sessions_with_jobs (fun _ => True) eq_refl
             (fun _ _ _ => eq_refl) _ _ _ (Forall_trivial _) Hk).
  - apply (groupFold_field sessionEntryFiKey skippedFiKey sessionFiZero sessionFiAdd Z.add 0
             sf_sessions_with_success s_sessions_with_success (fun _ => True) eq_refl
             (fun _ _ _ => eq_refl) _ _ _ (Forall_trivial _) Hk).
  - apply (groupFold_field sessionEntryFiKey skippedFiKey sessionFiZero sessionFiAdd numAdd
             (Fin 0) sf_total_jobs_sum (fun e => numOrZero (s_total_jobs_sum e))
             (fun _ => True) eq_refl (fun _ _ _ => eq_refl) _ _ _ (Forall_trivial _) Hk).
  - apply (groupFold_field sessionEntryFiKey skippedFiKey sessionFiZero sessionFiAdd numAdd
             (Fin 0) sf_successful_jobs_sum (fun e => numOrZero (s_successful_jobs_sum e))
             (fun _ => True) eq_refl (fun _ _ _ => eq_refl) _ _ _ (Forall_trivial _) Hk).
Qed.

Lemma termination_combine t b e :
  termsKeyed (p_totals e) ->
  countAt t (by_termination (placementFiAdd b e))
  = countAt t (by_termination b) + countAt t (by_termination (p_totals e)).
Proof. intros He. simpl. now apply countAt_merge. Qed.

Lemma placements_folded agg :
  byFi agg = foldl (groupStep placementEntryFiKey skippedFiKey emptyPlacementTotals
                      placementFiAdd) [] (ovalues (byInstance agg)) ->
  Forall (fun e => termsKeyed (p_totals e)) (ovalues (byInstance agg)) ->
  placementsFolded agg.
Proof.
  intros Hshape Hterms k b Hk. rewrite Hshape in Hk. simpl. unfold sumZ.
  split; [|split].
  - apply (groupFold_field placementEntryFiKey skippedFiKey emptyPlacementTotals
             placementFiAdd Z.add 0 total_placements
             (fun e => total_placements (p_totals e)) (fun _ => True) eq_refl
             (fun _ _ _ => eq_refl) _ _ _ (Forall_trivial _) Hk).
  - apply (groupFold_field placementEntryFiKey skippedFiKey emptyPlacementTotals
             placementFiAdd Z.add 0 successful_placements
             (fun e => successful_placements (p_totals e)) (fun _ => True) eq_refl
             (fun _ _ _ => eq_refl) _ _ _ (Forall_trivial _) Hk).
  - intros t.
    apply (groupFold_field placementEntryFiKey skippedFiKey emptyPlacementTotals
             placementFiAdd Z.add 0 (fun b => countAt t (by_termination b))
             (fun e => countAt t (by_termination (p_totals e)))
             (fun e => termsKeyed (p_totals e)) eq_refl
             (fun b e He => termination_combine t b e He) _ _ _ Hterms Hk).
Qed.

Lemma covered_by_fold {I F} (keyOf : I -> string) skip (dflt : F) combine
    (agg : Aggregate I F) :
  byFi agg = foldl (groupStep keyOf skip dflt combine) [] (ovalues (byInstance agg)) ->
  fiCovered keyOf skip agg.
Proof.
  intros Hshape ik b Hb Hs. apply In_keys_oget. rewrite Hshape.
  apply groupFold_keys. right. split; [exact Hs|].
  exists b. split; [eapply oget_In_values, Hb|reflexivity].
Qed.

(** The sum over the document's instance entries of one source. *)
Lemma docSum_source {I M} (op : M -> M -> M) (e0 : M)
    (op_comm : forall a b, op a b = op b a)
    (op_assoc : forall a b c, op a (op b c) = op (op a b) c)
    (op_unit : forall a, op a e0 = a)
    (keyOf : I -> string) (S : obj I) (k : string)
    (F : FiInstanceEntry -> M) (f : I -> M) day ga sessions placements :
  List.NoDup (okeys S) ->
  (forall x, In x (okeys S) ->
     In x (okeys (byInstance ga) ++ okeys (byInstance sessions)
             ++ okeys (byInstance placements))%list) ->
  (forall ik b, oget ik S = Some b ->
     F (fiInstanceEntryOf ik (oget ik (byInstance ga)) (oget ik (byInstance sessions))
          (oget ik (byInstance placements))) = f b) ->
  docSum op e0 (filedUnder keyOf S k) F (buildDailyDocument rt day ga sessions placements)
  = sumBy op e0 keyOf f k (ovalues S).
Proof.
  intros HS Hcover Hagree. unfold docSum, buildDailyDocument. simpl.
  rewrite foldl_map. simpl.
  rewrite (foldl_cond_total op e0 op_comm op_assoc op_unit).
  rewrite (op_unit_l op e0 op_comm op_unit).
  rewrite (sumBy_total op e0 op_comm op_assoc op_unit).
  rewrite <- (keys_sum_entries op e0 op_comm op_assoc op_unit S
                (uniq [] (okeys (byInstance ga) ++ okeys (byInstance sessions)
                            ++ okeys (byInstance placements))%list)).
  - f_equal. apply List.map_ext. intros ik. unfold filedUnder.
    destruct (oget ik S) as [b|] eqn:E; simpl; [|reflexivity].
    now rewrite (Hagree _ _ E).
  - exact HS.
  - apply NoDup_uniq.
  - intros x Hx. apply In_uniq. split; [auto|simpl; tauto].
Qed.

Lemma fi_key_kept (ga : Aggregate GaBucket GaFiBucket)
    (sessions : Aggregate SessionBucket SessionFiBucket)
    (placements : Aggregate PlacementBucket PlacementTotals) k :
  byFi ga = foldl (groupStep g_fi_lookup_key inheritedName gaFiZero (gaFiAdd rt)) []
              (ovalues (byInstance ga)) ->
  gaKeyed (byInstance ga) ->
  byFi sessions
  = foldl (groupStep sessionEntryFiKey skippedFiKey sessionFiZero sessionFiAdd) []
      (ovalues (byInstance sessions)) ->
  byFi placements
  = foldl (groupStep placementEntryFiKey skippedFiKey emptyPlacementTotals placementFiAdd)
      [] (ovalues (byInstance placements)) ->
  In k (okeys (byFi ga) ++ okeys (byFi sessions) ++ okeys (byFi placements))%list ->
  skippedFiKey k = false.
Proof.
  intros Hg [_ Hne] Hs Hp Hin.
  rewrite !List.in_app_iff in Hin. destruct Hin as [Hin|[Hin|Hin]].
  - rewrite Hg in Hin. apply groupFold_keys in Hin as [[]|[Hi [e [He <-]]]].
    unfold skippedFiKey. rewrite Hi, orb_false_r.
    unfold ovalues in He. apply List.in_map_iff in He as [[ik b] [<- Hb]].
    rewrite List.Forall_forall in Hne. apply (Hne _ Hb).
  - rewrite Hs in Hin. now apply groupFold_keys in Hin as [[]|[Hi _]].
  - rewrite Hp in Hin. now apply groupFold_keys in Hin as [[]|[Hi _]].
Qed.

End SumOfInstances.

Section DocumentSums.

Context (rt : JsRuntime).

Lemma document_folded day ga sessions placements :
  byFi ga = foldl (groupStep g_fi_lookup_key inheritedName gaFiZero (gaFiAdd rt)) []
              (ovalues (byInstance ga)) ->
  gaKeyed (byInstance ga) ->
  byFi sessions
  = foldl (groupStep sessionEntryFiKey skippedFiKey sessionFiZero sessionFiAdd) []
      (ovalues (byInstance sessions)) ->
  List.NoDup (okeys (byInstance sessions)) ->
  byFi placements
  = foldl (groupStep placementEntryFiKey skippedFiKey emptyPlacementTotals placementFiAdd)
      [] (ovalues (byInstance placements)) ->
  List.NoDup (okeys (byInstance placements)) ->
  Forall (fun e => termsKeyed (p_totals e)) (ovalues (byInstance placements)) ->
  countsFinite ga sessions ->
  documentFolded ga sessions placements (buildDailyDocument rt day ga sessions placements).
Proof.
  intros Hg Hgk Hs Hsk Hp Hpk Hterms [HfinG HfinS] k e Hk.
  rewrite fi_lookup in Hk.
  destruct (existsb _ _) eqn:Ex; [|discriminate]. injection Hk as <-.
  apply existsb_eqb_In in Ex.
  pose proof (fi_key_kept rt ga sessions placements k Hg Hgk Hs Hp Ex) as Hskip.
  assert (Hinh : inheritedName k = false).
  { unfold skippedFiKey in Hskip. now apply orb_false_elim in Hskip. }
  assert (HcG : forall x, In x (okeys (byInstance ga)) ->
                  In x (okeys (byInstance ga) ++ okeys (byInstance sessions)
                          ++ okeys (byInstance placements))%list).
  { intros x Hx. rewrite !List.in_app_iff. tauto. }
  assert (HcS : forall x, In x (okeys (byInstance sessions)) ->
                  In x (okeys (byInstance ga) ++ okeys (byInstance sessions)
                          ++ okeys (byInstance placements))%list).
  { intros x Hx. rewrite !List.in_app_iff. tauto. }
  assert (HcP : forall x, In x (okeys (byInstance placements)) ->
                  In x (okeys (byInstance ga) ++ okeys (byInstance sessions)
                          ++ okeys (byInstance placements))%list).
  { intros x Hx. rewrite !List.in_app_iff. tauto. }
  destruct Hgk as [Hgk _].
  assert (HG : forall (projF : GaFiBucket -> num) (projI : GaBucket -> num)
                 (field : GaCounts -> num),
             projF gaFiZero = Fin 0 ->
             (forall b e, projF (gaFiAdd rt b e) = numAdd (projF b) (projI e)) ->
             (forall o, field (fi_ga (fiEntryOf rt o (oget k (byFi sessions))
                                        (oget k (byFi placements))))
                        = numOrZero (from_option projF (Fin 0) o)) ->
             (forall b, field (gaCountsOf (g_select_merchants b) (g_user_data_collection b)
                                 (g_credential_entry b)) = numOrZero (projI b)) ->
             Forall (fun b => numIsFinite (projI b) = true) (ovalues (byInstance ga)) ->
             field (fi_ga (fiEntryOf rt (oget k (byFi ga)) (oget k (byFi sessions))
                             (oget k (byFi placements))))
             = docSumNum (filedUnder g_fi_lookup_key (byInstance ga) k)
                 (fun ie => field (in_ga ie))
                 (buildDailyDocument rt day ga sessions placements)).
  { intros projF projI field Hz Hadd Hfi Hin Hfin.
    unfold docSumNum.
    rewrite (docSum_source rt numAdd (Fin 0) numAdd_comm numAdd_assoc numAdd_zero
               g_fi_lookup_key (byInstance ga) k _ projI); [|exact Hgk|exact HcG|].
    - rewrite Hfi, Hg.
      rewrite (groupFold_total g_fi_lookup_key inheritedName gaFiZero (gaFiAdd rt) numAdd
                 (Fin 0) projF projI (fun _ => True) Hz (fun b e _ => Hadd b e) _ k Hinh
                 (Forall_trivial _)).
      apply numOrZero_finite. now apply sumNum_finite.
    - intros ik b Hb. simpl. rewrite Hb, Hin.
      apply numOrZero_finite. apply (Forall_values_oget _ _ _ _ Hfin Hb). }
  assert (HSZ : forall (projF : SessionFiBucket -> Z) (projI : SessionBucket -> Z)
                  (field : SessionCounts -> Z),
             projF sessionFiZero = 0 ->
             (forall b e, projF (sessionFiAdd b e) = projF b + projI e) ->
             (forall o, field (fi_sessions (fiEntryOf rt (oget k (byFi ga)) o
                                              (oget k (byFi placements))))
                        = from_option projF 0 o) ->
             (forall ik g b p, field (in_sessions (fiInstanceEntryOf ik g (Some b) p))
                               = projI b) ->
             field (fi_sessions (fiEntryOf rt (oget k (byFi ga)) (oget k (byFi sessions))
                                   (oget k (byFi placements))))
             = docSumZ (filedUnder sessionEntryFiKey (byInstance sessions) k)
                 (fun ie => field (in_sessions ie))
                 (buildDailyDocument rt day ga sessions placements)).
  { intros projF projI field Hz Hadd Hfi Hin.
    unfold docSumZ.
    rewrite (docSum_source rt Z.add 0 Z.add_comm Z.add_assoc Z.add_0_r
               sessionEntryFiKey (byInstance sessions) k _ projI); [|exact Hsk|exact HcS|].
    - rewrite Hfi, Hs.
      apply (groupFold_total sessionEntryFiKey skippedFiKey sessionFiZero sessionFiAdd Z.add
               0 projF projI (fun _ => True) Hz (fun b e _ => Hadd b e) _ k Hskip
               (Forall_trivial _)).
    - intros ik b Hb. rewrite Hb. apply Hin. }
  assert (HSN : forall (projF : SessionFiBucket -> num) (projI : SessionBucket -> num)
                  (field : SessionCounts -> num),
             projF sessionFiZero = Fin 0 ->
             (forall b e, projF (sessionFiAdd b e) = numAdd (projF b) (numOrZero (projI e))) ->
             (forall o, field (fi_sessions (fiEntryOf rt (oget k (byFi ga)) o
                                              (oget k (byFi placements))))
                        = numOrZero (from_option projF (Fin 0) o)) ->
             (forall ik g b p, field (in_sessions (fiInstanceEntryOf ik g (Some b) p))
                               = numOrZero (projI b)) ->
             Forall (fun b => numIsFinite (projI b) = true) (ovalues (byInstance sessions)) ->
             field (fi_sessions (fiEntryOf rt (oget k (byFi ga)) (oget k (byFi sessions))
                                   (oget k (byFi placements))))
             = docSumNum (filedUnder sessionEntryFiKey (byInstance sessions) k)
                 (fun ie => field (in_sessions ie))
                 (buildDailyDocument rt day ga sessions placements)).
  { intros projF projI field Hz Hadd Hfi Hin Hfin.
    unfold docSumNum.
    rewrite (docSum_source rt numAdd (Fin 0) numAdd_comm numAdd_assoc numAdd_zero
               sessionEntryFiKey (byInstance sessions) k _
               (fun e => numOrZero (projI e))); [|exact Hsk|exact HcS|].
    - rewrite Hfi, Hs.
      rewrite (groupFold_total sessionEntryFiKey skippedFiKey sessionFiZero sessionFiAdd
                 numAdd (Fin 0) projF (fun e => numOrZero (projI e)) (fun _ => True) Hz
                 (fun b e _ => Hadd b e) _ k Hskip (Forall_trivial _)).
      apply numOrZero_finite.
      apply (sumNum_finite sessionEntryFiKey (fun e => numOrZero (projI e))).
      eapply List.Forall_impl; [|exact Hfin]. intros b Hb. simpl.
      now rewrite numOrZero_finite.
    - intros ik b Hb. rewrite Hb. apply Hin. }
  assert (HPZ : forall (projF : PlacementTotals -> Z) (Q : PlacementBucket -> Prop),
             projF emptyPlacementTotals = 0 ->
             (forall b e, Q e -> projF (placementFiAdd b e) = projF b + projF (p_totals e)) ->
             Forall Q (ovalues (byInstance placements)) ->
             projF (fi_placements (fiEntryOf rt (oget k (byFi ga)) (oget k (byFi sessions))
                                     (oget k (byFi placements))))
             = docSumZ (filedUnder placementEntryFiKey (byInstance placements) k)
                 (fun ie => projF (in_placements ie))
                 (buildDailyDocument rt day ga sessions placements)).
  { intros projF Q Hz Hadd HQ.
    unfold docSumZ.
    rewrite (docSum_source rt Z.add 0 Z.add_comm Z.add_assoc Z.add_0_r
               placementEntryFiKey (byInstance placements) k _
               (fun e => projF (p_totals e))); [|exact Hpk|exact HcP|].
    - rewrite <- (groupFold_total placementEntryFiKey skippedFiKey emptyPlacementTotals
                    placementFiAdd Z.add 0 projF (fun e => projF (p_totals e)) Q Hz Hadd _ k
                    Hskip HQ).
      rewrite <- Hp. simpl. destruct (oget k (byFi placements)); simpl; congruence.
    - intros ik b Hb. simpl. now rewrite Hb. }
  simpl.
  split; [|split; [|split; [|split; [|split; [|split; [|split; [|split; [|split; [|split]]]]]]]]].
  - apply (HG gf_select_merchants g_select_merchants select_merchants); try reflexivity.
    + intros [b|]; reflexivity.
    + eapply List.Forall_impl; [|exact HfinG]. simpl. tauto.
  - apply (HG gf_user_data_collection g_user_data_collection user_data_collection);
      try reflexivity.
    + intros [b|]; reflexivity.
    + eapply List.Forall_impl; [|exact HfinG]. simpl. tauto.
  - apply (HG gf_credential_entry g_credential_entry credential_entry); try reflexivity.
    + intros [b|]; reflexivity.
    + eapply List.Forall_impl; [|exact HfinG]. simpl. tauto.
  - apply (HSZ sf_total_sessions s_total_sessions total); try reflexivity.
    intros [b|]; reflexivity.
  - apply (HSZ sf_sessions_with_jobs s_sessions_with_jobs with_jobs); try reflexivity.
    intros [b|]; reflexivity.
  - apply (HSZ sf_sessions_with_success s_sessions_with_success with_success);
      try reflexivity.
    intros [b|]; reflexivity.
  - apply (HSN sf_total_jobs_sum s_total_jobs_sum total_jobs); try reflexivity.
    + intros [b|]; reflexivity.
    + eapply List.Forall_impl; [|exact HfinS]. simpl. tauto.
  - apply (HSN sf_successful_jobs_sum s_successful_jobs_sum successful_jobs);
      try reflexivity.
    + intros [b|]; reflexivity.
    + eapply List.Forall_impl; [|exact HfinS]. simpl. tauto.
  - apply (HPZ total_placements (fun _ => True)); try reflexivity.
    apply Forall_trivial.
  - apply (HPZ successful_placements (fun _ => True)); try reflexivity.
    apply Forall_trivial.
  - intros t.
    apply (HPZ (fun b => countAt t (by_termination b)) (fun e => termsKeyed (p_totals e)));
      [reflexivity| |exact Hterms].
    intros b e He. now apply termination_combine.
Qed.

(** Totals of an FI against its instances, with the numbers of the model
    (whole numbers, added exactly, so that the order of a sum does not
    matter) and in a process whose [Object.prototype] has not been written
    to. In each of the three aggregators every [byFi] bucket is the sum,
    counter by counter (for the two job sums of Sessions: of [x || 0] of
    each instance's sum), of the [byInstance] buckets that the second loop
    files under its FI key, and every instance bucket whose FI key the
    second loop takes up has its [byFi] bucket. In the document built from
    them every [fi] counter (GA stages, session counts and job sums,
    placement counts, each entry of [by_termination]) is the sum of that
    counter over the [fi_instances] entries of the buckets filed under the
    FI key, as long as no GA count and no job sum of the day is NaN or
    infinite. *)
Theorem fi_is_sum_of_instances
    (day : string) (gaRaw sessionsRaw placementsRaw : option Payload)
    (registryIndex : RegistryIndex) (ga : Aggregate GaBucket GaFiBucket)
    (placements : Aggregate PlacementBucket PlacementTotals) :
  aggregateGaFromRaw rt day gaRaw registryIndex = Some ga ->
  aggregatePlacementsFromRaw rt placementsRaw registryIndex = Some placements ->
  let sessions := aggregateSessionsFromRaw rt sessionsRaw registryIndex in
  (gaFolded ga /\ sessionsFolded sessions /\ placementsFolded placements)
  /\ (fiCovered g_fi_lookup_key inheritedName ga
      /\ fiCovered sessionEntryFiKey skippedFiKey sessions
      /\ fiCovered placementEntryFiKey skippedFiKey placements)
  /\ (countsFinite ga sessions ->
      documentFolded ga sessions placements
        (buildDailyDocument rt day ga sessions placements)).
Proof.
  intros Hga Hpl sessions.
  destruct (aggregateGa_shape rt _ _ _ _ Hga) as [Hg Hgk].
  destruct (aggregateSessions_shape rt sessionsRaw registryIndex) as [Hs Hsk].
  destruct (aggregatePlacements_shape rt _ _ _ Hpl) as [Hp [Hpk Hterms]].
  fold sessions in Hs, Hsk.
  split; [|split].
  - split; [|split].
    + now apply (ga_folded rt).
    + now apply sessions_folded.
    + now apply placements_folded.
  - split; [|split].
    + now apply (covered_by_fold _ _ gaFiZero (gaFiAdd rt)).
    + now apply (covered_by_fold _ _ sessionFiZero sessionFiAdd).
    + now apply (covered_by_fold _ _ emptyPlacementTotals placementFiAdd).
  - intros Hfin. now apply document_folded.
Qed.

End DocumentSums.

(** C1 at a day whose GA rows are two instances of one FI, the first with
    a count that is no number. [Number("n/a")] is NaN and the GA loop adds
    it as it is: the instance bucket and the FI bucket hold NaN. The
    document builder writes [x || 0] for each: the FI shows 0 while its
    second instance shows 5. *)
Lemma malformed_ga_count_breaks_fi_sum :
  aggregateGaFromRaw plainRuntime "2025-01-01" (Some (payloadOf malformedCountRows))
    emptyIndex = Some (gaOf malformedCountRows)
  /\ map (fun kv => (fst kv, g_fi_lookup_key (snd kv), g_select_merchants (snd kv)))
       (byInstance (gaOf malformedCountRows))
     = [("acme__a", "acme", NaN); ("acme__b", "acme", Fin 5)]
  /\ map (fun kv => (fst kv, gf_select_merchants (snd kv))) (byFi (gaOf malformedCountRows))
     = [("acme", NaN)]
  /\ map (fun kv => (fst kv, select_merchants (fi_ga (snd kv))))
       (fi (gaOnlyDocument malformedCountRows))
     = [("acme", Fin 0)]
  /\ map (fun kv => (fst kv, fi_lookup_key (snd kv), select_merchants (in_ga (snd kv))))
       (fi_instances (gaOnlyDocument malformedCountRows))
     = [("acme__a", "acme", Fin 0); ("acme__b", "acme", Fin 5)].
Proof. repeat split; vm_compute; reflexivity. Qed.

Lemma fi_is_sum_of_instances_witness :
  (aggregateGaFromRaw plainRuntime "2025-01-01" (Some (payloadOf scenarioRows)) emptyIndex
   = Some (gaOf scenarioRows)
   /\ aggregatePlacementsFromRaw plainRuntime (Some (payloadOf samplePlacements)) emptyIndex
      = Some samplePlacementsAggregate
   /\ countsFinite (gaOf scenarioRows)
        (aggregateSessionsFromRaw plainRuntime (Some (payloadOf sampleSessions)) emptyIndex))
  /\ documentFolded (gaOf scenarioRows)
       (aggregateSessionsFromRaw plainRuntime (Some (payloadOf sampleSessions)) emptyIndex)
       samplePlacementsAggregate
       (buildDailyDocument plainRuntime "2025-01-01" (gaOf scenarioRows)
          (aggregateSessionsFromRaw plainRuntime (Some (payloadOf sampleSessions))
             emptyIndex)
          samplePlacementsAggregate).
Proof.
  assert (Hga : aggregateGaFromRaw plainRuntime "2025-01-01"
                  (Some (payloadOf scenarioRows)) emptyIndex = Some (gaOf scenarioRows))
    by (vm_compute; reflexivity).
  assert (Hpl : aggregatePlacementsFromRaw plainRuntime (Some (payloadOf samplePlacements))
                  emptyIndex = Some samplePlacementsAggregate)
    by (vm_compute; reflexivity).
  assert (Hfin : countsFinite (gaOf scenarioRows)
                   (aggregateSessionsFromRaw plainRuntime
                      (Some (payloadOf sampleSessions)) emptyIndex)).
  { split; vm_compute; repeat constructor. }
  split; [split; [exact Hga|split; [exact Hpl|exact Hfin]]|].
  exact (proj2 (proj2 (fi_is_sum_of_instances plainRuntime "2025-01-01"
                         (Some (payloadOf scenarioRows)) (Some (payloadOf sampleSessions))
                         (Some (payloadOf samplePlacements)) emptyIndex
                         (gaOf scenarioRows) samplePlacementsAggregate Hga Hpl)) Hfin).
Defined.

(** ** Instance keys *)

Lemma append_nil_l (s : string) : "" +:+ s = s.
Proof. reflexivity. Qed.

Lemma append_cons c (a b : string) : String c a +:+ b = String c (a +:+ b).
Proof. reflexivity. Qed.

Ltac push_append := rewrite ?append_cons, ?append_nil_l in *.

Lemma allString_app p (a b : string) :
  allString p (a +:+ b) = allString p a && allString p b.
Proof.
  induction a as [|x a IH]; push_append; simpl; [reflexivity|].
  now rewrite IH, Bool.andb_assoc.
Qed.

Lemma underscore_not_alnum (a y : string) :
  allString isAlnumLower (a +:+ String "_" y) = false.
Proof. rewrite allString_app. simpl. now rewrite andb_false_r. Qed.

Lemma dunder_head (b x y : string) :
  allString isAlnumLower x = true -> "__" +:+ x = b +:+ "__" +:+ y -> b = "".
Proof.
  intros Hx H. destruct b as [|c [|c' b]]; [reflexivity| |]; push_append; exfalso.
  - injection H as _ H. subst x. simpl in Hx. discriminate.
  - injection H as _ _ H. subst x. now rewrite underscore_not_alnum in Hx.
Qed.

(** The FI part of an instance key is determined by the key. *)
Lemma dunder_inj (a b x y : string) :
  allString isAlnumLower x = true -> allString isAlnumLower y = true ->
  a +:+ "__" +:+ x = b +:+ "__" +:+ y -> a = b.
Proof.
  intros Hx Hy. revert b. induction a as [|c a IH]; intros b H.
  - symmetry. exact (dunder_head b x y Hx H).
  - destruct b as [|c' b].
    + exact (dunder_head (String c a) y x Hy (eq_sym H)).
    + push_append. injection H as -> H. f_equal. auto.
Qed.

Lemma lowerChar_idem c : lowerChar (lowerChar c) = lowerChar c.
Proof. by_cases_on_char c. Qed.

Lemma toLowerCase_idem s : toLowerCase (toLowerCase s) = toLowerCase s.
Proof.
  unfold toLowerCase. induction s as [|c r IH]; simpl; [reflexivity|].
  now rewrite lowerChar_idem, IH.
Qed.

Section KeyFacts.

Context (rt : JsRuntime).

Lemma makeFiInstanceKey_strings n i :
  makeFiInstanceKey rt (VStr n) (VStr i)
  = toLowerCase n +:+ "__" +:+ canonicalInstance rt (VStr i).
Proof.
  unfold makeFiInstanceKey, vor. simpl.
  destruct n; reflexivity.
Qed.

Lemma normalizeFiKey_lower v : toLowerCase (normalizeFiKey rt v) = normalizeFiKey rt v.
Proof.
  unfold normalizeFiKey. destruct (truthy v); [apply toLowerCase_idem|reflexivity].
Qed.

(** The key built from a normalised FI and a canonical instance. *)
Lemma normalized_key v w :
  keyedBy (normalizeFiKey rt v) (canonicalInstance rt w)
    (makeFiInstanceKey rt (VStr (normalizeFiKey rt v)) (VStr (canonicalInstance rt w))).
Proof.
  split.
  - rewrite makeFiInstanceKey_strings, normalizeFiKey_lower.
    rewrite canonicalInstance_fixed;
      [reflexivity|apply canonicalInstance_alnum|apply canonicalInstance_nonempty].
  - apply canonicalInstance_alnum.
Qed.

Lemma keyedBy_inj n i n' i' k : keyedBy n i k -> keyedBy n' i' k -> n = n'.
Proof. intros [-> Hi] [H Hi']. exact (dunder_inj n n' i i' Hi Hi' H). Qed.

End KeyFacts.

(** ** The first loops as keyed folds *)

Section KeyedFold.

Context {B : Type} (keyOf : record -> string) (fresh : record -> B) (upd : B -> record -> B).
Context (Inv : string -> B -> Prop).
Hypothesis Inv_fresh : forall r, Inv (keyOf r) (upd (fresh r) r).
Hypothesis Inv_upd : forall b r, Inv (keyOf r) b -> Inv (keyOf r) (upd b r).

Abbreviation upsert := (upsertStep keyOf fresh upd).
Abbreviation allInv := (Forall (fun kv : string * B => Inv (fst kv) (snd kv))).

Lemma upsert_inv byInstance row : allInv byInstance -> allInv (upsert byInstance row).
Proof.
  intros H. destruct row as [|r]; simpl; [exact H|].
  apply Forall_oset; [exact H|]. simpl.
  destruct (oget (keyOf r) byInstance) as [b|] eqn:E; simpl.
  - apply Inv_upd. apply (Forall_oget _ _ _ _ H E).
  - apply Inv_fresh.
Qed.

Lemma upsertFold_inv rows byInstance :
  allInv byInstance -> allInv (foldl upsert byInstance rows).
Proof.
  revert byInstance. induction rows as [|row rest IH]; intros byInstance H; simpl.
  - exact H.
  - apply IH, upsert_inv, H.
Qed.

(** A record is counted in the bucket of its key, and that bucket keeps
    what the count established if later counts keep it. *)
Context (r0 : record) (Pr : B -> Prop).
Hypothesis Pr_fresh : Pr (upd (fresh r0) r0).
Hypothesis Pr_first : forall b, Inv (keyOf r0) b -> Pr (upd b r0).
Hypothesis Pr_later :
  forall b r, keyOf r = keyOf r0 -> Inv (keyOf r0) b -> Pr b -> Pr (upd b r).

Lemma upsertFold_keeps rows byInstance b :
  allInv byInstance -> oget (keyOf r0) byInstance = Some b -> Pr b ->
  exists b', oget (keyOf r0) (foldl upsert byInstance rows) = Some b' /\ Pr b'.
Proof.
  revert byInstance b. induction rows as [|row rest IH]; intros byInstance b Hinv Hb Hp; simpl.
  - eauto.
  - destruct row as [|r]; simpl; [eauto|].
    destruct (String.eqb_spec (keyOf r) (keyOf r0)) as [Heq|Hne].
    + eapply (IH _ (upd b r)).
      * apply (upsert_inv byInstance (Object r) Hinv).
      * rewrite Heq, oget_oset_eq, Hb. reflexivity.
      * apply Pr_later; [exact Heq| |exact Hp]. apply (Forall_oget _ _ _ _ Hinv Hb).
    + eapply (IH _ b).
      * apply (upsert_inv byInstance (Object r) Hinv).
      * rewrite oget_oset_ne by congruence. exact Hb.
      * exact Hp.
Qed.

Lemma upsertFold_filed rows byInstance :
  allInv byInstance -> In (Object r0) rows ->
  exists b, oget (keyOf r0) (foldl upsert byInstance rows) = Some b /\ Pr b.
Proof.
  revert byInstance. induction rows as [|row rest IH]; intros byInstance Hinv Hin; simpl.
  - destruct Hin.
  - destruct Hin as [->|Hin].
    + eapply upsertFold_keeps.
      * apply (upsert_inv byInstance (Object r0) Hinv).
      * simpl. apply oget_oset_eq.
      * destruct (oget (keyOf r0) byInstance) as [b|] eqn:E; simpl.
        -- apply Pr_first. apply (Forall_oget _ _ _ _ Hinv E).
        -- apply Pr_fresh.
    + apply IH; [|exact Hin]. apply upsert_inv, Hinv.
Qed.

End KeyedFold.

Lemma sumZ_ge {E} (keyOf : E -> string) (f : E -> Z) k (entries : list E) b :
  Forall (fun e => 0 <= f e) entries -> In b entries -> keyOf b = k ->
  f b <= sumZ keyOf f k entries.
Proof.
  unfold sumZ, sumBy. intros Hpos Hin Hk.
  assert (Hmono : forall l a, Forall (fun e => 0 <= f e) l ->
            a <= foldl (fun acc e => if String.eqb (keyOf e) k then acc + f e else acc) a l).
  { induction l as [|e r IH]; intros a Hl; simpl; [lia|].
    inversion Hl as [|? ? He Hr]; subst.
    etransitivity; [|apply IH, Hr]. destruct (String.eqb _ _); lia. }
  assert (Hgen : forall l a, Forall (fun e => 0 <= f e) l -> In b l -> 0 <= a ->
            f b <= foldl (fun acc e => if String.eqb (keyOf e) k then acc + f e else acc) a l).
  { induction l as [|e r IH]; intros a Hl Hb Ha; simpl; [destruct Hb|].
    inversion Hl as [|? ? He Hr]; subst.
    destruct Hb as [->|Hb].
    - rewrite String.eqb_refl. etransitivity; [|apply Hmono, Hr]. lia.
    - apply IH; auto. destruct (String.eqb _ _); lia. }
  apply Hgen; auto. lia.
Qed.

(** ** No session and no placement is lost *)

Section Filed.

Context (rt : JsRuntime).

Lemma sessionStep_upsert registryIndex byInstance row :
  sessionStep rt registryIndex byInstance row
  = upsertStep (fun r => sessionKey rt r registryIndex) (sessionFresh rt registryIndex)
      (sessionRecord rt registryIndex) byInstance row.
Proof.
  destruct row as [|session]; simpl; [reflexivity|].
  now destruct (oget _ byInstance).
Qed.

Lemma placementStep_upsert registryIndex byInstance row :
  placementStep rt registryIndex byInstance row
  = upsertStep (fun r => placementKey rt r registryIndex) (placementFresh rt registryIndex)
      (placementRecord rt registryIndex) byInstance row.
Proof.
  destruct row as [|placement]; simpl; [reflexivity|].
  now destruct (oget _ byInstance).
Qed.

Lemma Forall_pairs_values {A} (P : A -> Prop) (o : obj A) :
  Forall (fun kv => P (snd kv)) o -> Forall P (ovalues o).
Proof. intros H. unfold ovalues. now rewrite List.Forall_map. Qed.

(** Every session of a payload is counted in the [byInstance] bucket of
    its key, whose FI is the session's normalised FI key, and in the [byFi]
    bucket of that FI unless the second loop passes over it. *)
Lemma session_filed registryIndex raw session :
  truthy (pl_error raw) = false -> In (Object session) (payloadItems raw) ->
  let agg := aggregateSessionsFromRaw rt (Some raw) registryIndex in
  let fiNorm := normalizeFiKey rt (VStr (sessionFiLookup rt session registryIndex)) in
  exists b,
    oget (sessionKey rt session registryIndex) (byInstance agg) = Some b
    /\ s_fi_lookup_norm b = fiNorm
    /\ 1 <= s_total_sessions b
    /\ (skippedFiKey fiNorm = false ->
        exists fb, oget fiNorm (byFi agg) = Some fb /\ 1 <= sf_total_sessions fb).
Proof.
  intros Herr Hin agg fiNorm.
  destruct (aggregateSessions_shape rt (Some raw) registryIndex) as [Hshape Hnd].
  fold agg in Hshape, Hnd.
  set (Inv := fun (K : string) (b : SessionBucket) =>
                keyedBy (s_fi_lookup_norm b) (s_instance_norm b) K
                /\ 0 <= s_total_sessions b).
  assert (HbyI : byInstance agg
                 = foldl (upsertStep (fun r => sessionKey rt r registryIndex)
                            (sessionFresh rt registryIndex) (sessionRecord rt registryIndex))
                     [] (payloadItems raw)).
  { unfold agg, aggregateSessionsFromRaw. rewrite Herr. simpl.
    apply foldl_pointwise. intros a x. apply sessionStep_upsert. }
  assert (Hfresh : forall r, Inv (sessionKey rt r registryIndex)
                     (sessionRecord rt registryIndex (sessionFresh rt registryIndex r) r)).
  { intros r. split; [apply normalized_key|simpl; lia]. }
  assert (Hupd : forall b r, Inv (sessionKey rt r registryIndex) b ->
                   Inv (sessionKey rt r registryIndex) (sessionRecord rt registryIndex b r)).
  { intros b r [Hk Ht]. split; [exact Hk|simpl; lia]. }
  assert (Hall : Forall (fun kv => Inv (fst kv) (snd kv)) (byInstance agg)).
  { rewrite HbyI. apply upsertFold_inv; [exact Hfresh|exact Hupd|constructor]. }
  destruct (upsertFold_filed (fun r => sessionKey rt r registryIndex)
              (sessionFresh rt registryIndex) (sessionRecord rt registryIndex) Inv
              Hfresh Hupd session
              (fun b => s_fi_lookup_norm b = fiNorm /\ 1 <= s_total_sessions b))
    with (rows := payloadItems raw) (byInstance := @nil (string * SessionBucket))
    as [b [Hb [Hnorm Htot]]].
  - split; [reflexivity|simpl; lia].
  - intros b [Hk Ht]. split; [|simpl; lia]. simpl.
    eapply keyedBy_inj; [exact Hk|apply normalized_key].
  - intros b r _ _ [Hn Ht]. split; [exact Hn|simpl; lia].
  - constructor.
  - exact Hin.
  - rewrite <- HbyI in Hb. exists b. repeat split; try assumption.
    intros Hskip.
    assert (Hkey : sessionEntryFiKey b = fiNorm).
    { unfold sessionEntryFiKey, orElse. rewrite Hnorm.
      unfold skippedFiKey in Hskip. apply orb_false_elim in Hskip as [-> _]. reflexivity. }
    destruct (covered_by_fold _ _ _ _ agg Hshape _ _ Hb) as [fb Hfb];
      [now rewrite Hkey|].
    rewrite Hkey in Hfb. exists fb. split; [exact Hfb|].
    destruct (sessions_folded agg Hshape _ _ Hfb) as [-> _].
    etransitivity; [exact Htot|].
    apply sumZ_ge; [|eapply oget_In_values, Hb|exact Hkey].
    apply Forall_pairs_values. eapply List.Forall_impl; [|exact Hall].
    intros kv [_ H]. exact H.
Qed.

Lemma placement_filed registryIndex raw placement agg :
  aggregatePlacementsFromRaw rt (Some raw) registryIndex = Some agg ->
  truthy (pl_error raw) = false -> In (Object placement) (payloadItems raw) ->
  let fiNorm := normalizeFiKey rt (VStr (placementFiKey rt placement registryIndex)) in
  exists b,
    oget (placementKey rt placement registryIndex) (byInstance agg) = Some b
    /\ p_fi_lookup_norm b = fiNorm
    /\ 1 <= total_placements (p_totals b)
    /\ (skippedFiKey fiNorm = false ->
        exists fb, oget fiNorm (byFi agg) = Some fb /\ 1 <= total_placements fb).
Proof.
  intros Hagg Herr Hin fiNorm.
  destruct (aggregatePlacements_shape rt _ _ _ Hagg) as [Hshape [Hnd Hterms]].
  set (Inv := fun (K : string) (b : PlacementBucket) =>
                keyedBy (p_fi_lookup_norm b) (p_instance_norm b) K
                /\ 0 <= total_placements (p_totals b)).
  assert (HbyI : byInstance agg
                 = foldl (upsertStep (fun r => placementKey rt r registryIndex)
                            (placementFresh rt registryIndex)
                            (placementRecord rt registryIndex))
                     [] (payloadItems raw)).
  { revert Hagg. unfold aggregatePlacementsFromRaw. rewrite Herr.
    destruct (placementFold _ _); [|discriminate]. intros [= <-]. simpl.
    apply foldl_pointwise. intros a x. apply placementStep_upsert. }
  assert (Hfresh : forall r, Inv (placementKey rt r registryIndex)
                     (placementRecord rt registryIndex (placementFresh rt registryIndex r) r)).
  { intros r. split; [apply normalized_key|simpl; lia]. }
  assert (Hupd : forall b r, Inv (placementKey rt r registryIndex) b ->
                   Inv (placementKey rt r registryIndex)
                     (placementRecord rt registryIndex b r)).
  { intros b r [Hk Ht]. split; [exact Hk|simpl; lia]. }
  assert (Hall : Forall (fun kv => Inv (fst kv) (snd kv)) (byInstance agg)).
  { rewrite HbyI. apply upsertFold_inv; [exact Hfresh|exact Hupd|constructor]. }
  destruct (upsertFold_filed (fun r => placementKey rt r registryIndex)
              (placementFresh rt registryIndex) (placementRecord rt registryIndex) Inv
              Hfresh Hupd placement
              (fun b => p_fi_lookup_norm b = fiNorm /\ 1 <= total_placements (p_totals b)))
    with (rows := payloadItems raw) (byInstance := @nil (string * PlacementBucket))
    as [b [Hb [Hnorm Htot]]].
  - split; [reflexivity|simpl; lia].
  - intros b [Hk Ht]. split; [|simpl; lia]. simpl.
    eapply keyedBy_inj; [exact Hk|apply normalized_key].
  - intros b r _ _ [Hn Ht]. split; [exact Hn|simpl; lia].
  - constructor.
  - exact Hin.
  - rewrite <- HbyI in Hb. exists b. repeat split; try assumption.
    intros Hskip.
    assert (Hkey : placementEntryFiKey b = fiNorm).
    { unfold placementEntryFiKey, orElse. rewrite Hnorm.
      unfold skippedFiKey in Hskip. apply orb_false_elim in Hskip as [-> _]. reflexivity. }
    destruct (covered_by_fold _ _ _ _ agg Hshape _ _ Hb) as [fb Hfb];
      [now rewrite Hkey|].
    rewrite Hkey in Hfb. exists fb. split; [exact Hfb|].
    destruct (placements_folded agg Hshape Hterms _ _ Hfb) as [-> _].
    etransitivity; [exact Htot|].
    apply (sumZ_ge placementEntryFiKey (fun e => total_placements (p_totals e)));
      [|eapply oget_In_values, Hb|exact Hkey].
    apply Forall_pairs_values. eapply List.Forall_impl; [|exact Hall].
    intros kv [_ H]. exact H.
Qed.

End Filed.

(** ** C8: records without FI *)

Section UnknownFi.

Context (rt : JsRuntime).

Lemma resolveFiKey_nothing registryIndex preferred fallbackName :
  truthy preferred = false -> truthy fallbackName = false ->
  resolveFiKey rt preferred fallbackName registryIndex = VNull.
Proof. intros Hp Hn. unfold resolveFiKey, lowered. now rewrite Hp, Hn. Qed.

Lemma sessionFiLookup_unknown registryIndex session :
  sessionHasNoFi session = true ->
  sessionFiLookup rt session registryIndex = "unknown_fi".
Proof.
  unfold sessionHasNoFi. intros [Hl Hn]%andb_prop.
  apply negb_true_iff in Hl, Hn.
  unfold sessionFiLookup, safeSessionFiKey.
  rewrite (resolveFiKey_nothing _ _ _ Hl Hn). reflexivity.
Qed.

Lemma placementFiKey_unknown registryIndex placement :
  placementHasNoFi placement = true ->
  placementFiKey rt placement registryIndex = "unknown_fi".
Proof.
  unfold placementHasNoFi. intros [Hl Hn]%andb_prop.
  apply negb_true_iff in Hl, Hn.
  unfold placementFiKey, safePlacementFiKey.
  rewrite (resolveFiKey_nothing _ _ _ Hl Hn). reflexivity.
Qed.

Lemma fi_has (day : string) ga sessions placements k :
  In k (okeys (byFi ga) ++ okeys (byFi sessions) ++ okeys (byFi placements))%list ->
  oget k (fi (buildDailyDocument rt day ga sessions placements))
  = Some (fiEntryOf rt (oget k (byFi ga)) (oget k (byFi sessions))
            (oget k (byFi placements))).
Proof.
  intros H. rewrite fi_lookup. apply existsb_eqb_In in H. now rewrite H.
Qed.

Lemma fi_instances_has (day : string) ga sessions placements k :
  In k (okeys (byInstance ga) ++ okeys (byInstance sessions)
          ++ okeys (byInstance placements))%list ->
  oget k (fi_instances (buildDailyDocument rt day ga sessions placements))
  = Some (fiInstanceEntryOf k (oget k (byInstance ga)) (oget k (byInstance sessions))
            (oget k (byInstance placements))).
Proof.
  intros H. rewrite fi_instances_lookup. apply existsb_eqb_In in H. now rewrite H.
Qed.

Lemma resolveFiKey_unmatched (lookup name : value) (registryIndex : RegistryIndex) :
  truthy lookup = false -> truthy name = true ->
  isEmpty (toLowerCase (toString rt name)) = false ->
  byName registryIndex !! toLowerCase (toString rt name) = None ->
  (resolveFiKey rt lookup name registryIndex <||> VStr "unknown_fi")%js
  = VStr (toLowerCase (toString rt name)).
Proof.
  intros Hlookup Hname Hne Hnone.
  unfold resolveFiKey, lowered. rewrite Hlookup, Hname. simpl negb. cbv iota.
  rewrite Hne, Hnone. unfold vor. simpl truthy. now rewrite Hne.
Qed.


End UnknownFi.



(** ** C7: the default / advancial-prod collapse *)

Section AdvancialCollapse.

Context (rt : JsRuntime).

Lemma safeSessionFiKey_shape session registryIndex :
  exists s, safeSessionFiKey rt session registryIndex = VStr s /\ isEmpty s = false.
Proof.
  unfold safeSessionFiKey, vor.
  destruct (truthy (resolveFiKey _ _ _ _)) eqn:E.
  - now apply resolveFiKey_shape.
  - now exists "unknown_fi".
Qed.

(** C7, as the code has it. In Sessions and in Placements both
    adjustments are made on every record: with normalised FI key
    ["default"] and canonical instance ["advancialprod"] the record is
    counted under FI key ["advancial-prod"]; with normalised FI key
    ["advancial-prod"] and canonical instance ["default"] its instance
    becomes ["advancial-prod"] and it is counted under instance key
    [advancial-prod__advancialprod]. GA makes the instance adjustment on
    every row, and moves FI key ["default"] to ["advancial-prod"] only when
    both come from a host whose second label is ["advancial-prod"]. *)
Theorem advancial_collapse (registryIndex : RegistryIndex) :
  (forall raw session,
      truthy (pl_error raw) = false -> In (Object session) (payloadItems raw) ->
      let agg := aggregateSessionsFromRaw rt (Some raw) registryIndex in
      let fiKey := safeSessionFiKey rt session registryIndex in
      let instanceNorm := canonicalInstance rt (sessionInstanceRaw session) in
      (normalizeFiKey rt fiKey = "default" -> instanceNorm = "advancialprod" ->
       sessionFiLookup rt session registryIndex = "advancial-prod"
       /\ exists fb, oget "advancial-prod" (byFi agg) = Some fb
                     /\ 1 <= sf_total_sessions fb)
      /\ (normalizeFiKey rt fiKey = "advancial-prod" -> instanceNorm = "default" ->
          sessionInstanceValue rt session fiKey = VStr "advancial-prod"
          /\ sessionKey rt session registryIndex = "advancial-prod__advancialprod"
          /\ exists b, oget "advancial-prod__advancialprod" (byInstance agg) = Some b
                       /\ 1 <= s_total_sessions b))
  /\ (forall raw placement agg,
         aggregatePlacementsFromRaw rt (Some raw) registryIndex = Some agg ->
         truthy (pl_error raw) = false -> In (Object placement) (payloadItems raw) ->
         let baseFiKey := toString rt (safePlacementFiKey rt placement registryIndex) in
         let instanceNorm := canonicalInstance rt (placementInstanceRaw placement) in
         (normalizeFiKey rt (VStr baseFiKey) = "default" -> instanceNorm = "advancialprod" ->
          placementFiKey rt placement registryIndex = "advancial-prod"
          /\ exists fb, oget "advancial-prod" (byFi agg) = Some fb
                        /\ 1 <= total_placements fb)
         /\ (normalizeFiKey rt (VStr baseFiKey) = "advancial-prod" ->
             instanceNorm = "default" ->
             placementInstanceValue rt placement baseFiKey = VStr "advancial-prod"
             /\ placementKey rt placement registryIndex = "advancial-prod__advancialprod"
             /\ exists b, oget "advancial-prod__advancialprod" (byInstance agg) = Some b
                          /\ 1 <= total_placements (p_totals b)))
  /\ (forall originalRow parsedHost fiKey,
         normalizeFiKey rt fiKey = "advancial-prod" ->
         canonicalInstance rt (gaInstanceRaw originalRow parsedHost) = "default" ->
         gaInstanceDisplay rt originalRow parsedHost fiKey = "advancial-prod")
  /\ resolveFiFromHost "default.advancial-prod.cardupdatr.app"
     = Some {| hp_fi_key := "advancial-prod"; hp_instance := "advancial-prod" |}.
Proof.
  split; [|split; [|split]].
  - intros raw session Herr Hin agg fiKey instanceNorm.
    destruct (session_filed rt registryIndex raw session Herr Hin)
      as [b [Hb [Hnorm [Htot Hfi]]]].
    fold agg in Hb, Hfi.
    split.
    + intros Hn Hi.
      assert (Hlookup : sessionFiLookup rt session registryIndex = "advancial-prod").
      { unfold sessionFiLookup, sessionInstanceValue. fold fiKey.
        unfold adjustInstanceForFi at 1. rewrite Hn. simpl.
        unfold adjustFiLookupForInstance. rewrite Hn. fold instanceNorm. rewrite Hi.
        reflexivity. }
      split; [exact Hlookup|].
      rewrite Hlookup in Hfi. exact (Hfi eq_refl).
    + intros Hn Hi.
      assert (Hval : sessionInstanceValue rt session fiKey = VStr "advancial-prod").
      { unfold sessionInstanceValue, adjustInstanceForFi. rewrite Hn.
        fold instanceNorm. rewrite Hi. reflexivity. }
      assert (Hkey : sessionKey rt session registryIndex = "advancial-prod__advancialprod").
      { unfold sessionKey, sessionInstanceDisplay, sessionFiLookup. fold fiKey.
        rewrite Hval. unfold adjustFiLookupForInstance. rewrite Hn. simpl.
        destruct (safeSessionFiKey_shape session registryIndex) as [s [Hs Hne]].
        fold fiKey in Hs. revert Hn. rewrite Hs. intros Hn.
        unfold vor. simpl. rewrite ?Hne. simpl. rewrite ?Hne. simpl.
        rewrite Hn. reflexivity. }
      split; [exact Hval|]. split; [exact Hkey|].
      rewrite Hkey in Hb. eauto.
  - intros raw placement agg Hagg Herr Hin baseFiKey instanceNorm.
    destruct (placement_filed rt registryIndex raw placement agg Hagg Herr Hin)
      as [b [Hb [Hnorm [Htot Hfi]]]].
    split.
    + intros Hn Hi.
      assert (Hlookup : placementFiKey rt placement registryIndex = "advancial-prod").
      { unfold placementFiKey, placementInstanceValue. fold baseFiKey.
        unfold adjustInstanceForFi at 1. rewrite Hn. simpl.
        unfold adjustFiLookupForInstance. rewrite Hn. fold instanceNorm. rewrite Hi.
        reflexivity. }
      split; [exact Hlookup|].
      rewrite Hlookup in Hfi. exact (Hfi eq_refl).
    + intros Hn Hi.
      assert (Hval : placementInstanceValue rt placement baseFiKey = VStr "advancial-prod").
      { unfold placementInstanceValue, adjustInstanceForFi. rewrite Hn.
        fold instanceNorm. rewrite Hi. reflexivity. }
      assert (Hkey : placementKey rt placement registryIndex
                     = "advancial-prod__advancialprod").
      { unfold placementKey, placementInstanceDisplay, placementFiKey. fold baseFiKey.
        rewrite Hval. unfold adjustFiLookupForInstance. rewrite Hn. simpl.
        assert (Hsame : toString rt (VStr baseFiKey <||> VStr baseFiKey)%js = baseFiKey).
        { unfold vor. now destruct (truthy (VStr baseFiKey)). }
        rewrite Hsame, Hn. reflexivity. }
      split; [exact Hval|]. split; [exact Hkey|].
      rewrite Hkey in Hb. eauto.
  - intros originalRow parsedHost fiKey Hn Hi.
    unfold gaInstanceDisplay, adjustInstanceForFi. now rewrite Hn, Hi.
  - reflexivity.
Qed.

End AdvancialCollapse.

(** C7, the claim as written fails for GA: a GA row with FI key
    ["default"] and instance ["advancialprod"] stays under FI key
    ["default"], where a session with the same two values goes to
    ["advancial-prod"]. *)
Lemma ga_default_advancialprod_kept :
  normalizeFiKey plainRuntime (VStr "default") = "default"
  /\ canonicalInstance plainRuntime (VStr "advancialprod") = "advancialprod"
  /\ okeys (byFi (gaOf defaultAdvancialGaRows)) = ["default"]
  /\ okeys (byInstance (gaOf defaultAdvancialGaRows)) = ["default__advancialprod"]
  /\ oget "advancial-prod" (fi (gaOnlyDocument defaultAdvancialGaRows)) = None
  /\ okeys (byFi (aggregateSessionsFromRaw plainRuntime
                    (Some (payloadOf defaultAdvancialSessions)) emptyIndex))
     = ["advancial-prod"].
Proof. repeat split; vm_compute; reflexivity. Qed.

Lemma advancial_collapse_witness :
  (truthy (pl_error (payloadOf defaultAdvancialSessions)) = false
   /\ In (Object {[ "fi_lookup_key" := VStr "default"; "_instance" := VStr "advancialprod" ]})
        (payloadItems (payloadOf defaultAdvancialSessions))
   /\ normalizeFiKey plainRuntime
        (safeSessionFiKey plainRuntime
           {[ "fi_lookup_key" := VStr "default"; "_instance" := VStr "advancialprod" ]}
           emptyIndex) = "default"
   /\ canonicalInstance plainRuntime
        (sessionInstanceRaw
           {[ "fi_lookup_key" := VStr "default"; "_instance" := VStr "advancialprod" ]})
      = "advancialprod")
  /\ sessionFiLookup plainRuntime
       {[ "fi_lookup_key" := VStr "default"; "_instance" := VStr "advancialprod" ]}
       emptyIndex = "advancial-prod".
Proof.
  assert (H1 : truthy (pl_error (payloadOf defaultAdvancialSessions)) = false)
    by reflexivity.
  assert (H2 : In (Object {[ "fi_lookup_key" := VStr "default";
                             "_instance" := VStr "advancialprod" ]})
                 (payloadItems (payloadOf defaultAdvancialSessions)))
    by (left; reflexivity).
  assert (H3 : normalizeFiKey plainRuntime
                 (safeSessionFiKey plainRuntime
                    {[ "fi_lookup_key" := VStr "default";
                       "_instance" := VStr "advancialprod" ]} emptyIndex) = "default")
    by (vm_compute; reflexivity).
  assert (H4 : canonicalInstance plainRuntime
                 (sessionInstanceRaw
                    {[ "fi_lookup_key" := VStr "default";
                       "_instance" := VStr "advancialprod" ]}) = "advancialprod")
    by (vm_compute; reflexivity).
  split; [repeat split; assumption|].
  exact (proj1 (proj1 (proj1 (advancial_collapse plainRuntime emptyIndex)
                         (payloadOf defaultAdvancialSessions) _ H1 H2) H3 H4)).
Defined.

(** ** The atomic write *)

Lemma length_append (a b : string) :
  String.length (a +:+ b) = (String.length a + String.length b)%nat.
Proof. induction a as [|c a IH]; push_append; simpl; [reflexivity|now rewrite IH]. Qed.

Lemma append_inj_l (a x y : string) : a +:+ x = a +:+ y -> x = y.
Proof.
  induction a as [|c a IH]; push_append; [auto|]. intros [= H]. auto.
Qed.

Lemma append_inj_length (a b x y : string) :
  String.length a = String.length b -> a +:+ x = b +:+ y -> a = b.
Proof.
  revert b. induction a as [|c a IH]; intros [|c' b]; simpl; try discriminate.
  - reflexivity.
  - intros [= Hl]. push_append. intros [= -> H]. f_equal. auto.
Qed.

Lemma tmp_not_file baseDir day day' nonce :
  String.length day = String.length day' ->
  dailyTmpPath baseDir day nonce <> dailyFilePath baseDir day'.
Proof.
  intros Hl H. apply (f_equal String.length) in H.
  unfold dailyTmpPath, dailyFilePath, pathJoin in H.
  rewrite !length_append in H. simpl in H. lia.
Qed.

Lemma file_path_inj baseDir day day' :
  String.length day = String.length day' ->
  dailyFilePath baseDir day = dailyFilePath baseDir day' -> day = day'.
Proof.
  intros Hl H. unfold dailyFilePath, pathJoin in H.
  apply append_inj_l, append_inj_l in H.
  eapply append_inj_length; eauto.
Qed.

Lemma isIsoDate_length d : isIsoDate d = true -> String.length d = 10%nat.
Proof.
  unfold isIsoDate.
  do 11 (destruct d as [|? d]; simpl; try discriminate); reflexivity.
Qed.

Section WriteFacts.

Context (stringify : DailyDocument -> string).

Lemma writeDailyFile_result fs baseDir day doc nonce :
  writeDailyFile stringify fs baseDir day doc nonce
  = <[dailyFilePath baseDir day := stringify doc]>
      (delete (dailyTmpPath baseDir day nonce)
         (<[dailyTmpPath baseDir day nonce := stringify doc]> fs)).
Proof.
  unfold writeDailyFile, writeDailyFileOps. simpl.
  now rewrite lookup_insert_eq.
Qed.

Lemma writeDailyFile_lookup fs baseDir day doc nonce path :
  path <> dailyTmpPath baseDir day nonce ->
  writeDailyFile stringify fs baseDir day doc nonce !! path
  = if String.eqb path (dailyFilePath baseDir day) then Some (stringify doc) else fs !! path.
Proof.
  intros Hne. rewrite writeDailyFile_result.
  destruct (String.eqb_spec path (dailyFilePath baseDir day)) as [->|Hf].
  - apply lookup_insert_eq.
  - rewrite lookup_insert_ne by congruence.
    rewrite lookup_delete_ne by congruence.
    now rewrite lookup_insert_ne by congruence.
Qed.

(** C9. [writeDailyFile] writes the whole text to a temporary file that
    lies in the output directory next to the target and differs from it,
    and renames that file over the target afterwards. While this runs, in
    every state another process can find, the target holds what it held
    before or the whole new text; at the end it holds the new text. *)
Theorem writeDailyFile_atomic
    (fs : FileSystem) (baseDir day : string) (doc : DailyDocument) (nonce : string) :
  let file := dailyFilePath baseDir day in
  let tmp := dailyTmpPath baseDir day nonce in
  let text := stringify doc in
  writeDailyFileOps baseDir day nonce text
  = [OpMkdir baseDir; OpWriteFile tmp text; OpRename tmp file]
  /\ tmp = pathJoin baseDir ("." +:+ day +:+ ".json.tmp-" +:+ nonce)
  /\ file = pathJoin baseDir (day +:+ ".json")
  /\ tmp <> file
  /\ (forall st,
         observable (writeDailyFileOps baseDir day nonce text) fs st ->
         st !! file = fs !! file \/ st !! file = Some text)
  /\ writeDailyFile stringify fs baseDir day doc nonce !! file = Some text.
Proof.
  intros file tmp text.
  assert (Hne : tmp <> file) by (apply tmp_not_file; reflexivity).
  repeat split; try assumption.
  - intros st Hobs. unfold writeDailyFileOps in Hobs. fold tmp file in Hobs.
    inversion Hobs as [|op ops fs1 st1 Hd|op ops fs1 st1 Hl]; subst.
    { inversion Hd; subst; simpl; auto. }
    simpl in Hl.
    inversion Hl as [|op ops fs1 st1 Hd|op ops fs1 st1 Hl2]; subst.
    { inversion Hd; subst; simpl; left;
        try reflexivity; apply lookup_insert_ne; exact Hne. }
    simpl in Hl2.
    inversion Hl2 as [|op ops fs1 st1 Hd|op ops fs1 st1 Hl3]; subst.
    { inversion Hd; subst; simpl.
      - left. apply lookup_insert_ne; exact Hne.
      - right. rewrite lookup_insert_eq. apply lookup_insert_eq. }
    simpl in Hl3. rewrite lookup_insert_eq in Hl3.
    inversion Hl3; subst. right. apply lookup_insert_eq.
  - rewrite writeDailyFile_result. apply lookup_insert_eq.
Qed.

End WriteFacts.

Lemma writeDailyFile_atomic_witness :
  observable
    (writeDailyFileOps "data/daily" "2025-01-01" "4242-1735689600000-9f3a" "{}")
    (∅ : FileSystem)
    (<["data/daily/.2025-01-01.json.tmp-4242-1735689600000-9f3a" := "{"]> ∅)
  /\ ((<["data/daily/.2025-01-01.json.tmp-4242-1735689600000-9f3a" := "{"]> ∅
       : FileSystem) !! "data/daily/2025-01-01.json" = None
      \/ (<["data/daily/.2025-01-01.json.tmp-4242-1735689600000-9f3a" := "{"]> ∅
          : FileSystem) !! "data/daily/2025-01-01.json" = Some "{}").
Proof.
  assert (Hobs : observable
            (writeDailyFileOps "data/daily" "2025-01-01" "4242-1735689600000-9f3a" "{}")
            (∅ : FileSystem)
            (<["data/daily/.2025-01-01.json.tmp-4242-1735689600000-9f3a" := "{"]> ∅)).
  { apply observable_later. simpl. apply observable_now.
    apply (during_partial _ "{}" "{"). reflexivity. }
  split; [exact Hobs|].
  exact (proj1 (proj2 (proj2 (proj2 (proj2
           (writeDailyFile_atomic (fun _ => "{}") ∅ "data/daily" "2025-01-01"
              (emptyDocument "2025-01-01") "4242-1735689600000-9f3a")))))
           _ Hobs).
Defined.

(** ** The range driver *)

Section DriverFacts.

Context (rt : JsRuntime).
Context (stringify : DailyDocument -> string).
Context (readRaw : string -> string -> option Payload).

Abbreviation runDays' := (runDays rt stringify readRaw).
Abbreviation writtenBy' := (writtenBy rt stringify readRaw).

(** Whether the loop runs to its end depends on the raw inputs alone. *)
Lemma runDays_status registryIndex outDir nonce nonce' i i' dates fs fs' :
  snd (runDays' registryIndex outDir nonce i dates fs)
  = snd (runDays' registryIndex outDir nonce' i' dates fs').
Proof.
  revert i i' fs fs'. induction dates as [|d rest IH]; intros i i' fs fs'; simpl.
  - reflexivity.
  - destruct (buildDay rt readRaw registryIndex d); [apply IH|apply IH|reflexivity].
Qed.

(** What a run leaves in the file of a day, all dates being as long as
    the day. *)
Lemma runDays_file registryIndex outDir nonce i dates fs day :
  Forall (fun d => String.length d = String.length day) dates ->
  fst (runDays' registryIndex outDir nonce i dates fs) !! dailyFilePath outDir day
  = match writtenBy' registryIndex dates day with
    | Some text => Some text
    | None => fs !! dailyFilePath outDir day
    end.
Proof.
  intros Hdates. revert i fs.
  induction Hdates as [|d rest Hl Hrest IH]; intros i fs; simpl; [reflexivity|].
  destruct (buildDay rt readRaw registryIndex d) as [|doc|]; [apply IH| |reflexivity].
  rewrite IH.
  destruct (writtenBy' registryIndex rest day); [reflexivity|].
  rewrite writeDailyFile_lookup.
  - destruct (String.eqb_spec d day) as [->|Hne].
    + now rewrite String.eqb_refl.
    + destruct (String.eqb_spec (dailyFilePath outDir day) (dailyFilePath outDir d))
        as [Heq|_]; [|reflexivity].
      exfalso. apply Hne. symmetry. eapply file_path_inj; [|exact Heq]. now symmetry.
  - intros H. symmetry in H. revert H. now apply tmp_not_file.
Qed.

Lemma enumerated_lengths dates day :
  isEnumeratedRange dates -> In day dates ->
  Forall (fun d => String.length d = String.length day) dates.
Proof.
  intros [[d ->]|Hiso] Hin.
  - destruct Hin as [->|[]]. repeat constructor.
  - rewrite List.Forall_forall in Hiso.
    apply List.Forall_forall. intros d Hd.
    now rewrite !isIsoDate_length by auto.
Qed.

(** Two runs of the driver as the model has it, that is, each in a process
    whose [Object.prototype] has not been written to: over the same date
    range, raw payloads and registry, whatever the names of their temporary
    files and whatever the output directory held before, they end alike and
    leave the same text in the file of every date: it is the text of the
    document of that date, which the raw payloads and the registry
    determine, or, for a date that is skipped or not reached, what the file
    held before the first run. A second run in the process of a first one
    that met the FI key [__proto__] in its GA rows is not such a run. *)
Theorem rebuild_idempotent
    (fiRegistry : list item) (outDir : string) (nonce1 nonce2 : nat -> string)
    (dates : list string) (fs0 : FileSystem) :
  isEnumeratedRange dates ->
  let run1 :=
    buildDailyFromRawRange rt stringify readRaw fiRegistry outDir nonce1 dates fs0 in
  let run2 :=
    buildDailyFromRawRange rt stringify readRaw fiRegistry outDir nonce2 dates (fst run1) in
  snd run2 = snd run1
  /\ (forall day, In day dates ->
        fst run2 !! dailyFilePath outDir day = fst run1 !! dailyFilePath outDir day)
  /\ (forall day, In day dates ->
        fst run1 !! dailyFilePath outDir day
        = match writtenBy' (buildRegistryIndex rt fiRegistry) dates day with
          | Some text => Some text
          | None => fs0 !! dailyFilePath outDir day
          end).
Proof.
  intros Hdates run1 run2. unfold run2, run1, buildDailyFromRawRange.
  split; [apply runDays_status|].
  split; intros day Hin.
  - rewrite !runDays_file by now apply enumerated_lengths.
    now destruct (writtenBy' _ dates day).
  - now rewrite runDays_file by now apply enumerated_lengths.
Qed.


End DriverFacts.



Lemma rebuild_idempotent_witness :
  isEnumeratedRange ["2025-01-01"; "2025-01-02"]
  /\ fst (buildDailyFromRawRange plainRuntime dateOnly sampleStore [] "data/daily"
            secondNonce ["2025-01-01"; "2025-01-02"]
            (fst (buildDailyFromRawRange plainRuntime dateOnly sampleStore [] "data/daily"
                    firstNonce ["2025-01-01"; "2025-01-02"] ∅)))
       !! dailyFilePath "data/daily" "2025-01-01"
     = fst (buildDailyFromRawRange plainRuntime dateOnly sampleStore [] "data/daily"
              firstNonce ["2025-01-01"; "2025-01-02"] ∅)
         !! dailyFilePath "data/daily" "2025-01-01".
Proof.
  assert (H : isEnumeratedRange ["2025-01-01"; "2025-01-02"])
    by (right; repeat constructor).
  split; [exact H|].
  exact (proj1 (proj2 (rebuild_idempotent plainRuntime dateOnly sampleStore [] "data/daily"
                         firstNonce secondNonce ["2025-01-01"; "2025-01-02"] ∅ H))
           "2025-01-01" (or_introl eq_refl)).
Defined.

(** ** Formatting, canonical form and instance keys *)

Lemma isSpace_lowerChar c : isSpace (lowerChar c) = isSpace c.
Proof. by_cases_on_char c. Qed.

Lemma isSpaceOrUnderscore_lowerChar c :
  isSpaceOrUnderscore (lowerChar c) = isSpaceOrUnderscore c.
Proof. by_cases_on_char c. Qed.

Lemma separator_not_alnum c :
  isSpaceOrUnderscore c = true -> isAlnumLower (lowerChar c) = false.
Proof. by_cases_on_char c. Qed.

Lemma lowered_display_char c :
  isSpaceOrUnderscore c = false -> isDisplayChar (lowerChar c) = true.
Proof. by_cases_on_char c. Qed.

Lemma display_char_plain c :
  isDisplayChar c = true ->
  isSpace c = false /\ isSpaceOrUnderscore c = false /\ lowerChar c = c.
Proof. by_cases_on_char c; auto. Qed.

Lemma isEmpty_mapString f s : isEmpty (mapString f s) = isEmpty s.
Proof. now destruct s. Qed.

Lemma trimStart_lower s : trimStart (toLowerCase s) = toLowerCase (trimStart s).
Proof.
  unfold toLowerCase.
  induction s as [|c r IH]; simpl; [reflexivity|].
  rewrite isSpace_lowerChar. now destruct (isSpace c).
Qed.

Lemma trimEnd_lower s : trimEnd (toLowerCase s) = toLowerCase (trimEnd s).
Proof.
  unfold toLowerCase.
  induction s as [|c r IH]; simpl; [reflexivity|].
  rewrite isSpace_lowerChar, IH, !eqb_empty_isEmpty, isEmpty_mapString.
  now destruct (isSpace c && isEmpty (trimEnd r)).
Qed.

Lemma trim_lower s : trim (toLowerCase s) = toLowerCase (trim s).
Proof. unfold trim. now rewrite trimStart_lower, trimEnd_lower. Qed.

Lemma trimStart_idem s : trimStart (trimStart s) = trimStart s.
Proof.
  induction s as [|c r IH]; simpl; [reflexivity|].
  destruct (isSpace c) eqn:E; [exact IH|]. simpl. now rewrite E.
Qed.

Lemma trimEnd_idem s : trimEnd (trimEnd s) = trimEnd s.
Proof.
  induction s as [|c r IH]; simpl; [reflexivity|].
  destruct (isSpace c && (trimEnd r =? "")%string) eqn:E; [reflexivity|].
  simpl. now rewrite IH, E.
Qed.

Lemma trimStart_trimEnd s : trimStart (trimEnd s) = trimEnd (trimStart s).
Proof.
  induction s as [|c r IH]; simpl; [reflexivity|].
  destruct (isSpace c) eqn:E; simpl.
  - rewrite <- IH.
    destruct (trimEnd r =? "")%string eqn:T; simpl.
    + apply String.eqb_eq in T. now rewrite T.
    + now rewrite E.
  - now rewrite E.
Qed.

Lemma trim_idem s : trim (trim s) = trim s.
Proof.
  unfold trim.
  now rewrite trimStart_trimEnd, trimStart_idem, trimEnd_idem.
Qed.

Lemma filter_hyphenated inRun s :
  filterString isAlnumLower (toLowerCase (hyphenateRuns inRun s))
  = filterString isAlnumLower (toLowerCase s).
Proof.
  unfold toLowerCase.
  revert inRun. induction s as [|c r IH]; intros inRun; simpl; [reflexivity|].
  destruct (isSpaceOrUnderscore c) eqn:E.
  - rewrite (separator_not_alnum _ E).
    destruct inRun; simpl; now rewrite IH.
  - simpl. now rewrite IH.
Qed.

Lemma hyphenated_display inRun s :
  allString isDisplayChar (hyphenateRuns inRun (toLowerCase s)) = true.
Proof.
  unfold toLowerCase.
  revert inRun. induction s as [|c r IH]; intros inRun; simpl; [reflexivity|].
  rewrite isSpaceOrUnderscore_lowerChar.
  destruct (isSpaceOrUnderscore c) eqn:E.
  - destruct inRun; simpl; now rewrite IH.
  - simpl. now rewrite (lowered_display_char _ E), IH.
Qed.

Lemma display_trimStart s : allString isDisplayChar s = true -> trimStart s = s.
Proof.
  destruct s as [|c r]; simpl; [reflexivity|].
  intros [Hc _]%andb_prop. now destruct (display_char_plain _ Hc) as [-> _].
Qed.

Lemma display_trimEnd s : allString isDisplayChar s = true -> trimEnd s = s.
Proof.
  induction s as [|c r IH]; simpl; [reflexivity|].
  intros [Hc Hr]%andb_prop. destruct (display_char_plain _ Hc) as [-> _].
  simpl. now rewrite IH.
Qed.

Lemma display_lower s : allString isDisplayChar s = true -> toLowerCase s = s.
Proof.
  unfold toLowerCase.
  induction s as [|c r IH]; simpl; [reflexivity|].
  intros [Hc Hr]%andb_prop. destruct (display_char_plain _ Hc) as (_ & _ & ->).
  now rewrite IH.
Qed.

Lemma display_hyphenate s :
  allString isDisplayChar s = true -> hyphenateRuns false s = s.
Proof.
  induction s as [|c r IH]; simpl; [reflexivity|].
  intros [Hc Hr]%andb_prop. destruct (display_char_plain _ Hc) as (_ & -> & _).
  now rewrite IH.
Qed.

Lemma override_lookup (display : string) :
  INSTANCE_DISPLAY_OVERRIDES !! display
  = if String.eqb display "digitalonboarding" then Some "digital-onboarding" else None.
Proof.
  unfold INSTANCE_DISPLAY_OVERRIDES.
  destruct (String.eqb_spec display "digitalonboarding") as [->|Hne].
  - apply lookup_singleton_eq.
  - apply lookup_singleton_ne. congruence.
Qed.

Lemma test_instance_spec (s : string) :
  isTestInstanceName s
  = String.eqb (filterString isAlnumLower (toLowerCase s)) "customerdev".
Proof.
  unfold isTestInstanceName, TEST_INSTANCE_SET, canonicalTestInstance.
  destruct (isEmpty s) eqn:E.
  - now destruct s.
  - cbn [map RAW_TEST_INSTANCE_NAMES existsb isEmpty].
    rewrite filter_lower_trim, orb_false_r.
    replace (filterString isAlnumLower (toLowerCase (trim "customer-dev")))
      with "customerdev" by (vm_compute; reflexivity).
    reflexivity.
Qed.

Section FormatFacts.

Context (rt : JsRuntime).

Lemma formatInstanceDisplay_cases v :
  formatInstanceDisplay rt v
  = if truthy v then
      let display :=
        orElse (hyphenateRuns false (toLowerCase (trim (toString rt v)))) "unknown" in
      if String.eqb display "digitalonboarding" then "digital-onboarding" else display
    else "unknown".
Proof.
  unfold formatInstanceDisplay. destruct (truthy v); [|reflexivity].
  cbv zeta. rewrite override_lookup.
  now destruct (String.eqb _ "digitalonboarding").
Qed.

Lemma formatInstanceDisplay_display v :
  allString isDisplayChar (formatInstanceDisplay rt v) = true
  /\ isEmpty (formatInstanceDisplay rt v) = false
  /\ formatInstanceDisplay rt v <> "digitalonboarding".
Proof.
  rewrite formatInstanceDisplay_cases.
  destruct (truthy v); [|repeat split; [reflexivity..|discriminate]].
  cbv zeta.
  destruct (String.eqb_spec
              (orElse (hyphenateRuns false (toLowerCase (trim (toString rt v)))) "unknown")
              "digitalonboarding") as [E|E].
  - repeat split; [reflexivity..|discriminate].
  - repeat split; [| |exact E].
    + unfold orElse.
      destruct (isEmpty _); [reflexivity|apply hyphenated_display].
    + now apply orElse_nonempty.
Qed.

Lemma format_canonical v :
  canonicalInstance rt (VStr (formatInstanceDisplay rt v)) = canonicalInstance rt v.
Proof.
  rewrite formatInstanceDisplay_cases. unfold canonicalInstance at 2.
  destruct (truthy v) eqn:Hv; [|reflexivity].
  cbv zeta.
  set (low := toLowerCase (trim (toString rt v))).
  assert (Hbase : forall b, filterString isAlnumLower (toLowerCase (hyphenateRuns b low))
                            = filterString isAlnumLower low).
  { intros b. rewrite filter_hyphenated. unfold low. now rewrite toLowerCase_idem. }
  destruct (String.eqb_spec (orElse (hyphenateRuns false low) "unknown") "digitalonboarding")
    as [E|E].
  - unfold orElse in E.
    destruct (isEmpty (hyphenateRuns false low)) eqn:Eb; [discriminate|].
    rewrite <- (Hbase false), E. vm_compute. reflexivity.
  - unfold orElse at 1.
    destruct (isEmpty (hyphenateRuns false low)) eqn:Eb.
    + rewrite <- (Hbase false).
      destruct (hyphenateRuns false low); [reflexivity|discriminate].
    + unfold canonicalInstance. simpl truthy. rewrite Eb. simpl negb. cbv iota.
      simpl toString. now rewrite filter_lower_trim, Hbase.
Qed.

(** Formatting an instance name for display leaves its canonical form
    alone: [canonicalInstance(formatInstanceDisplay(v))] is
    [canonicalInstance(v)], whatever [v] is; the two ways the code computes
    the test flag, from the display and from the canonical form, agree. *)
Theorem formatInstanceDisplay_keeps_canonical (v : value) :
  canonicalInstance rt (VStr (formatInstanceDisplay rt v)) = canonicalInstance rt v
  /\ isTestInstanceName (formatInstanceDisplay rt v)
     = isTestInstanceName (canonicalInstance rt v).
Proof.
  split; [apply format_canonical|].
  rewrite !test_instance_spec, <- format_canonical.
  set (d := formatInstanceDisplay rt v).
  rewrite (toLowerCase_id (canonicalInstance rt (VStr d)))
    by apply canonicalInstance_alnum.
  rewrite (filterString_id _ (canonicalInstance rt (VStr d)))
    by apply canonicalInstance_alnum.
  unfold canonicalInstance. simpl truthy. simpl toString.
  destruct (formatInstanceDisplay_display v) as (_ & Hne & _). fold d in Hne.
  rewrite Hne. simpl negb. cbv iota. rewrite filter_lower_trim.
  unfold orElse. destruct (isEmpty (filterString _ _)) eqn:E; [|reflexivity].
  now destruct (filterString isAlnumLower (toLowerCase d)).
Qed.

(** [formatInstanceDisplay] is idempotent, and what it returns is never
    empty and holds no white space, no underscore and no upper-case
    letter. *)
Theorem formatInstanceDisplay_idempotent (v : value) :
  formatInstanceDisplay rt (VStr (formatInstanceDisplay rt v)) = formatInstanceDisplay rt v
  /\ isEmpty (formatInstanceDisplay rt v) = false
  /\ allString isDisplayChar (formatInstanceDisplay rt v) = true.
Proof.
  destruct (formatInstanceDisplay_display v) as (Hd & Hne & Hov).
  split; [|split; assumption].
  set (d := formatInstanceDisplay rt v) in *.
  rewrite formatInstanceDisplay_cases. simpl truthy. rewrite Hne. simpl negb. cbv iota zeta.
  simpl toString. unfold trim.
  rewrite (display_trimStart _ Hd), (display_trimEnd _ Hd), (display_lower _ Hd),
    (display_hyphenate _ Hd).
  unfold orElse. rewrite Hne.
  destruct (String.eqb_spec d "digitalonboarding"); [contradiction|reflexivity].
Qed.

(** [normalizeFiKey] is idempotent; its result is lower-case and has no
    white space at either end. *)
Theorem normalizeFiKey_idempotent (v : value) :
  normalizeFiKey rt (VStr (normalizeFiKey rt v)) = normalizeFiKey rt v
  /\ toLowerCase (normalizeFiKey rt v) = normalizeFiKey rt v
  /\ trim (normalizeFiKey rt v) = normalizeFiKey rt v.
Proof.
  assert (Ht : trim (normalizeFiKey rt v) = normalizeFiKey rt v).
  { unfold normalizeFiKey. destruct (truthy v); [|reflexivity].
    now rewrite <- trim_lower, trim_idem. }
  assert (Hl : toLowerCase (normalizeFiKey rt v) = normalizeFiKey rt v).
  { unfold normalizeFiKey. destruct (truthy v); [|reflexivity]. apply toLowerCase_idem. }
  split; [|split; assumption].
  unfold normalizeFiKey at 1. simpl truthy. simpl toString.
  destruct (isEmpty (normalizeFiKey rt v)) eqn:E; simpl negb; cbv iota.
  - now destruct (normalizeFiKey rt v).
  - now rewrite Ht, Hl.
Qed.

End FormatFacts.

(** ** Instance keys, there and back *)

Lemma append_nil_r (s : string) : s +:+ "" = s.
Proof. induction s as [|c r IH]; push_append; [reflexivity|now rewrite IH]. Qed.

Lemma append_snoc (a : string) c (b : string) :
  (a +:+ String c "") +:+ b = a +:+ String c b.
Proof. induction a as [|x a IH]; push_append; [reflexivity|now rewrite IH]. Qed.

Lemma alnum_not_underscore c : isAlnumLower c = true -> Ascii.eqb c "_" = false.
Proof. by_cases_on_char c. Qed.

Lemma underscore_lowerChar c : Ascii.eqb (lowerChar c) "_" = Ascii.eqb c "_".
Proof. by_cases_on_char c. Qed.

Lemma toLowerCase_app (a b : string) :
  toLowerCase (a +:+ b) = toLowerCase a +:+ toLowerCase b.
Proof.
  unfold toLowerCase.
  induction a as [|c r IH]; push_append; simpl; push_append; [reflexivity|now rewrite IH].
Qed.

Lemma includesDunder_lower s : includesDunder (toLowerCase s) = includesDunder s.
Proof.
  unfold toLowerCase.
  induction s as [|c r IH]; [reflexivity|].
  destruct r as [|c' r']; [reflexivity|].
  change (includesDunder (mapString lowerChar (String c (String c' r'))))
    with ((Ascii.eqb (lowerChar c) "_" && Ascii.eqb (lowerChar c') "_")
          || includesDunder (mapString lowerChar (String c' r'))).
  rewrite IH, !underscore_lowerChar. reflexivity.
Qed.

Lemma splitDunder_plain cur s :
  includesDunder s = false -> splitDunder cur s = [cur +:+ s].
Proof.
  revert cur. induction s as [|c r IH]; intros cur H.
  - simpl. now rewrite append_nil_r.
  - destruct r as [|c' r'].
    + reflexivity.
    + change (includesDunder (String c (String c' r')))
        with ((Ascii.eqb c "_" && Ascii.eqb c' "_") || includesDunder (String c' r')) in H.
      apply orb_false_elim in H as [H1 H2].
      change (splitDunder cur (String c (String c' r')))
        with (if Ascii.eqb c "_" && Ascii.eqb c' "_"
              then cur :: splitDunder EmptyString r'
              else splitDunder (cur +:+ String c EmptyString) (String c' r')).
      rewrite H1, (IH _ H2), append_snoc. reflexivity.
Qed.

Lemma alnum_no_dunder s : allString isAlnumLower s = true -> includesDunder s = false.
Proof.
  induction s as [|c r IH]; [reflexivity|].
  simpl allString. intros [Hc Hr]%andb_prop.
  destruct r as [|c' r']; [reflexivity|].
  change (includesDunder (String c (String c' r')))
    with ((Ascii.eqb c "_" && Ascii.eqb c' "_") || includesDunder (String c' r')).
  now rewrite (alnum_not_underscore _ Hc), IH.
Qed.

Lemma splitDunder_key cur fi inst :
  includesDunder (fi +:+ "_") = false -> allString isAlnumLower inst = true ->
  splitDunder cur (fi +:+ "__" +:+ inst) = [cur +:+ fi; inst].
Proof.
  intros Hfi Hinst. revert cur Hfi.
  induction fi as [|c r IH]; intros cur Hfi.
  - push_append. simpl.
    rewrite (splitDunder_plain _ _ (alnum_no_dunder _ Hinst)), append_nil_r.
    now push_append.
  - assert (Hstep : Ascii.eqb c "_"
                    && match r +:+ "_" with String c' _ => Ascii.eqb c' "_" | _ => false end
                    = false
                    /\ includesDunder (r +:+ "_") = false).
    { push_append. destruct r as [|c' r']; push_append.
      - simpl in Hfi. rewrite orb_false_r in Hfi. split; [exact Hfi|reflexivity].
      - change (includesDunder (String c (String c' (r' +:+ "_"))))
          with ((Ascii.eqb c "_" && Ascii.eqb c' "_")
                || includesDunder (String c' (r' +:+ "_"))) in Hfi.
        now apply orb_false_elim in Hfi. }
    destruct Hstep as [Hc Hr].
    specialize (IH (cur +:+ String c EmptyString) Hr).
    rewrite append_snoc in IH. rewrite <- IH.
    destruct r as [|c' r']; push_append.
    + simpl. simpl in Hc. rewrite Hc. reflexivity.
    + change (splitDunder cur (String c (String c' (r' +:+ String "_" (String "_" inst)))))
        with (if Ascii.eqb c "_" && Ascii.eqb c' "_"
              then cur :: splitDunder EmptyString (r' +:+ String "_" (String "_" inst))
              else splitDunder (cur +:+ String c EmptyString)
                     (String c' (r' +:+ String "_" (String "_" inst)))).
      simpl in Hc. rewrite Hc. reflexivity.
Qed.

Section InstanceKeys.

Context (rt : JsRuntime).

(** An instance key read back: when the FI key neither holds two
    underscores in a row nor ends with one, [parseInstanceKey] returns the
    lower-cased FI key and the canonical instance that [makeFiInstanceKey]
    put together; a key without two underscores in a row is an FI key of
    instance [unknown]. *)
Theorem instance_key_round_trip (fi : string) (inst : value) :
  (includesDunder (fi +:+ "_") = false ->
   parseInstanceKey (makeFiInstanceKey rt (VStr fi) inst)
   = (toLowerCase fi, canonicalInstance rt inst))
  /\ (forall key, includesDunder key = false ->
        parseInstanceKey key = (key, UNKNOWN_INSTANCE)).
Proof.
  split.
  - intros Hfi.
    assert (Hkey : makeFiInstanceKey rt (VStr fi) inst
                   = toLowerCase fi +:+ "__" +:+ canonicalInstance rt inst).
    { unfold makeFiInstanceKey, vor. simpl truthy.
      destruct fi; reflexivity. }
    rewrite Hkey. unfold parseInstanceKey.
    rewrite splitDunder_key.
    + push_append. unfold orElse. now rewrite canonicalInstance_nonempty.
    + rewrite <- (includesDunder_lower (fi +:+ "_")) in Hfi.
      now rewrite toLowerCase_app in Hfi.
    + apply canonicalInstance_alnum.
  - intros key H. unfold parseInstanceKey.
    rewrite (splitDunder_plain _ _ H). reflexivity.
Qed.

End InstanceKeys.

Lemma instance_key_round_trip_witness :
  includesDunder ("Unknown_FI" +:+ "_") = false
  /\ parseInstanceKey (makeFiInstanceKey plainRuntime (VStr "Unknown_FI") (VStr "Instance-1"))
     = ("unknown_fi", "instance1").
Proof.
  split; [reflexivity|].
  exact (proj1 (instance_key_round_trip plainRuntime "Unknown_FI" (VStr "Instance-1"))
           eq_refl).
Defined.

(** ** A bucket of a second loop is the fold of the entries of its key *)

Section GroupedBucket.

Context {E F : Type}.
Context (keyOf : E -> string) (skip : string -> bool) (dflt : F) (combine : F -> E -> F).

Lemma groupFold_bucket entries byFi k :
  skip k = false ->
  from_option id dflt (oget k (foldl (groupStep keyOf skip dflt combine) byFi entries))
  = foldl combine (from_option id dflt (oget k byFi))
      (List.filter (fun e => String.eqb (keyOf e) k) entries).
Proof.
  intros Hk. revert byFi.
  induction entries as [|e rest IH]; intros byFi; simpl; [reflexivity|].
  rewrite IH. unfold groupStep.
  destruct (String.eqb_spec (keyOf e) k) as [->|Hne].
  - rewrite Hk. simpl. now rewrite oget_oset_eq.
  - destruct (skip (keyOf e)); [reflexivity|].
    rewrite oget_oset_ne by congruence. reflexivity.
Qed.

Lemma groupFold_present entries k b :
  oget k (foldl (groupStep keyOf skip dflt combine) [] entries) = Some b ->
  skip k = false
  /\ b = foldl combine dflt (List.filter (fun e => String.eqb (keyOf e) k) entries).
Proof.
  intros H.
  assert (Hk : skip k = false).
  { apply oget_In_keys in H. apply groupFold_keys in H as [[]|[Hk _]]. exact Hk. }
  split; [exact Hk|].
  pose proof (groupFold_bucket entries [] k Hk) as Hb.
  rewrite H in Hb. exact Hb.
Qed.

End GroupedBucket.

(** ** The instances listed for an FI *)

Lemma existsb_canonical_false {A} (f : A -> string) c (l : list A) :
  existsb (fun v => String.eqb (f v) c) l = false -> ~ In c (map f l).
Proof.
  induction l as [|x r IH]; simpl; [tauto|].
  intros [Hx Hr]%orb_false_elim [Heq|Hin]; [|now apply IH].
  subst c. now rewrite String.eqb_refl in Hx.
Qed.

Lemma existsb_canonical_true {A} (f : A -> string) c (l : list A) :
  existsb (fun v => String.eqb (f v) c) l = true -> exists v, In v l /\ f v = c.
Proof.
  induction l as [|x r IH]; simpl; [discriminate|].
  intros [Hx|Hr]%orb_prop.
  - exists x. split; [now left|now apply String.eqb_eq].
  - destruct (IH Hr) as (v & Hv & Hf). exists v. split; [now right|exact Hf].
Qed.

Section Instances.

Context (rt : JsRuntime).
Hypothesis sorted : sortPermutes rt.

Abbreviation canon := (fun d => canonicalInstance rt (VStr d)).

Lemma canonical_of_canonical v :
  canonicalInstance rt (VStr (canonicalInstance rt v)) = canonicalInstance rt v.
Proof.
  apply canonicalInstance_fixed;
    [apply canonicalInstance_alnum|apply canonicalInstance_nonempty].
Qed.

Lemma ensureInstanceDisplay_In l d x :
  In x (ensureInstanceDisplay rt l d) <->
  In x l \/ (x = d /\ isEmpty d = false
             /\ existsb (fun v => String.eqb (canon v) (canon d)) l = false).
Proof.
  unfold ensureInstanceDisplay.
  destruct (isEmpty d) eqn:Ed; [split; [auto|intros [H|(_ & H & _)]; [auto|discriminate]]|].
  destruct (existsb _ l) eqn:Ex;
    [split; [auto|intros [H|(_ & _ & H)]; [auto|discriminate]]|].
  split.
  - intros H. apply (Permutation_in _ (sorted _)) in H.
    apply List.in_app_or in H as [H|[<-|[]]]; auto.
  - intros H. apply (Permutation_in _ (Permutation_sym (sorted _))).
    apply List.in_or_app. destruct H as [H|(-> & _)]; [now left|right; now left].
Qed.

Lemma ensureInstanceDisplay_distinct l d :
  distinctInstances rt l -> distinctInstances rt (ensureInstanceDisplay rt l d).
Proof.
  unfold distinctInstances, ensureInstanceDisplay. intros H.
  destruct (isEmpty d); [exact H|].
  destruct (existsb _ l) eqn:Ex; [exact H|].
  apply (Permutation_NoDup (Permutation_sym (Permutation_map _ (sorted _)))).
  rewrite List.map_app. simpl.
  apply (Permutation_NoDup (Permutation_cons_append _ _)).
  constructor; [|exact H].
  now apply existsb_canonical_false.
Qed.

Lemma ensureInstanceDisplay_covers l d :
  isEmpty d = false ->
  exists x, In x (ensureInstanceDisplay rt l d) /\ canon x = canon d.
Proof.
  intros Hd.
  destruct (existsb (fun v => String.eqb (canon v) (canon d)) l) eqn:Ex.
  - apply existsb_canonical_true in Ex as (v & Hv & Hc).
    exists v. split; [|exact Hc]. apply ensureInstanceDisplay_In. now left.
  - exists d. split; [|reflexivity]. apply ensureInstanceDisplay_In. right. auto.
Qed.

(** The list a second loop builds from the displays of the entries of one
    FI. *)
Lemma instances_of_fold (entries : list GaBucket) (z : GaFiBucket) :
  gf_instances (foldl (gaFiAdd rt) z entries)
  = foldl (ensureInstanceDisplay rt) (gf_instances z) (map g_instance entries).
Proof.
  revert z. induction entries as [|e rest IH]; intros z; simpl; [reflexivity|].
  now rewrite IH.
Qed.

Lemma ensured_fold (displays : list string) (l : list string) :
  distinctInstances rt l -> Forall (fun d => isEmpty d = false) l ->
  let l' := foldl (ensureInstanceDisplay rt) l displays in
  distinctInstances rt l'
  /\ Forall (fun d => isEmpty d = false) l'
  /\ (forall x, In x l' -> In x l \/ In x displays)
  /\ (forall x, In x l -> In x l')
  /\ (forall d, In d displays -> isEmpty d = false ->
        exists x, In x l' /\ canon x = canon d).
Proof.
  revert l. induction displays as [|d rest IH]; intros l Hl Hne; simpl.
  - repeat split; auto. intros d [].
  - assert (Hne' : Forall (fun d => isEmpty d = false) (ensureInstanceDisplay rt l d)).
    { apply List.Forall_forall. intros x Hx.
      apply ensureInstanceDisplay_In in Hx as [Hx|(-> & Hd & _)]; [|exact Hd].
      rewrite List.Forall_forall in Hne. now apply Hne. }
    destruct (IH _ (ensureInstanceDisplay_distinct l d Hl) Hne')
      as (H1 & H2 & H3 & H4 & H5).
    repeat split; [exact H1|exact H2| | |].
    + intros x Hx. destruct (H3 x Hx) as [Hx'|Hx']; [|right; now right].
      apply ensureInstanceDisplay_In in Hx' as [Hx'|(-> & _)]; [now left|right; now left].
    + intros x Hx. apply H4, ensureInstanceDisplay_In. now left.
    + intros d' [<-|Hd'] Hd.
      * destruct (ensureInstanceDisplay_covers l d Hd) as (x & Hx & Hc).
        exists x. split; [now apply H4|exact Hc].
      * now apply H5.
Qed.

Lemma dedupInstances_distinct (acc l : list string) :
  distinctInstances rt (acc ++ l)%list -> Forall (fun d => isEmpty d = false) l ->
  foldl (fun gaInstances display =>
           if isEmpty display then gaInstances
           else if existsb (fun v => String.eqb (canonicalInstance rt (VStr v))
                                        (canonicalInstance rt (VStr display))) gaInstances
                then gaInstances
                else (gaInstances ++ [display])%list)
        acc l
  = (acc ++ l)%list.
Proof.
  revert acc. induction l as [|d rest IH]; intros acc Hd Hne; simpl.
  - now rewrite List.app_nil_r.
  - inversion Hne as [|? ? Hd0 Hrest]; subst. rewrite Hd0.
    assert (Hex : existsb (fun v => String.eqb (canon v) (canon d)) acc = false).
    { destruct (existsb _ acc) eqn:Ex; [|reflexivity].
      apply existsb_canonical_true in Ex as (v & Hv & Hc).
      unfold distinctInstances in Hd. rewrite List.map_app in Hd. simpl in Hd.
      apply List.NoDup_remove_2 in Hd. exfalso. apply Hd.
      apply List.in_or_app. left. rewrite <- Hc. exact (List.in_map canon acc v Hv). }
    rewrite Hex, IH; [now rewrite <- List.app_assoc| |exact Hrest].
    now rewrite <- List.app_assoc.
Qed.

Lemma filter_nonempty (l : list string) :
  Forall (fun d => isEmpty d = false) l -> List.filter (fun i => negb (isEmpty i)) l = l.
Proof.
  induction 1 as [|d r Hd _ IH]; simpl; [reflexivity|]. now rewrite Hd, IH.
Qed.

Lemma gaRowStep_formed registryIndex byInstance row byInstance' :
  Forall (fun kv => gaBucketFormed rt (fst kv) (snd kv)) byInstance ->
  gaRowStep rt registryIndex byInstance row = Some byInstance' ->
  Forall (fun kv => gaBucketFormed rt (fst kv) (snd kv)) byInstance'.
Proof.
  intros Hall. destruct row as [|originalRow]; simpl; [now intros [= <-]|].
  destruct (gaHost originalRow) as [| | | |host]; try discriminate.
  destruct (truthy (gaFiKey _ _ _ _)) eqn:Et; simpl; [|now intros [= <-]].
  intros [= <-]. apply Forall_oset; [exact Hall|].
  unfold gaFiKey in *.
  apply resolveFiKey_shape in Et as [fiKey [Efi Hfi]].
  rewrite Efi.
  set (display := gaInstanceDisplay rt originalRow (resolveFiFromHost host) (VStr fiKey)).
  set (norm := canonicalInstance rt (VStr display)).
  assert (Hkey : makeFiInstanceKey rt (VStr fiKey) (VStr norm)
                 = toLowerCase fiKey +:+ "__" +:+ norm).
  { rewrite makeFiInstanceKey_strings. unfold norm.
    now rewrite canonical_of_canonical. }
  rewrite Hkey.
  assert (Hshape : forall b isTest pagePath count,
             gaBucketFormed rt (toLowerCase fiKey +:+ "__" +:+ norm) b ->
             isTest = isTestInstanceName (g_instance_norm b) ->
             gaBucketFormed rt (toLowerCase fiKey +:+ "__" +:+ norm)
               (gaAddCount (gaMarkTest isTest b) pagePath count)).
  { intros b isTest pagePath count (H1 & H2 & H3 & H4) ->.
    unfold gaBucketFormed, gaAddCount, gaMarkTest.
    destruct (isTestInstanceName (g_instance_norm b)) eqn:Et;
      repeat destruct (startsWith _ _); simpl; repeat split; auto; congruence. }
  simpl fst. simpl snd.
  destruct (oget _ byInstance) as [b|] eqn:E.
  - pose proof (Forall_oget _ _ _ _ Hall E) as Hb. simpl in Hb.
    apply Hshape; [exact Hb|].
    destruct Hb as (H1 & _).
    assert (Hn : norm = g_instance_norm b).
    { assert (Hfi' : toLowerCase fiKey = toLowerCase (g_fi_lookup_key b)).
      { eapply dunder_inj; [| |exact H1].
        - apply canonicalInstance_alnum.
        - destruct (Forall_oget _ _ _ _ Hall E) as (_ & Hnorm & _).
          simpl in Hnorm. rewrite Hnorm. apply canonicalInstance_alnum. }
      rewrite <- Hfi' in H1.
      apply append_inj_l in H1. now apply append_inj_l in H1. }
    now rewrite Hn.
  - apply Hshape; [|reflexivity].
    unfold gaBucketFormed. simpl. repeat split.
    unfold display, gaInstanceDisplay.
    apply formatInstanceDisplay_display.
Qed.

Lemma gaScanRows_formed registryIndex rows byInstance byInstance' :
  Forall (fun kv => gaBucketFormed rt (fst kv) (snd kv)) byInstance ->
  gaScanRows rt registryIndex rows byInstance = Some byInstance' ->
  Forall (fun kv => gaBucketFormed rt (fst kv) (snd kv)) byInstance'.
Proof.
  revert byInstance. induction rows as [|row rest IH]; intros byInstance H; simpl.
  - now intros [= <-].
  - destruct (gaRowStep rt registryIndex byInstance row) as [b1|] eqn:E; [|discriminate].
    apply IH. eapply gaRowStep_formed; eauto.
Qed.

Lemma aggregateGa_formed day raw registryIndex agg :
  aggregateGaFromRaw rt day raw registryIndex = Some agg ->
  Forall (fun kv => gaBucketFormed rt (fst kv) (snd kv)) (byInstance agg).
Proof.
  unfold aggregateGaFromRaw.
  destruct raw as [raw|]; [|intros [= <-]; constructor].
  destruct (truthy (pl_error raw)); [intros [= <-]; constructor|].
  destruct (gaScanRows _ _ _ _) as [byInstance0|] eqn:E; [|discriminate].
  intros [= <-]. simpl. eapply gaScanRows_formed; [|exact E]. constructor.
Qed.

Lemma In_values_oget {A} (o : obj A) v :
  List.NoDup (okeys o) -> In v (ovalues o) -> exists k, oget k o = Some v.
Proof.
  intros Hnd Hin. unfold ovalues in Hin.
  apply List.in_map_iff in Hin as ([k v'] & <- & Hin).
  exists k. now apply In_oget_NoDup.
Qed.

(** The instances listed for an FI by the GA aggregator, when the
    collation orders without adding or losing an element: no two of them
    have the same canonical form, each is the display of an instance
    bucket of that FI, every instance bucket of the FI is represented by
    one of them, and the document builder lists them unchanged. *)
Theorem ga_instances_listed_once
    (day : string) (raw : option Payload) (registryIndex : RegistryIndex)
    (agg : Aggregate GaBucket GaFiBucket) (k : string) (b : GaFiBucket) :
  aggregateGaFromRaw rt day raw registryIndex = Some agg ->
  oget k (byFi agg) = Some b ->
  distinctInstances rt (gf_instances b)
  /\ (forall d, In d (gf_instances b) ->
        exists ik e, oget ik (byInstance agg) = Some e
                     /\ g_fi_lookup_key e = k /\ g_instance e = d)
  /\ (forall ik e, oget ik (byInstance agg) = Some e -> g_fi_lookup_key e = k ->
        exists d, In d (gf_instances b)
                  /\ canonicalInstance rt (VStr d) = g_instance_norm e)
  /\ (forall s p, fi_ga_instances (fiEntryOf rt (Some b) s p) = gf_instances b).
Proof.
  intros Hagg Hb.
  destruct (aggregateGa_shape rt day raw registryIndex agg Hagg) as [Hfold [Hnd _]].
  pose proof (aggregateGa_formed day raw registryIndex agg Hagg) as Hformed.
  rewrite Hfold in Hb. apply groupFold_present in Hb as [_ ->].
  rewrite instances_of_fold.
  set (mine := List.filter (fun e => String.eqb (g_fi_lookup_key e) k)
                 (ovalues (byInstance agg))).
  destruct (ensured_fold (map g_instance mine) [])
    as (H1 & H2 & H3 & _ & H5); [constructor|constructor|].
  cbv zeta in *. simpl gf_instances in *.
  split; [exact H1|]. split; [|split].
  - intros d Hd. destruct (H3 d Hd) as [[]|Hin].
    apply List.in_map_iff in Hin as (e & <- & He).
    apply List.filter_In in He as [He Hk]. apply String.eqb_eq in Hk.
    destruct (In_values_oget _ _ Hnd He) as [ik Hik].
    exists ik, e. auto.
  - intros ik e Hik Hk.
    pose proof (Forall_oget _ _ _ _ Hformed Hik) as (_ & Hnorm & Hne & _).
    simpl in Hnorm, Hne.
    destruct (H5 (g_instance e)) as (x & Hx & Hc); [|exact Hne|].
    + apply List.in_map, List.filter_In. split; [now apply (oget_In_values ik)|].
      now apply String.eqb_eq.
    + exists x. split; [exact Hx|]. now rewrite Hnorm.
  - intros s p. unfold fiEntryOf. simpl. unfold dedupInstances.
    rewrite instances_of_fold. simpl gf_instances.
    rewrite (filter_nonempty _ H2).
    now rewrite (dedupInstances_distinct [] _ H1 H2).
Qed.

End Instances.

Lemma insertSorted_perm x l : Permutation (insertSorted x l) (x :: l).
Proof.
  induction l as [|y r IH]; simpl; [reflexivity|].
  destruct (String.leb x y); [reflexivity|].
  rewrite IH. apply perm_swap.
Qed.

Lemma plain_sort_permutes : sortPermutes plainRuntime.
Proof.
  intros l. simpl. induction l as [|x r IH]; simpl; [reflexivity|].
  now rewrite insertSorted_perm, IH.
Qed.

Lemma ga_instances_listed_once_witness :
  sortPermutes plainRuntime
  /\ aggregateGaFromRaw plainRuntime "2025-01-01" (Some (payloadOf scenarioRows)) emptyIndex
     = Some (gaOf scenarioRows)
  /\ exists b, oget "acme" (byFi (gaOf scenarioRows)) = Some b
               /\ distinctInstances plainRuntime (gf_instances b).
Proof.
  split; [exact plain_sort_permutes|]. split; [reflexivity|].
  eexists. split; [vm_compute; reflexivity|].
  refine (proj1 (ga_instances_listed_once plainRuntime plain_sort_permutes "2025-01-01"
                   (Some (payloadOf scenarioRows)) emptyIndex (gaOf scenarioRows) "acme" _
                   _ _)); vm_compute; reflexivity.
Defined.

(** ** Resolution against a registry *)

Lemma find_app {A} (p : A -> bool) (l l' : list A) :
  find p (l ++ l')%list = match find p l with Some x => Some x | None => find p l' end.
Proof.
  induction l as [|x r IH]; simpl; [reflexivity|]. now destruct (p x).
Qed.

Section RegistryFacts.

Context (rt : JsRuntime).

Lemma indexEntry_byName idx entry name :
  byName (indexEntry rt idx entry) !! name
  = if namesFi rt name entry then Some (entryLookup rt entry) else byName idx !! name.
Proof.
  destruct entry as [|e]; [reflexivity|].
  unfold indexEntry, namesFi, entryLookup.
  fold (registryLookupOf rt e). fold (registryNameOf rt e).
  cbv zeta. simpl byName.
  destruct (isEmpty (registryNameOf rt e)) eqn:En; simpl.
  - now rewrite andb_false_r.
  - destruct (isEmpty (registryLookupOf rt e)) eqn:El; simpl.
    + now rewrite andb_false_r.
    + rewrite andb_true_r.
      destruct (String.eqb_spec (registryNameOf rt e) name) as [->|Hne].
      * apply lookup_insert_eq.
      * now apply lookup_insert_ne.
Qed.

Lemma indexEntry_byLookup idx entry k v :
  byLookup (indexEntry rt idx entry) !! k = Some v ->
  byLookup idx !! k = Some v \/ (v = k /\ toLowerCase k = k).
Proof.
  destruct entry as [|e]; [auto|].
  unfold indexEntry. fold (registryLookupOf rt e). cbv zeta. simpl byLookup.
  destruct (isEmpty (registryLookupOf rt e)); [auto|].
  intros [[<- <-]|[_ H]]%lookup_insert_Some; [|auto].
  right. split; [reflexivity|]. apply toLowerCase_idem.
Qed.

Lemma registry_byName reg idx name :
  byName (foldl (indexEntry rt) idx reg) !! name
  = match find (namesFi rt name) (rev reg) with
    | Some entry => Some (entryLookup rt entry)
    | None => byName idx !! name
    end.
Proof.
  revert idx. induction reg as [|x r IH]; intros idx; simpl; [reflexivity|].
  rewrite IH, find_app. destruct (find _ (rev r)); [reflexivity|].
  simpl. rewrite indexEntry_byName. now destruct (namesFi rt name x).
Qed.

Lemma registry_byLookup reg idx :
  (forall k v, byLookup idx !! k = Some v -> v = k) ->
  forall k v, byLookup (foldl (indexEntry rt) idx reg) !! k = Some v -> v = k.
Proof.
  revert idx. induction reg as [|x r IH]; intros idx H; simpl; [exact H|].
  apply IH. intros k v [Hv|[Hv _]]%indexEntry_byLookup; auto.
Qed.

Lemma registry_lowered reg : loweredIndex (buildRegistryIndex rt reg).
Proof.
  split.
  - apply registry_byLookup. intros k v H. simpl in H. now rewrite lookup_empty in H.
  - intros k v H. unfold buildRegistryIndex in H. rewrite registry_byName in H.
    destruct (find _ (rev reg)) as [entry|] eqn:E;
      [|simpl in H; now rewrite lookup_empty in H].
    injection H as <-. destruct entry as [|e]; [reflexivity|].
    apply toLowerCase_idem.
Qed.

(** A registry never changes a key a record brings along: whatever the
    registry holds, a truthy preferred key resolves to its own lower-case
    form. *)
Theorem preferred_key_resolves_to_itself
    (fiRegistry : list item) (preferred fallbackName : value) :
  truthy preferred = true -> isEmpty (toString rt preferred) = false ->
  resolveFiKey rt preferred fallbackName (buildRegistryIndex rt fiRegistry)
  = VStr (toLowerCase (toString rt preferred)).
Proof.
  intros Ht Hs. unfold resolveFiKey, lowered. rewrite Ht. cbv zeta.
  assert (Hl : isEmpty (toLowerCase (toString rt preferred)) = false).
  { unfold toLowerCase. now rewrite isEmpty_mapString. }
  rewrite Hl. simpl negb. cbv iota.
  destruct (byLookup _ !! _) as [k|] eqn:E; [|reflexivity].
  now rewrite (proj1 (registry_lowered fiRegistry) _ _ E).
Qed.

(** Without a preferred key, a name resolves to the look-up key of the
    last registry entry that carries that name (case apart) together with
    a look-up key, and to its own lower-case form when there is no such
    entry. *)
Theorem name_resolves_to_last_entry
    (fiRegistry : list item) (preferred fallbackName : value) :
  truthy preferred = false -> truthy fallbackName = true ->
  isEmpty (toString rt fallbackName) = false ->
  let name := toLowerCase (toString rt fallbackName) in
  resolveFiKey rt preferred fallbackName (buildRegistryIndex rt fiRegistry)
  = VStr (from_option (entryLookup rt) name (find (namesFi rt name) (rev fiRegistry))).
Proof.
  intros Hp Hn Hs name. unfold resolveFiKey, lowered. rewrite Hp, Hn. cbv zeta.
  simpl isEmpty. simpl negb. cbv iota. fold name.
  assert (Hl : isEmpty name = false).
  { unfold name, toLowerCase. now rewrite isEmpty_mapString. }
  rewrite Hl. unfold buildRegistryIndex. rewrite registry_byName. simpl byName.
  rewrite lookup_empty.
  now destruct (find _ (rev fiRegistry)).
Qed.

End RegistryFacts.

Lemma preferred_key_resolves_to_itself_witness :
  (truthy (VStr "ACME") = true /\ isEmpty (toString plainRuntime (VStr "ACME")) = false)
  /\ resolveFiKey plainRuntime (VStr "ACME") (VStr "Acme Bank")
       (buildRegistryIndex plainRuntime
          [Object {[ "fi_lookup_key" := VStr "Acme"; "fi_name" := VStr "Acme Bank" ]}])
     = VStr "acme".
Proof.
  split; [split; reflexivity|].
  exact (preferred_key_resolves_to_itself plainRuntime
           [Object {[ "fi_lookup_key" := VStr "Acme"; "fi_name" := VStr "Acme Bank" ]}]
           (VStr "ACME") (VStr "Acme Bank") eq_refl eq_refl).
Defined.

Lemma name_resolves_to_last_entry_witness :
  (truthy VNull = false /\ truthy (VStr "Acme Bank") = true
   /\ isEmpty (toString plainRuntime (VStr "Acme Bank")) = false)
  /\ resolveFiKey plainRuntime VNull (VStr "Acme Bank")
       (buildRegistryIndex plainRuntime
          [Object {[ "fi_lookup_key" := VStr "acme_old"; "fi_name" := VStr "ACME BANK" ]};
           Object {[ "fi_lookup_key" := VStr "Acme"; "fi_name" := VStr "Acme Bank" ]};
           Object {[ "fi_lookup_key" := VStr "other"; "fi_name" := VStr "Other" ]}])
     = VStr "acme".
Proof.
  split; [repeat split; reflexivity|].
  exact (name_resolves_to_last_entry plainRuntime
           [Object {[ "fi_lookup_key" := VStr "acme_old"; "fi_name" := VStr "ACME BANK" ]};
            Object {[ "fi_lookup_key" := VStr "Acme"; "fi_name" := VStr "Acme Bank" ]};
            Object {[ "fi_lookup_key" := VStr "other"; "fi_name" := VStr "Other" ]}]
           VNull (VStr "Acme Bank") eq_refl eq_refl eq_refl).
Defined.

(** ** Well-formed buckets *)

Lemma key_parts (a b x y : string) :
  allString isAlnumLower x = true -> allString isAlnumLower y = true ->
  a +:+ "__" +:+ x = b +:+ "__" +:+ y -> a = b /\ x = y.
Proof.
  intros Hx Hy H. assert (Hab : a = b) by exact (dunder_inj a b x y Hx Hy H).
  split; [exact Hab|]. subst b.
  apply append_inj_l in H. now apply append_inj_l in H.
Qed.

Section FormedBuckets.

Context (rt : JsRuntime).

Lemma truthy_toString_nonempty s : isEmpty s = false -> truthy (VStr s) = true.
Proof. intros H. simpl. now rewrite H. Qed.

Lemma adjusted_session_lookup fiKey instanceValue s :
  fiKey = VStr s -> isEmpty s = false ->
  isEmpty (toString rt (adjustFiLookupForInstance rt fiKey instanceValue
                          <||> fiKey <||> VStr "unknown_fi")%js) = false.
Proof.
  intros -> Hs. unfold adjustFiLookupForInstance.
  destruct (_ && _); unfold vor; simpl; rewrite ?Hs; simpl; rewrite ?Hs; auto.
Qed.

Lemma sessionFiLookup_nonempty session registryIndex :
  isEmpty (sessionFiLookup rt session registryIndex) = false.
Proof.
  unfold sessionFiLookup.
  destruct (safeSessionFiKey_shape rt session registryIndex) as (s & Hs & Hne).
  now apply (adjusted_session_lookup _ _ s).
Qed.

Lemma safePlacementFiKey_shape placement registryIndex :
  exists s, safePlacementFiKey rt placement registryIndex = VStr s /\ isEmpty s = false.
Proof.
  unfold safePlacementFiKey, vor.
  destruct (truthy (resolveFiKey rt _ _ registryIndex)) eqn:E.
  - now apply resolveFiKey_shape.
  - exists "unknown_fi". split; reflexivity.
Qed.

Lemma placementFiKey_nonempty placement registryIndex :
  isEmpty (placementFiKey rt placement registryIndex) = false.
Proof.
  unfold placementFiKey.
  destruct (safePlacementFiKey_shape placement registryIndex) as (s & -> & Hne).
  simpl toString. unfold adjustFiLookupForInstance.
  destruct (_ && _); unfold vor; simpl; rewrite ?Hne; simpl; rewrite ?Hne; auto.
Qed.

Lemma sessionKey_parts session registryIndex :
  sessionKey rt session registryIndex
  = normalizeFiKey rt (VStr (sessionFiLookup rt session registryIndex))
    +:+ "__"
    +:+ canonicalInstance rt (VStr (sessionInstanceDisplay rt session registryIndex)).
Proof. unfold sessionKey. apply normalized_key. Qed.

Lemma placementKey_parts placement registryIndex :
  placementKey rt placement registryIndex
  = normalizeFiKey rt (VStr (placementFiKey rt placement registryIndex))
    +:+ "__"
    +:+ canonicalInstance rt (VStr (placementInstanceDisplay rt placement registryIndex)).
Proof. unfold placementKey. apply normalized_key. Qed.

Lemma session_fresh_formed registryIndex r :
  sessionBucketFormed rt (sessionKey rt r registryIndex)
    (sessionRecord rt registryIndex (sessionFresh rt registryIndex r) r).
Proof.
  unfold sessionBucketFormed, sessionRecord, sessionFresh, sessionCount. simpl.
  repeat split.
  - apply sessionKey_parts.
  - apply sessionFiLookup_nonempty.
  - unfold sessionInstanceDisplay. apply formatInstanceDisplay_display.
  - now destruct (isTestInstanceName _).
Qed.

Lemma session_record_formed registryIndex b r :
  sessionBucketFormed rt (sessionKey rt r registryIndex) b ->
  sessionBucketFormed rt (sessionKey rt r registryIndex) (sessionRecord rt registryIndex b r).
Proof.
  intros (H1 & H2 & H3 & H4 & H5 & H6).
  unfold sessionBucketFormed, sessionRecord, sessionCount. simpl.
  repeat split; try assumption.
  rewrite sessionKey_parts in H1.
  apply key_parts in H1 as [_ Hi];
    [|apply canonicalInstance_alnum|rewrite H4; apply canonicalInstance_alnum].
  rewrite Hi, H6. now destruct (isTestInstanceName _).
Qed.

Lemma placement_fresh_formed registryIndex r :
  placementBucketFormed rt (placementKey rt r registryIndex)
    (placementRecord rt registryIndex (placementFresh rt registryIndex r) r).
Proof.
  unfold placementBucketFormed, placementRecord, placementFresh. simpl.
  repeat split.
  - apply placementKey_parts.
  - apply placementFiKey_nonempty.
  - unfold placementInstanceDisplay. apply formatInstanceDisplay_display.
  - now destruct (isTestInstanceName _).
Qed.

Lemma placement_record_formed registryIndex b r :
  placementBucketFormed rt (placementKey rt r registryIndex) b ->
  placementBucketFormed rt (placementKey rt r registryIndex)
    (placementRecord rt registryIndex b r).
Proof.
  intros (H1 & H2 & H3 & H4 & H5 & H6).
  unfold placementBucketFormed, placementRecord. simpl.
  repeat split; try assumption.
  rewrite placementKey_parts in H1.
  apply key_parts in H1 as [_ Hi];
    [|apply canonicalInstance_alnum|rewrite H4; apply canonicalInstance_alnum].
  rewrite Hi, H6. now destruct (isTestInstanceName _).
Qed.

Lemma sessions_byInstance raw registryIndex :
  byInstance (aggregateSessionsFromRaw rt raw registryIndex)
  = match raw with
    | Some payload =>
        if truthy (pl_error payload) then []
        else foldl (upsertStep (fun r => sessionKey rt r registryIndex)
                      (sessionFresh rt registryIndex) (sessionRecord rt registryIndex))
               [] (payloadItems payload)
    | None => []
    end.
Proof.
  unfold aggregateSessionsFromRaw. destruct raw as [payload|]; [|reflexivity].
  destruct (truthy (pl_error payload)); [reflexivity|]. simpl.
  apply foldl_pointwise. intros a x. apply sessionStep_upsert.
Qed.

Lemma placements_byInstance raw registryIndex agg :
  aggregatePlacementsFromRaw rt raw registryIndex = Some agg ->
  byInstance agg
  = match raw with
    | Some payload =>
        if truthy (pl_error payload) then []
        else foldl (upsertStep (fun r => placementKey rt r registryIndex)
                      (placementFresh rt registryIndex) (placementRecord rt registryIndex))
               [] (payloadItems payload)
    | None => []
    end.
Proof.
  unfold aggregatePlacementsFromRaw. destruct raw as [payload|]; [|now intros [= <-]].
  destruct (truthy (pl_error payload)); [now intros [= <-]|].
  destruct (placementFold _ _); [|discriminate]. intros [= <-]. simpl.
  apply foldl_pointwise. intros a x. apply placementStep_upsert.
Qed.

Lemma sessions_formed raw registryIndex :
  Forall (fun kv => sessionBucketFormed rt (fst kv) (snd kv))
    (byInstance (aggregateSessionsFromRaw rt raw registryIndex)).
Proof.
  rewrite sessions_byInstance. destruct raw as [payload|]; [|constructor].
  destruct (truthy (pl_error payload)); [constructor|].
  apply upsertFold_inv; [apply session_fresh_formed|apply session_record_formed|constructor].
Qed.

Lemma placements_formed raw registryIndex agg :
  aggregatePlacementsFromRaw rt raw registryIndex = Some agg ->
  Forall (fun kv => placementBucketFormed rt (fst kv) (snd kv)) (byInstance agg).
Proof.
  intros H. rewrite (placements_byInstance _ _ _ H). destruct raw as [payload|]; [|constructor].
  destruct (truthy (pl_error payload)); [constructor|].
  apply upsertFold_inv;
    [apply placement_fresh_formed|apply placement_record_formed|constructor].
Qed.

End FormedBuckets.

(** ** The test flag of an instance *)

Section TestFlag.

Context (rt : JsRuntime).

Lemma flag_of_sources (k : string) (g : option GaBucket) (s : option SessionBucket)
    (p : option PlacementBucket) :
  (forall b, g = Some b -> gaBucketFormed rt k b) ->
  (forall b, s = Some b -> sessionBucketFormed rt k b) ->
  (forall b, p = Some b -> placementBucketFormed rt k b) ->
  (g <> None \/ s <> None \/ p <> None) ->
  exists fiPart instancePart,
    k = fiPart +:+ "__" +:+ instancePart
    /\ allString isAlnumLower instancePart = true
    /\ isEmpty instancePart = false
    /\ from_option g_is_test false g || from_option s_is_test false s
       || from_option p_is_test false p
       = isTestInstanceName instancePart.
Proof.
  intros Hg Hs Hp Hsome.
  assert (HG : forall b, g = Some b ->
                 exists f, k = f +:+ "__" +:+ g_instance_norm b
                           /\ allString isAlnumLower (g_instance_norm b) = true
                           /\ isEmpty (g_instance_norm b) = false
                           /\ g_is_test b = isTestInstanceName (g_instance_norm b)).
  { intros b Hb. destruct (Hg b Hb) as (H1 & H2 & _ & H4).
    exists (toLowerCase (g_fi_lookup_key b)). rewrite H2 in *.
    repeat split; auto using canonicalInstance_alnum, canonicalInstance_nonempty. }
  assert (HS : forall b, s = Some b ->
                 exists f, k = f +:+ "__" +:+ s_instance_norm b
                           /\ allString isAlnumLower (s_instance_norm b) = true
                           /\ isEmpty (s_instance_norm b) = false
                           /\ s_is_test b = isTestInstanceName (s_instance_norm b)).
  { intros b Hb. destruct (Hs b Hb) as (H1 & _ & _ & H4 & _ & H6).
    exists (s_fi_lookup_norm b). rewrite H4 in *.
    repeat split; auto using canonicalInstance_alnum, canonicalInstance_nonempty. }
  assert (HP : forall b, p = Some b ->
                 exists f, k = f +:+ "__" +:+ p_instance_norm b
                           /\ allString isAlnumLower (p_instance_norm b) = true
                           /\ isEmpty (p_instance_norm b) = false
                           /\ p_is_test b = isTestInstanceName (p_instance_norm b)).
  { intros b Hb. destruct (Hp b Hb) as (H1 & _ & _ & H4 & _ & H6).
    exists (p_fi_lookup_norm b). rewrite H4 in *.
    repeat split; auto using canonicalInstance_alnum, canonicalInstance_nonempty. }
  clear Hg Hs Hp.
  assert (Hsame : forall f i f' i',
             k = f +:+ "__" +:+ i -> allString isAlnumLower i = true ->
             k = f' +:+ "__" +:+ i' -> allString isAlnumLower i' = true -> i = i').
  { intros f i f' i' -> Hi H Hi'. now apply (key_parts f f' i i'). }
  destruct g as [gb|], s as [sb|], p as [pb|]; simpl;
    try (destruct (HG gb eq_refl) as (fg & Kg & Ag & Ng & Tg));
    try (destruct (HS sb eq_refl) as (fs & Ks & As & Ns & Ts));
    try (destruct (HP pb eq_refl) as (fp & Kp & Ap & Np & Tp)).
  - exists fg, (g_instance_norm gb). repeat split; auto.
    rewrite Tg, Ts, Tp.
    rewrite <- (Hsame _ _ _ _ Kg Ag Ks As), <- (Hsame _ _ _ _ Kg Ag Kp Ap).
    now destruct (isTestInstanceName _).
  - exists fg, (g_instance_norm gb). repeat split; auto.
    rewrite Tg, Ts, <- (Hsame _ _ _ _ Kg Ag Ks As).
    now destruct (isTestInstanceName _).
  - exists fg, (g_instance_norm gb). repeat split; auto.
    rewrite Tg, Tp, <- (Hsame _ _ _ _ Kg Ag Kp Ap).
    now destruct (isTestInstanceName _).
  - exists fg, (g_instance_norm gb). repeat split; auto.
    rewrite Tg. now destruct (isTestInstanceName _).
  - exists fs, (s_instance_norm sb). repeat split; auto.
    rewrite Ts, Tp, <- (Hsame _ _ _ _ Ks As Kp Ap).
    now destruct (isTestInstanceName _).
  - exists fs, (s_instance_norm sb). repeat split; auto.
    rewrite Ts. now destruct (isTestInstanceName _).
  - exists fp, (p_instance_norm pb). repeat split; auto.
  - exfalso. destruct Hsome as [H|[H|H]]; now apply H.
Qed.

(** In a document built from the three aggregators, every [fi_instances]
    key ends in a canonical instance, after the last two underscores in a
    row, and the entry is flagged as a test instance exactly when that
    instance is on the allowlist: records of the three sources never
    disagree on the flag. *)
Theorem test_flag_follows_instance
    (day : string) (gaRaw sessionsRaw placementsRaw : option Payload)
    (registryIndex : RegistryIndex) (ga : Aggregate GaBucket GaFiBucket)
    (placements : Aggregate PlacementBucket PlacementTotals)
    (k : string) (e : FiInstanceEntry) :
  aggregateGaFromRaw rt day gaRaw registryIndex = Some ga ->
  aggregatePlacementsFromRaw rt placementsRaw registryIndex = Some placements ->
  let sessions := aggregateSessionsFromRaw rt sessionsRaw registryIndex in
  oget k (fi_instances (buildDailyDocument rt day ga sessions placements)) = Some e ->
  exists fiPart instancePart,
    k = fiPart +:+ "__" +:+ instancePart
    /\ allString isAlnumLower instancePart = true
    /\ isEmpty instancePart = false
    /\ is_test e = isTestInstanceName instancePart.
Proof.
  intros Hga Hpl sessions He.
  rewrite fi_instances_lookup in He.
  destruct (existsb _ _) eqn:Ex; [|discriminate]. injection He as <-.
  apply existsb_eqb_In in Ex.
  unfold fiInstanceEntryOf. simpl is_test.
  apply flag_of_sources.
  - intros b Hb. apply (Forall_oget _ _ _ _ (aggregateGa_formed rt _ _ _ _ Hga) Hb).
  - intros b Hb. apply (Forall_oget _ _ _ _ (sessions_formed rt sessionsRaw registryIndex) Hb).
  - intros b Hb. apply (Forall_oget _ _ _ _ (placements_formed rt _ _ _ Hpl) Hb).
  - apply List.in_app_or in Ex as [H|H]; [|apply List.in_app_or in H as [H|H]];
      apply In_keys_oget in H as [v Hv]; [left|right; left|right; right];
      unfold sessions in *; congruence.
Qed.

End TestFlag.

(** ** FI keys are lower-case *)

Section LowerCaseKeys.

Context (rt : JsRuntime).

Lemma resolveFiKey_lower registryIndex preferred fallbackName s :
  loweredIndex registryIndex ->
  resolveFiKey rt preferred fallbackName registryIndex = VStr s ->
  toLowerCase s = s.
Proof.
  intros [Hl Hn]. unfold resolveFiKey, lowered.
  assert (Hlow : forall v, toLowerCase (if truthy v then toLowerCase (toString rt v) else "")
                           = (if truthy v then toLowerCase (toString rt v) else "")).
  { intros v. destruct (truthy v); [apply toLowerCase_idem|reflexivity]. }
  cbv zeta. destruct (negb (isEmpty _)).
  - destruct (byLookup registryIndex !! _) as [k|] eqn:E; intros [= <-].
    + rewrite (Hl _ _ E). apply Hlow.
    + apply Hlow.
  - destruct (isEmpty (if truthy fallbackName then _ else _)) eqn:En; [discriminate|].
    destruct (byName registryIndex !! _) as [k|] eqn:E; intros [= <-].
    + apply (Hn _ _ E).
    + apply Hlow.
Qed.

Lemma gaRowStep_lower registryIndex byInstance row byInstance' :
  loweredIndex registryIndex ->
  Forall (fun kv => toLowerCase (g_fi_lookup_key (snd kv)) = g_fi_lookup_key (snd kv))
    byInstance ->
  gaRowStep rt registryIndex byInstance row = Some byInstance' ->
  Forall (fun kv => toLowerCase (g_fi_lookup_key (snd kv)) = g_fi_lookup_key (snd kv))
    byInstance'.
Proof.
  intros Hidx Hall. destruct row as [|originalRow]; simpl; [now intros [= <-]|].
  destruct (gaHost originalRow) as [| | | |host]; try discriminate.
  destruct (truthy (gaFiKey _ _ _ _)) eqn:Et; simpl; [|now intros [= <-]].
  intros [= <-]. apply Forall_oset; [exact Hall|]. simpl.
  rewrite gaAddCount_key, gaMarkTest_key.
  destruct (oget _ byInstance) as [b|] eqn:E.
  - apply (Forall_oget _ _ _ _ Hall E).
  - simpl. unfold gaFiKey in *.
    destruct (resolveFiKey_shape _ _ _ _ Et) as [s [Hs _]]. rewrite Hs. simpl.
    now apply (resolveFiKey_lower _ _ _ _ Hidx Hs).
Qed.

Lemma gaScanRows_lower registryIndex rows byInstance byInstance' :
  loweredIndex registryIndex ->
  Forall (fun kv => toLowerCase (g_fi_lookup_key (snd kv)) = g_fi_lookup_key (snd kv))
    byInstance ->
  gaScanRows rt registryIndex rows byInstance = Some byInstance' ->
  Forall (fun kv => toLowerCase (g_fi_lookup_key (snd kv)) = g_fi_lookup_key (snd kv))
    byInstance'.
Proof.
  intros Hidx. revert byInstance.
  induction rows as [|row rest IH]; intros byInstance H; simpl.
  - now intros [= <-].
  - destruct (gaRowStep rt registryIndex byInstance row) as [b1|] eqn:E; [|discriminate].
    apply IH. eapply gaRowStep_lower; eauto.
Qed.

Lemma aggregateGa_lower day raw registryIndex agg :
  loweredIndex registryIndex ->
  aggregateGaFromRaw rt day raw registryIndex = Some agg ->
  Forall (fun b => toLowerCase (g_fi_lookup_key b) = g_fi_lookup_key b)
    (ovalues (byInstance agg)).
Proof.
  intros Hidx. unfold aggregateGaFromRaw.
  destruct raw as [raw|]; [|intros [= <-]; constructor].
  destruct (truthy (pl_error raw)); [intros [= <-]; constructor|].
  destruct (gaScanRows _ _ _ _) as [byInstance0|] eqn:E; [|discriminate].
  intros [= <-]. simpl. apply Forall_pairs_values.
  eapply gaScanRows_lower; [exact Hidx| |exact E]. constructor.
Qed.

Lemma entry_key_lower norm key :
  toLowerCase norm = norm -> toLowerCase (orElse norm (toLowerCase key)) = orElse norm (toLowerCase key).
Proof.
  intros H. unfold orElse. destruct (isEmpty norm); [apply toLowerCase_idem|exact H].
Qed.

(** Every FI key of a daily document is lower-case and not empty, when
    the registry index is the one [buildRegistryIndex] builds. *)
Theorem fi_keys_lower_case
    (fiRegistry : list item) (day : string) (gaRaw sessionsRaw placementsRaw : option Payload)
    (ga : Aggregate GaBucket GaFiBucket)
    (placements : Aggregate PlacementBucket PlacementTotals) (k : string) :
  let registryIndex := buildRegistryIndex rt fiRegistry in
  aggregateGaFromRaw rt day gaRaw registryIndex = Some ga ->
  aggregatePlacementsFromRaw rt placementsRaw registryIndex = Some placements ->
  let sessions := aggregateSessionsFromRaw rt sessionsRaw registryIndex in
  In k (okeys (fi (buildDailyDocument rt day ga sessions placements))) ->
  toLowerCase k = k /\ isEmpty k = false.
Proof.
  intros registryIndex Hga Hpl sessions Hk.
  unfold buildDailyDocument, okeys in Hk. simpl in Hk.
  rewrite List.map_map in Hk. simpl in Hk. rewrite List.map_id in Hk.
  apply In_uniq in Hk as [Hk _].
  destruct (aggregateGa_shape rt _ _ _ _ Hga) as [Gfold [_ Gne]].
  destruct (aggregateSessions_shape rt sessionsRaw registryIndex) as [Sfold _].
  destruct (aggregatePlacements_shape rt _ _ _ Hpl) as [Pfold _].
  fold sessions in Sfold.
  apply List.in_app_or in Hk as [Hk|Hk]; [|apply List.in_app_or in Hk as [Hk|Hk]].
  - rewrite Gfold in Hk. apply groupFold_keys in Hk as [[]|(_ & e & He & <-)].
    split.
    + pose proof (aggregateGa_lower day gaRaw registryIndex ga
                    (registry_lowered rt fiRegistry) Hga) as Hlow.
      rewrite List.Forall_forall in Hlow. now apply Hlow.
    + apply (Forall_pairs_values (fun b => isEmpty (g_fi_lookup_key b) = false)) in Gne.
      rewrite List.Forall_forall in Gne.
      now apply Gne.
  - rewrite Sfold in Hk. apply groupFold_keys in Hk as [[]|(Hskip & e & He & <-)].
    split; [|unfold skippedFiKey in Hskip; now apply orb_false_elim in Hskip].
    destruct (In_values_oget _ _ (proj2 (aggregateSessions_shape rt sessionsRaw registryIndex))
                He) as [ik Hik].
    pose proof (Forall_oget _ _ _ _ (sessions_formed rt sessionsRaw registryIndex) Hik)
      as (_ & Hn & _).
    simpl in Hn. apply entry_key_lower. rewrite Hn. apply normalizeFiKey_lower.
  - rewrite Pfold in Hk. apply groupFold_keys in Hk as [[]|(Hskip & e & He & <-)].
    split; [|unfold skippedFiKey in Hskip; now apply orb_false_elim in Hskip].
    destruct (In_values_oget _ _ (proj1 (proj2 (aggregatePlacements_shape rt _ _ _ Hpl))) He)
      as [ik Hik].
    pose proof (Forall_oget _ _ _ _ (placements_formed rt _ _ _ Hpl) Hik) as (_ & Hn & _).
    simpl in Hn. apply entry_key_lower. rewrite Hn. apply normalizeFiKey_lower.
Qed.

End LowerCaseKeys.

Lemma fi_keys_lower_case_witness :
  (aggregateGaFromRaw plainRuntime "2025-01-01" (Some (payloadOf scenarioRows))
     (buildRegistryIndex plainRuntime []) = Some (gaOf scenarioRows)
   /\ aggregatePlacementsFromRaw plainRuntime (Some (payloadOf samplePlacements))
        (buildRegistryIndex plainRuntime []) = Some samplePlacementsAggregate
   /\ In "acme"
        (okeys (fi (buildDailyDocument plainRuntime "2025-01-01" (gaOf scenarioRows)
                      (aggregateSessionsFromRaw plainRuntime (Some (payloadOf sampleSessions))
                         (buildRegistryIndex plainRuntime []))
                      samplePlacementsAggregate))))
  /\ toLowerCase "acme" = "acme".
Proof.
  assert (Hin : In "acme"
                  (okeys (fi (buildDailyDocument plainRuntime "2025-01-01"
                                (gaOf scenarioRows)
                                (aggregateSessionsFromRaw plainRuntime
                                   (Some (payloadOf sampleSessions))
                                   (buildRegistryIndex plainRuntime []))
                                samplePlacementsAggregate)))).
  { vm_compute. left. reflexivity. }
  split; [split; [vm_compute; reflexivity|split; [vm_compute; reflexivity|exact Hin]]|].
  refine (proj1 (fi_keys_lower_case plainRuntime [] "2025-01-01"
                   (Some (payloadOf scenarioRows)) (Some (payloadOf sampleSessions))
                   (Some (payloadOf samplePlacements)) (gaOf scenarioRows)
                   samplePlacementsAggregate "acme" _ _ Hin));
    vm_compute; reflexivity.
Defined.

(** ** Counters of the buckets *)

Lemma foldl_invariant {A B} (f : A -> B -> A) (P : A -> Prop) (Q : B -> Prop)
    (l : list B) (a : A) :
  (forall a x, P a -> Q x -> P (f a x)) -> P a -> Forall Q l -> P (foldl f a l).
Proof.
  intros Hstep. revert a. induction l as [|x r IH]; intros a Ha Hl; simpl; [exact Ha|].
  inversion Hl; subst. apply IH; auto.
Qed.

Lemma totalOver_oset {A} (f : A -> Z) k v (o : obj A) :
  totalOver f (oset k v o) = totalOver f o - from_option f 0 (oget k o) + f v.
Proof.
  induction o as [|[k' v'] r IH]; simpl; [lia|].
  destruct (String.eqb k k'); simpl; [lia|]. rewrite IH. lia.
Qed.

Lemma totalOver_values {A} (f : A -> Z) (o : obj A) :
  totalOver f o = foldr (fun e acc => f e + acc) 0 (ovalues o).
Proof. induction o as [|[k v] r IH]; simpl; [reflexivity|]. now rewrite <- IH. Qed.

Lemma objectCount_cons row rest :
  objectCount (row :: rest) = (if isObject row then 1 else 0) + objectCount rest.
Proof.
  unfold objectCount. destruct row; cbn [List.filter isObject List.length]; lia.
Qed.

Section CountedOnce.

Context {B : Type} (keyOf : record -> string) (fresh : record -> B) (upd : B -> record -> B).
Context (m : B -> Z).
Hypothesis m_fresh : forall r, m (upd (fresh r) r) = 1.
Hypothesis m_upd : forall b r, m (upd b r) = m b + 1.

Lemma upsertFold_total rows byInstance :
  totalOver m (foldl (upsertStep keyOf fresh upd) byInstance rows)
  = totalOver m byInstance + objectCount rows.
Proof.
  revert byInstance. induction rows as [|row rest IH]; intros byInstance.
  - unfold objectCount. simpl. lia.
  - rewrite objectCount_cons. cbn [foldl]. rewrite IH.
    destruct row as [|r]; cbn [upsertStep isObject]; [lia|].
    rewrite totalOver_oset.
    destruct (oget (keyOf r) byInstance) as [b|]; cbn [from_option id];
      rewrite ?m_fresh, ?m_upd; lia.
Qed.

Lemma upsertFold_keys rows byInstance k :
  In k (okeys (foldl (upsertStep keyOf fresh upd) byInstance rows)) ->
  In k (okeys byInstance) \/ exists r, In (Object r) rows /\ keyOf r = k.
Proof.
  revert byInstance. induction rows as [|row rest IH]; intros byInstance H; simpl in *.
  - now left.
  - apply IH in H as [H|(r & Hr & Hk)]; [|right; exists r; auto].
    destruct row as [|r]; simpl in H; [now left|].
    apply okeys_oset_In in H as [->|H]; [right; exists r; auto|now left].
Qed.

End CountedOnce.

Lemma recordsWhere_cons p row rest :
  recordsWhere p (row :: rest)
  = (match row with Object r => if p r then 1 else 0 | NotObject => 0 end)
    + recordsWhere p rest.
Proof.
  unfold recordsWhere. destruct row as [|r]; cbn [List.filter List.length]; [lia|].
  destruct (p r); cbn [List.length]; lia.
Qed.

Lemma recordsWhere_ext p q rows :
  (forall r, p r = q r) -> recordsWhere p rows = recordsWhere q rows.
Proof.
  intros H. unfold recordsWhere. f_equal. f_equal.
  apply List.filter_ext. intros [|r]; [reflexivity|apply H].
Qed.

Section CountedWhere.

Context {B : Type} (keyOf : record -> string) (fresh : record -> B) (upd : B -> record -> B).
Context (m : B -> Z) (q : record -> bool).
Hypothesis m_fresh : forall r, m (fresh r) = 0.
Hypothesis m_upd : forall b r, m (upd b r) = m b + (if q r then 1 else 0).

Lemma upsertFold_measure rows byInstance k :
  from_option m 0 (oget k (foldl (upsertStep keyOf fresh upd) byInstance rows))
  = from_option m 0 (oget k byInstance)
    + recordsWhere (fun r => String.eqb (keyOf r) k && q r) rows.
Proof.
  revert byInstance. induction rows as [|row rest IH]; intros byInstance.
  - unfold recordsWhere. simpl. lia.
  - rewrite recordsWhere_cons. cbn [foldl]. rewrite IH.
    destruct row as [|r]; cbn [upsertStep]; [lia|].
    destruct (String.eqb_spec (keyOf r) k) as [->|Hne].
    + rewrite oget_oset_eq. cbn [from_option andb]. rewrite m_upd.
      destruct (oget k byInstance); cbn [from_option id]; rewrite ?m_fresh; lia.
    + rewrite oget_oset_ne by congruence. cbn [andb]. lia.
Qed.

End CountedWhere.

Section GroupedTotal.

Context {E F : Type}.
Context (keyOf : E -> string) (skip : string -> bool) (dflt : F) (combine : F -> E -> F).
Context (proj : F -> Z) (f : E -> Z).
Hypothesis proj_dflt : proj dflt = 0.
Hypothesis proj_combine : forall b e, proj (combine b e) = proj b + f e.

Lemma groupFold_grand_total entries byFi :
  totalOver proj (foldl (groupStep keyOf skip dflt combine) byFi entries)
  = totalOver proj byFi
    + foldr (fun e acc => (if skip (keyOf e) then 0 else f e) + acc) 0 entries.
Proof.
  revert byFi. induction entries as [|e rest IH]; intros byFi; simpl; [lia|].
  rewrite IH. unfold groupStep.
  destruct (skip (keyOf e)); [lia|].
  rewrite totalOver_oset, proj_combine.
  destruct (oget (keyOf e) byFi); simpl; rewrite ?proj_dflt; lia.
Qed.

Lemma groupFold_all_counted entries :
  Forall (fun e => skip (keyOf e) = false) entries ->
  totalOver proj (foldl (groupStep keyOf skip dflt combine) [] entries)
  = foldr (fun e acc => f e + acc) 0 entries.
Proof.
  intros H. rewrite groupFold_grand_total. simpl.
  induction H as [|e r He _ IH]; simpl; [reflexivity|]. rewrite He. lia.
Qed.

End GroupedTotal.

Lemma inherited_not_blank rt s :
  normalizeFiKey rt (VStr s) = "" -> inheritedName (toLowerCase s) = false.
Proof.
  unfold normalizeFiKey. simpl truthy. simpl toString.
  destruct (isEmpty s) eqn:E; simpl.
  - intros _. now destruct s.
  - rewrite <- trim_lower. intros H.
    unfold inheritedName.
    destruct (String.eqb_spec (toLowerCase s) "constructor") as [E1|_];
      [rewrite E1 in H; vm_compute in H; discriminate|].
    destruct (String.eqb_spec (toLowerCase s) "__proto__") as [E2|_];
      [rewrite E2 in H; vm_compute in H; discriminate|].
    reflexivity.
Qed.

Lemma entry_key_kept rt norm key :
  norm = normalizeFiKey rt (VStr key) -> isEmpty key = false ->
  inheritedName norm = false ->
  skippedFiKey (orElse norm (toLowerCase key)) = false.
Proof.
  intros Hn Hk Hi. unfold skippedFiKey, orElse.
  destruct (isEmpty norm) eqn:E.
  - assert (norm = "") by now destruct norm. subst norm.
    rewrite (inherited_not_blank rt key) by congruence.
    unfold toLowerCase. now rewrite isEmpty_mapString, Hk.
  - now rewrite E, Hi.
Qed.

Section Counters.

Context (rt : JsRuntime).

Lemma session_counts_kept registryIndex rows :
  Forall (fun kv : string * SessionBucket =>
            1 <= s_total_sessions (snd kv)
            /\ sessionsOrdered (s_total_sessions (snd kv)) (s_sessions_with_jobs (snd kv))
                 (s_sessions_with_success (snd kv)))
    (foldl (upsertStep (fun r => sessionKey rt r registryIndex)
              (sessionFresh rt registryIndex) (sessionRecord rt registryIndex)) [] rows).
Proof.
  apply (upsertFold_inv _ _ _
           (fun (_ : string) b =>
              1 <= s_total_sessions b
              /\ sessionsOrdered (s_total_sessions b) (s_sessions_with_jobs b)
                   (s_sessions_with_success b))).
  - intros r. unfold sessionsOrdered, sessionRecord, sessionCount. simpl.
    destruct (numPositive _), (numPositive _); lia.
  - intros b r. unfold sessionsOrdered, sessionRecord, sessionCount. simpl.
    destruct (numPositive _), (numPositive _); lia.
  - constructor.
Qed.

Lemma sessions_counts raw registryIndex :
  Forall (fun b => 1 <= s_total_sessions b
                   /\ sessionsOrdered (s_total_sessions b) (s_sessions_with_jobs b)
                        (s_sessions_with_success b))
    (ovalues (byInstance (aggregateSessionsFromRaw rt raw registryIndex))).
Proof.
  rewrite sessions_byInstance. destruct raw as [payload|]; [|constructor].
  destruct (truthy (pl_error payload)); [constructor|].
  apply (Forall_pairs_values
           (fun b => 1 <= s_total_sessions b
                     /\ sessionsOrdered (s_total_sessions b) (s_sessions_with_jobs b)
                          (s_sessions_with_success b))).
  apply session_counts_kept.
Qed.

Lemma session_fi_counts (entries : list SessionBucket) (z : SessionFiBucket) :
  Forall (fun b => 1 <= s_total_sessions b
                   /\ sessionsOrdered (s_total_sessions b) (s_sessions_with_jobs b)
                        (s_sessions_with_success b)) entries ->
  sessionsOrdered (sf_total_sessions z) (sf_sessions_with_jobs z)
    (sf_sessions_with_success z) ->
  let b := foldl sessionFiAdd z entries in
  sessionsOrdered (sf_total_sessions b) (sf_sessions_with_jobs b)
    (sf_sessions_with_success b)
  /\ sf_total_sessions z + Z.of_nat (List.length entries) <= sf_total_sessions b.
Proof.
  intros H. revert z.
  induction H as [|e r He _ IH]; intros z Hz; cbn [foldl List.length].
  - split; [exact Hz|lia].
  - rewrite Nat2Z.inj_succ. destruct (IH (sessionFiAdd z e)) as [H1 H2].
    + unfold sessionsOrdered, sessionFiAdd in *. cbn. lia.
    + split; [exact H1|]. unfold sessionFiAdd in H2 at 1.
      cbn [sf_total_sessions] in H2. lia.
Qed.

Lemma withoutJobs_exact t w : 0 <= w <= t -> t = w + withoutJobs t w /\ 0 <= withoutJobs t w.
Proof. unfold withoutJobs. lia. Qed.


End Counters.

(** ** Every record is counted once *)

Section Conservation.

Context (rt : JsRuntime).

Lemma session_bucket_of_record registryIndex rows ik b :
  oget ik (foldl (upsertStep (fun r => sessionKey rt r registryIndex)
                    (sessionFresh rt registryIndex) (sessionRecord rt registryIndex))
             [] rows) = Some b ->
  sessionBucketFormed rt ik b ->
  exists r, In (Object r) rows
            /\ s_fi_lookup_norm b
               = normalizeFiKey rt (VStr (sessionFiLookup rt r registryIndex)).
Proof.
  intros Hb (H1 & _ & _ & H4 & _).
  apply oget_In_keys, upsertFold_keys in Hb as [[]|(r & Hr & Hk)].
  exists r. split; [exact Hr|].
  rewrite sessionKey_parts, H1 in Hk.
  apply key_parts in Hk as [Hk _];
    [now symmetry|apply canonicalInstance_alnum|rewrite H4; apply canonicalInstance_alnum].
Qed.

Lemma placement_bucket_of_record registryIndex rows ik b :
  oget ik (foldl (upsertStep (fun r => placementKey rt r registryIndex)
                    (placementFresh rt registryIndex) (placementRecord rt registryIndex))
             [] rows) = Some b ->
  placementBucketFormed rt ik b ->
  exists r, In (Object r) rows
            /\ p_fi_lookup_norm b
               = normalizeFiKey rt (VStr (placementFiKey rt r registryIndex)).
Proof.
  intros Hb (H1 & _ & _ & H4 & _).
  apply oget_In_keys, upsertFold_keys in Hb as [[]|(r & Hr & Hk)].
  exists r. split; [exact Hr|].
  rewrite placementKey_parts, H1 in Hk.
  apply key_parts in Hk as [Hk _];
    [now symmetry|apply canonicalInstance_alnum|rewrite H4; apply canonicalInstance_alnum].
Qed.


Lemma placement_counts_kept registryIndex rows :
  Forall (fun kv : string * PlacementBucket =>
            1 <= total_placements (p_totals (snd kv))
            /\ placementsOrdered (p_totals (snd kv))
            /\ by_termination (p_totals (snd kv)) <> [])
    (foldl (upsertStep (fun r => placementKey rt r registryIndex)
              (placementFresh rt registryIndex) (placementRecord rt registryIndex)) [] rows).
Proof.
  apply (upsertFold_inv _ _ _
           (fun (_ : string) b =>
              1 <= total_placements (p_totals b)
              /\ placementsOrdered (p_totals b)
              /\ by_termination (p_totals b) <> [])).
  - intros r. unfold placementsOrdered, placementRecord, placementCount. simpl.
    repeat split; try lia; try (destruct (isSuccessfulPlacement _ _); lia);
      unfold bump; simpl; discriminate.
  - intros b r (H1 & H2 & H3).
    unfold placementsOrdered, placementRecord, placementCount in *. simpl.
    repeat split; try lia; try (destruct (isSuccessfulPlacement _ _); lia);
      unfold bump; destruct (by_termination (p_totals b)) as [|[k v] o]; simpl;
      [discriminate|destruct (String.eqb _ k); discriminate].
  - constructor.
Qed.

Lemma placementFold_fails entries byFi :
  placementFold entries byFi = None
  <-> exists e, In e entries /\ inheritedName (placementEntryFiKey e) = true
                /\ by_termination (p_totals e) <> [].
Proof.
  revert byFi. induction entries as [|e rest IH]; intros byFi; simpl.
  - split; [discriminate|intros (e & [] & _)].
  - unfold placementFiStep.
    destruct (isEmpty (placementEntryFiKey e)) eqn:Ee.
    + rewrite IH. split.
      * intros (x & Hx & H). exists x. auto.
      * intros (x & [->|Hx] & Hi & Ht); [|exists x; auto].
        destruct (placementEntryFiKey x); [discriminate Hi|discriminate Ee].
    + destruct (inheritedName (placementEntryFiKey e)) eqn:Ei.
      * destruct (by_termination (p_totals e)) eqn:Et.
        -- rewrite IH. split.
           ++ intros (x & Hx & H). exists x. auto.
           ++ intros (x & [->|Hx] & Hi & Ht); [congruence|exists x; auto].
        -- split; [|reflexivity]. intros _. exists e. rewrite Et.
           repeat split; auto; discriminate.
      * rewrite IH. split.
        -- intros (x & Hx & H). exists x. auto.
        -- intros (x & [->|Hx] & Hi & Ht); [congruence|exists x; auto].
Qed.

(** The placement counters are consistent and every placement record is
    counted once. An instance bucket counts the records of its key: all
    of them as placements, the successful ones as successes, and under
    each termination those that end that way. In every instance bucket and
    FI bucket the successes are among the placements, of which there is at
    least one, and the [total_placements] of the instance buckets, and of
    the FI buckets, add up to the number of records. *)
Theorem every_placement_counted
    (payload : Payload) (registryIndex : RegistryIndex)
    (agg : Aggregate PlacementBucket PlacementTotals) :
  truthy (pl_error payload) = false ->
  aggregatePlacementsFromRaw rt (Some payload) registryIndex = Some agg ->
  let filed k r := String.eqb (placementKey rt r registryIndex) k in
  (forall k b, oget k (byInstance agg) = Some b ->
     total_placements (p_totals b) = recordsWhere (filed k) (payloadItems payload)
     /\ successful_placements (p_totals b)
        = recordsWhere (fun r => filed k r && isSuccessfulPlacement rt r)
            (payloadItems payload)
     /\ forall t, countAt t (by_termination (p_totals b))
                  = recordsWhere
                      (fun r => filed k r && String.eqb t (placementTermination rt r))
                      (payloadItems payload))
  /\ (forall k b, oget k (byInstance agg) = Some b ->
        1 <= total_placements (p_totals b) /\ placementsOrdered (p_totals b))
  /\ (forall k t, oget k (byFi agg) = Some t ->
        1 <= total_placements t /\ placementsOrdered t)
  /\ totalOver (fun b => total_placements (p_totals b)) (byInstance agg)
     = objectCount (payloadItems payload)
  /\ totalOver total_placements (byFi agg) = objectCount (payloadItems payload).
Proof.
  intros Herr Hagg filed.
  pose proof (placements_byInstance rt _ _ _ Hagg) as HbyI.
  cbv beta iota in HbyI. rewrite Herr in HbyI.
  destruct (aggregatePlacements_shape rt _ _ _ Hagg) as (Hfold & Hnd & _).
  pose proof (placement_counts_kept registryIndex (payloadItems payload)) as Hcounts.
  rewrite <- HbyI in Hcounts.
  assert (HI : forall k b, oget k (byInstance agg) = Some b ->
                 1 <= total_placements (p_totals b) /\ placementsOrdered (p_totals b)
                 /\ by_termination (p_totals b) <> []).
  { intros k b Hb. apply (Forall_oget _ _ _ _ Hcounts Hb). }
  assert (Hkept : Forall (fun e => skippedFiKey (placementEntryFiKey e) = false)
                    (ovalues (byInstance agg))).
  { apply List.Forall_forall. intros e He.
    destruct (In_values_oget _ _ Hnd He) as [ik Hik].
    pose proof (Forall_oget _ _ _ _ (placements_formed rt _ _ _ Hagg) Hik) as Hformed.
    simpl in Hformed. destruct Hformed as (_ & H2 & H3 & _).
    unfold skippedFiKey.
    assert (Hne : isEmpty (placementEntryFiKey e) = false).
    { unfold placementEntryFiKey, orElse.
      destruct (isEmpty (p_fi_lookup_norm e)) eqn:E; [|exact E].
      unfold toLowerCase. now rewrite isEmpty_mapString. }
    rewrite Hne. simpl.
    destruct (inheritedName (placementEntryFiKey e)) eqn:Ei; [|reflexivity].
    exfalso.
    assert (Hnone : placementFold (ovalues (byInstance agg)) [] = None).
    { apply placementFold_fails. exists e. repeat split; auto.
      now destruct (HI ik e Hik) as (_ & _ & Ht). }
    revert Hagg. unfold aggregatePlacementsFromRaw. rewrite Herr.
    rewrite HbyI in Hnone.
    rewrite (foldl_pointwise _ _ _ _ (fun a x => placementStep_upsert rt registryIndex a x)).
    now rewrite Hnone. }
  split; [|split; [|split; [|split]]].
  - intros k b Hb. rewrite HbyI in Hb.
    pose proof (fun m q Hf Hu =>
                  upsertFold_measure (fun r => placementKey rt r registryIndex)
                    (placementFresh rt registryIndex) (placementRecord rt registryIndex)
                    m q Hf Hu (payloadItems payload) [] k) as Hm.
    rewrite Hb in Hm. cbn [oget from_option] in Hm.
    split; [|split].
    + rewrite (Hm (fun b => total_placements (p_totals b)) (fun _ => true));
        [|reflexivity|reflexivity].
      rewrite Z.add_0_l. apply recordsWhere_ext. intros r. apply andb_true_r.
    + rewrite (Hm (fun b => successful_placements (p_totals b))
                 (fun r => isSuccessfulPlacement rt r)); [rewrite Z.add_0_l; reflexivity|reflexivity|].
      intros b' r. unfold placementRecord, placementCount. simpl.
      destruct (isSuccessfulPlacement rt r); lia.
    + intros t.
      rewrite (Hm (fun b => countAt t (by_termination (p_totals b)))
                 (fun r => String.eqb t (placementTermination rt r))); [rewrite Z.add_0_l; reflexivity|reflexivity|].
      intros b' r. unfold placementRecord, placementCount. simpl.
      apply countAt_bump.
  - intros k b Hb. destruct (HI k b Hb) as (H1 & H2 & _). auto.
  - intros k t Ht. rewrite Hfold in Ht.
    pose proof (oget_In_keys _ _ _ Ht) as Hk.
    apply groupFold_keys in Hk as [[]|(_ & e & He & Hke)].
    apply groupFold_present in Ht as [_ ->].
    set (mine := List.filter (fun e => String.eqb (placementEntryFiKey e) k)
                   (ovalues (byInstance agg))).
    assert (Hmine : In e mine).
    { apply List.filter_In. split; [exact He|now apply String.eqb_eq]. }
    assert (Hall : Forall (fun b => 1 <= total_placements (p_totals b)
                                    /\ placementsOrdered (p_totals b)) mine).
    { apply List.Forall_forall. intros x Hx. apply List.filter_In in Hx as [Hx _].
      destruct (In_values_oget _ _ Hnd Hx) as [ik Hik].
      destruct (HI ik x Hik) as (H1 & H2 & _). auto. }
    assert (Hgen : forall l z,
               Forall (fun b => 1 <= total_placements (p_totals b)
                                /\ placementsOrdered (p_totals b)) l ->
               placementsOrdered z ->
               placementsOrdered (foldl placementFiAdd z l)
               /\ total_placements z + Z.of_nat (List.length l)
                  <= total_placements (foldl placementFiAdd z l)).
    { clear. intros l. induction l as [|x r IH]; intros z Hl Hz; cbn [foldl List.length].
      - split; [exact Hz|lia].
      - inversion Hl as [|? ? [Hx1 Hx2] Hr]; subst. rewrite Nat2Z.inj_succ.
        destruct (IH (placementFiAdd z x) Hr) as [H1 H2].
        + unfold placementsOrdered, placementFiAdd in *. cbn. lia.
        + split; [exact H1|]. unfold placementFiAdd in H2 at 1.
          cbn [total_placements] in H2. lia. }
    destruct (Hgen mine emptyPlacementTotals Hall) as [H1 H2].
    + unfold placementsOrdered. simpl. lia.
    + split; [|exact H1]. cbn [emptyPlacementTotals total_placements] in H2.
      destruct mine; [destruct Hmine|]. cbn [List.length] in H2.
      rewrite Nat2Z.inj_succ in H2. lia.
  - rewrite HbyI, upsertFold_total; [reflexivity| |].
    + intros r. reflexivity.
    + intros b r. reflexivity.
  - rewrite Hfold.
    rewrite (groupFold_all_counted placementEntryFiKey skippedFiKey emptyPlacementTotals
               placementFiAdd total_placements (fun b => total_placements (p_totals b))).
    + rewrite <- totalOver_values. rewrite HbyI, upsertFold_total; [reflexivity| |].
      * intros r. reflexivity.
      * intros b r. reflexivity.
    + reflexivity.
    + intros b e. reflexivity.
    + exact Hkept.
Qed.

End Conservation.

(** ** When an aggregator raises *)

Section Failures.

Context (rt : JsRuntime).

Lemma gaRowStep_fails registryIndex byInstance row :
  gaRowStep rt registryIndex byInstance row = None
  <-> exists r, row = Object r /\ gaHostIsString r = false.
Proof.
  destruct row as [|r]; simpl.
  - split; [discriminate|intros (r & H & _); discriminate].
  - unfold gaHostIsString.
    destruct (gaHost r) as [| |b|n|host] eqn:E;
      try (split; [intros _; exists r; rewrite E; auto|reflexivity]).
    destruct (negb _); (split; [discriminate|intros (r' & [= <-] & H)]);
      rewrite E in H; discriminate.
Qed.

Lemma gaScanRows_fails registryIndex rows byInstance :
  gaScanRows rt registryIndex rows byInstance = None
  <-> exists r, In (Object r) rows /\ gaHostIsString r = false.
Proof.
  revert byInstance. induction rows as [|row rest IH]; intros byInstance; simpl.
  - split; [discriminate|intros (r & [] & _)].
  - destruct (gaRowStep rt registryIndex byInstance row) as [b1|] eqn:E.
    + rewrite IH. split.
      * intros (r & Hr & H). exists r. auto.
      * intros (r & [->|Hr] & H); [|exists r; auto].
        assert (Hnone : gaRowStep rt registryIndex byInstance (Object r) = None)
          by (apply gaRowStep_fails; exists r; auto).
        congruence.
    + split; [|reflexivity]. intros _.
      apply gaRowStep_fails in E as (r & -> & H). exists r. auto.
Qed.

(** A row with a truthy host that is not a string makes the GA aggregator
    raise, when the payload is present and not flagged with an error. On
    rows whose fields hold scalars ([null], a boolean, a number or a
    string, which is all a [value] can be) it raises on no other row. *)
Theorem ga_raises_on_host_that_is_no_string
    (day : string) (raw : option Payload) (registryIndex : RegistryIndex) :
  aggregateGaFromRaw rt day raw registryIndex = None
  <-> exists payload originalRow,
        raw = Some payload /\ truthy (pl_error payload) = false
        /\ In (Object originalRow) (payloadItems payload)
        /\ gaHostIsString originalRow = false.
Proof.
  unfold aggregateGaFromRaw. destruct raw as [payload|].
  - destruct (truthy (pl_error payload)) eqn:Eerr.
    + split; [discriminate|]. intros (p & r & [= <-] & H & _). congruence.
    + destruct (gaScanRows rt registryIndex (payloadItems payload) []) as [b|] eqn:E.
      * split; [discriminate|]. intros (p & r & [= <-] & _ & Hr & Hh).
        assert (Hnone : gaScanRows rt registryIndex (payloadItems payload) [] = None)
          by (apply gaScanRows_fails; exists r; auto).
        congruence.
      * split; [|reflexivity]. intros _.
        apply gaScanRows_fails in E as (r & Hr & Hh). exists payload, r. auto.
  - split; [discriminate|]. intros (p & r & H & _). discriminate.
Qed.

(** A record whose FI key normalises to a name that every object
    inherits ([constructor], [__proto__]) makes the Placements aggregator
    raise, when the payload is present and not flagged with an error. On
    records whose fields hold scalars, and in a process whose
    [Object.prototype] has not been written to, it raises on no other
    record. *)
Theorem placements_raise_on_inherited_name
    (raw : option Payload) (registryIndex : RegistryIndex) :
  aggregatePlacementsFromRaw rt raw registryIndex = None
  <-> exists payload placement,
        raw = Some payload /\ truthy (pl_error payload) = false
        /\ In (Object placement) (payloadItems payload)
        /\ inheritedName
             (normalizeFiKey rt (VStr (placementFiKey rt placement registryIndex))) = true.
Proof.
  unfold aggregatePlacementsFromRaw. destruct raw as [payload|].
  - destruct (truthy (pl_error payload)) eqn:Eerr.
    + split; [discriminate|]. intros (p & r & [= <-] & H & _). congruence.
    + cbv zeta.
      rewrite (foldl_pointwise _ _ _ _ (fun a x => placementStep_upsert rt registryIndex a x)).
      set (byI := foldl (upsertStep (fun r => placementKey rt r registryIndex)
                           (placementFresh rt registryIndex)
                           (placementRecord rt registryIndex))
                    [] (payloadItems payload)).
      assert (Hformed : Forall (fun kv => placementBucketFormed rt (fst kv) (snd kv)) byI).
      { apply upsertFold_inv;
          [apply placement_fresh_formed|apply placement_record_formed|constructor]. }
      pose proof (placement_counts_kept rt registryIndex (payloadItems payload)) as Hcounts.
      fold byI in Hcounts.
      assert (Hnd : List.NoDup (okeys byI)).
      { unfold byI.
        rewrite <- (foldl_pointwise _ _ _ _
                      (fun a x => placementStep_upsert rt registryIndex a x)).
        apply placementRows_NoDup. constructor. }
      assert (Hkey : forall ik b, oget ik byI = Some b ->
                inheritedName (placementEntryFiKey b) = inheritedName (p_fi_lookup_norm b)).
      { intros ik b Hb.
        destruct (Forall_oget _ _ _ _ Hformed Hb) as (_ & H2 & H3 & _). simpl in H2, H3.
        unfold placementEntryFiKey, orElse.
        destruct (isEmpty (p_fi_lookup_norm b)) eqn:E; [|reflexivity].
        assert (Hb0 : p_fi_lookup_norm b = "") by now destruct (p_fi_lookup_norm b).
        rewrite Hb0 in *. rewrite (inherited_not_blank rt (p_fi_lookup_key b)) by congruence.
        reflexivity. }
      destruct (placementFold (ovalues byI) []) as [byFi0|] eqn:E.
      * split; [discriminate|]. intros (p & r & [= <-] & _ & Hr & Hin). exfalso.
        destruct (upsertFold_filed (fun r => placementKey rt r registryIndex)
                    (placementFresh rt registryIndex) (placementRecord rt registryIndex)
                    (fun _ _ => True) (fun _ => I) (fun _ _ _ => I) r (fun _ => True)
                    I (fun _ _ => I) (fun _ _ _ _ _ => I) (payloadItems payload) [])
          as [b [Hb _]]; [constructor|exact Hr|].
        fold byI in Hb.
        pose proof (Forall_oget _ _ _ _ Hformed Hb) as (H1 & _ & _ & H4 & _).
        simpl in H1, H4. rewrite placementKey_parts in H1.
        apply key_parts in H1 as [Hn _];
          [|apply canonicalInstance_alnum|rewrite H4; apply canonicalInstance_alnum].
        assert (Hnone : placementFold (ovalues byI) [] = None).
        { apply placementFold_fails. exists b. split; [now apply (oget_In_values _ _ _ Hb)|].
          split; [now rewrite (Hkey _ _ Hb), <- Hn|].
          now destruct (Forall_oget _ _ _ _ Hcounts Hb) as (_ & _ & Ht). }
        congruence.
      * split; [|reflexivity]. intros _.
        apply placementFold_fails in E as (b & Hb & Hi & _).
        destruct (In_values_oget _ _ Hnd Hb) as [ik Hik].
        destruct (placement_bucket_of_record rt registryIndex _ _ _ Hik
                    (Forall_oget _ _ _ _ Hformed Hik)) as (r & Hr & Hn).
        exists payload, r. repeat split; auto.
        now rewrite <- Hn, <- (Hkey _ _ Hik).
  - split; [discriminate|]. intros (p & r & H & _). discriminate.
Qed.

End Failures.

(** ** Host names *)

Lemma append_assoc (a b c : string) : (a +:+ b) +:+ c = a +:+ (b +:+ c).
Proof. induction a as [|x a IH]; push_append; [reflexivity|now rewrite IH]. Qed.

Lemma substring_skip (a b : string) (k : nat) :
  String.substring (String.length a) k (a +:+ b) = String.substring 0 k b.
Proof. induction a as [|x a IH]; push_append; [reflexivity|exact IH]. Qed.

Lemma substring_whole (s : string) : String.substring 0 (String.length s) s = s.
Proof. induction s as [|x s IH]; simpl; [reflexivity|now rewrite IH]. Qed.

Lemma substring_prefix (a b : string) :
  String.substring 0 (String.length a) (a +:+ b) = a.
Proof.
  induction a as [|x a IH]; push_append; simpl; [now destruct b|now rewrite IH].
Qed.

Lemma substring_empty (s : string) (n : nat) :
  (n <= String.length s)%nat -> String.substring 0 n s = "" -> n = 0%nat.
Proof.
  destruct n as [|n]; [reflexivity|]. destruct s as [|x s]; simpl; [lia|discriminate].
Qed.

Lemma endsWith_app (a p : string) : endsWith (a +:+ p) p = true.
Proof.
  unfold endsWith. rewrite length_append.
  replace (String.length a + String.length p - String.length p)%nat
    with (String.length a) by lia.
  rewrite substring_skip, substring_whole, String.eqb_refl.
  rewrite andb_true_r. apply Nat.leb_le. lia.
Qed.

Lemma dropEnd_app (a p : string) : dropEnd (String.length p) (a +:+ p) = a.
Proof.
  unfold dropEnd. rewrite length_append.
  replace (String.length a + String.length p - String.length p)%nat
    with (String.length a) by lia.
  apply substring_prefix.
Qed.

Lemma splitOn_label cur s :
  isLabel s = true -> splitOn "." cur s = [cur +:+ s].
Proof.
  unfold isLabel. revert cur. induction s as [|c r IH]; intros cur H; simpl.
  - now rewrite append_nil_r.
  - simpl in H. apply andb_prop in H as [Hc Hr].
    apply negb_true_iff in Hc. rewrite Hc, (IH _ Hr), append_snoc. reflexivity.
Qed.

Lemma splitOn_dot cur a b :
  isLabel a = true -> splitOn "." cur (a +:+ "." +:+ b) = (cur +:+ a) :: splitOn "." "" b.
Proof.
  unfold isLabel. revert cur. induction a as [|c r IH]; intros cur H; push_append; simpl.
  - now rewrite append_nil_r.
  - simpl in H. apply andb_prop in H as [Hc Hr].
    apply negb_true_iff in Hc. rewrite Hc, (IH _ Hr), append_snoc. reflexivity.
Qed.

Lemma splitOn_nonempty sep cur s : splitOn sep cur s <> [].
Proof.
  revert cur. induction s as [|c r IH]; intros cur; simpl; [discriminate|].
  destruct (Ascii.eqb c sep); [discriminate|apply IH].
Qed.

(** What [resolveFiFromHost] reads from a host name. A host of one label
    before the suffix names the FI and the instance alike; with two labels
    or more the first is the FI and the second the instance (the first
    again when the second is empty), any further label is ignored, and
    [default] with instance [advancial-prod] becomes the FI
    [advancial-prod]. The function returns nothing exactly for a host that
    does not end with the suffix or is the suffix alone. *)
Theorem host_labels (fi inst more host : string) :
  (isLabel fi = true -> isEmpty fi = false ->
   resolveFiFromHost (fi +:+ CARDUPDATR_SUFFIX)
   = Some {| hp_fi_key := fi; hp_instance := fi |})
  /\ (isLabel fi = true -> isLabel inst = true ->
      let instance := if isEmpty inst then fi else inst in
      let fi_key :=
        if String.eqb fi "default" && String.eqb instance "advancial-prod"
        then "advancial-prod" else fi in
      resolveFiFromHost (fi +:+ "." +:+ inst +:+ CARDUPDATR_SUFFIX)
      = Some {| hp_fi_key := fi_key; hp_instance := instance |}
      /\ resolveFiFromHost (fi +:+ "." +:+ inst +:+ "." +:+ more +:+ CARDUPDATR_SUFFIX)
         = Some {| hp_fi_key := fi_key; hp_instance := instance |})
  /\ (resolveFiFromHost host = None
      <-> endsWith host CARDUPDATR_SUFFIX = false \/ host = CARDUPDATR_SUFFIX).
Proof.
  split; [|split].
  - intros Hfi Hne. unfold resolveFiFromHost.
    rewrite endsWith_app, dropEnd_app. simpl negb. cbv iota. rewrite Hne.
    unfold splitDot. rewrite (splitOn_label _ _ Hfi). now push_append.
  - intros Hfi Hinst instance fi_key.
    assert (Hgen : forall tail, (exists l, splitOn "." "" tail = inst :: l) ->
               resolveFiFromHost ((fi +:+ "." +:+ tail) +:+ CARDUPDATR_SUFFIX)
               = Some {| hp_fi_key := fi_key; hp_instance := instance |}).
    { intros tail [l Hl]. unfold resolveFiFromHost.
      rewrite endsWith_app, dropEnd_app. simpl negb. cbv iota.
      assert (Hp : isEmpty (fi +:+ "." +:+ tail) = false).
      { destruct fi; push_append; reflexivity. }
      rewrite Hp. unfold splitDot. rewrite (splitOn_dot _ _ _ Hfi), Hl. push_append.
      fold instance. fold fi_key.
      now destruct (String.eqb fi "default" && String.eqb instance "advancial-prod"). }
    split.
    + rewrite <- (Hgen inst); [now rewrite !append_assoc|].
      exists []. rewrite (splitOn_label _ _ Hinst). now push_append.
    + rewrite <- (Hgen (inst +:+ "." +:+ more)); [now rewrite !append_assoc|].
      eexists. rewrite (splitOn_dot _ _ _ Hinst). now push_append.
  - unfold resolveFiFromHost.
    destruct (endsWith host CARDUPDATR_SUFFIX) eqn:E; simpl negb; cbv iota.
    + destruct (isEmpty (dropEnd _ host)) eqn:Ed.
      * split; [intros _|reflexivity]. right.
        unfold endsWith in E. apply andb_prop in E as [Hlen Hsub].
        apply Nat.leb_le in Hlen. apply String.eqb_eq in Hsub.
        unfold dropEnd in Ed.
        assert (H0 : (String.length host - String.length CARDUPDATR_SUFFIX)%nat = 0%nat).
        { apply (substring_empty host); [lia|].
          now destruct (String.substring 0 _ host). }
        rewrite H0 in Hsub.
        assert (Hl : String.length host = String.length CARDUPDATR_SUFFIX) by lia.
        rewrite <- Hl, substring_whole in Hsub. exact Hsub.
      * split.
        -- intros H. exfalso. unfold splitDot in H.
           destruct (splitOn "." "" (dropEnd _ host)) as [|p0 [|p1 l]] eqn:Es;
             [now apply splitOn_nonempty in Es|discriminate|].
           now destruct (_ && _).
        -- intros [H| ->]; [discriminate|]. vm_compute in Ed. discriminate.
    + split; [intros _; now left|reflexivity].
Qed.

Lemma host_labels_witness :
  (isLabel "acme" = true /\ isLabel "instance1" = true)
  /\ resolveFiFromHost "acme.instance1.cardupdatr.app"
     = Some {| hp_fi_key := "acme"; hp_instance := "instance1" |}.
Proof.
  split; [split; reflexivity|].
  exact (proj1 (proj1 (proj2 (host_labels "acme" "instance1" "" "")) eq_refl eq_refl)).
Defined.

(** ** The test allowlist *)

(** A name is on the test allowlist exactly when its letters and digits,
    lower-cased, spell [customerdev]: case, white space and punctuation do
    not matter, and the empty name is not on it. *)
Theorem test_instance_names (s : string) :
  (isTestInstanceName s = true
   <-> filterString isAlnumLower (toLowerCase s) = "customerdev")
  /\ isTestInstanceName "" = false
  /\ (forall name, In name RAW_TEST_INSTANCE_NAMES -> isTestInstanceName name = true).
Proof.
  split; [|split].
  - rewrite test_instance_spec. apply String.eqb_eq.
  - reflexivity.
  - intros name [<-|[]]. reflexivity.
Qed.

(** ** The display chosen for an instance *)

Lemma find_filter {A} (p q : A -> bool) (l : list A) :
  find p (List.filter q l) = find (fun x => q x && p x) l.
Proof.
  induction l as [|x r IH]; simpl; [reflexivity|].
  destruct (q x); simpl; [now destruct (p x)|exact IH].
Qed.

(** [chooseInstanceDisplay] never returns the empty string; it returns
    the first candidate with a hyphen when there is one, otherwise the
    first candidate, and [unknown] when no value is a candidate. *)
Theorem chosen_instance_display (values : list string) :
  let chosen := chooseInstanceDisplay values in
  isEmpty chosen = false
  /\ chosen
     = match find (fun v => isCandidate v && includesHyphen v) values with
       | Some preferred => preferred
       | None => from_option id UNKNOWN_INSTANCE (find isCandidate values)
       end
  /\ ((exists v, In v values /\ isCandidate v = true) ->
      In chosen values /\ isCandidate chosen = true)
  /\ ((exists v, In v values /\ isCandidate v = true /\ includesHyphen v = true) ->
      includesHyphen chosen = true)
  /\ ((forall v, In v values -> isCandidate v = false) -> chosen = UNKNOWN_INSTANCE).
Proof.
  intros chosen.
  assert (Hfirst : forall l, match List.filter isCandidate l with
                             | c :: _ => orElse c UNKNOWN_INSTANCE
                             | [] => UNKNOWN_INSTANCE
                             end
                             = from_option id UNKNOWN_INSTANCE (find isCandidate l)).
  { induction l as [|x r IH]; simpl; [reflexivity|].
    destruct (isCandidate x) eqn:E; simpl; [|exact IH].
    unfold isCandidate in E. apply andb_prop in E as [E _].
    unfold orElse. now destruct (isEmpty x). }
  assert (Heq : chosen
                = match find (fun v => isCandidate v && includesHyphen v) values with
                  | Some preferred => preferred
                  | None => from_option id UNKNOWN_INSTANCE (find isCandidate values)
                  end).
  { unfold chosen, chooseInstanceDisplay.
    change (fun v => negb (isEmpty v) && negb (String.eqb v UNKNOWN_INSTANCE))
      with isCandidate.
    rewrite find_filter, Hfirst. reflexivity. }
  assert (Hcand : (exists v, In v values /\ isCandidate v = true) ->
                  In chosen values /\ isCandidate chosen = true).
  { intros (v & Hv & Hc). rewrite Heq.
    destruct (find (fun v => isCandidate v && includesHyphen v) values) as [p|] eqn:Ep.
    - apply List.find_some in Ep as [Hin Hp]. apply andb_prop in Hp as [Hp _]. auto.
    - destruct (find isCandidate values) as [c|] eqn:Ec; simpl.
      + now apply List.find_some in Ec.
      + pose proof (List.find_none _ _ Ec v Hv). congruence. }
  split; [|split; [exact Heq|split; [exact Hcand|split]]].
  - rewrite Heq.
    destruct (find (fun v => isCandidate v && includesHyphen v) values) as [p|] eqn:Ep.
    + apply List.find_some in Ep as [_ Hp]. apply andb_prop in Hp as [Hp _].
      unfold isCandidate in Hp. apply andb_prop in Hp as [Hp _].
      now apply negb_true_iff in Hp.
    + destruct (find isCandidate values) as [c|] eqn:Ec; simpl; [|reflexivity].
      apply List.find_some in Ec as [_ Hc].
      unfold isCandidate in Hc. apply andb_prop in Hc as [Hc _].
      now apply negb_true_iff in Hc.
  - intros (v & Hv & Hc & Hh). rewrite Heq.
    destruct (find (fun v => isCandidate v && includesHyphen v) values) as [p|] eqn:Ep.
    + apply List.find_some in Ep as [_ Hp]. now apply andb_prop in Hp as [_ Hp].
    + pose proof (List.find_none _ _ Ep v Hv) as Hn. simpl in Hn.
      rewrite Hc, Hh in Hn. discriminate.
  - intros Hnone. rewrite Heq.
    destruct (find (fun v => isCandidate v && includesHyphen v) values) as [p|] eqn:Ep.
    + apply List.find_some in Ep as [Hin Hp]. apply andb_prop in Hp as [Hp _].
      rewrite (Hnone _ Hin) in Hp. discriminate.
    + destruct (find isCandidate values) as [c|] eqn:Ec; simpl; [|reflexivity].
      apply List.find_some in Ec as [Hin Hc]. rewrite (Hnone _ Hin) in Hc. discriminate.
Qed.

(** ** The keys of a document *)

Section DocumentKeys.

Context (rt : JsRuntime).

Lemma okeys_tabulate {B} (f : string -> B) (l : list string) :
  okeys (map (fun key => (key, f key)) l) = l.
Proof. unfold okeys. rewrite List.map_map. simpl. apply List.map_id. Qed.

Lemma nonempty_keys {A} (o : obj A) :
  negb (Nat.eqb (List.length (okeys o)) 0) = true <-> o <> [].
Proof. destruct o; simpl; split; auto; discriminate. Qed.

(** A document carries the day it was built for and lists every FI key
    of any of the three sources exactly once, and likewise every
    instance key; a source is marked present exactly when it has an FI
    bucket. *)
Theorem document_lists_every_key
    (day : string) (ga : Aggregate GaBucket GaFiBucket)
    (sessions : Aggregate SessionBucket SessionFiBucket)
    (placements : Aggregate PlacementBucket PlacementTotals) :
  let doc := buildDailyDocument rt day ga sessions placements in
  date doc = day
  /\ List.NoDup (okeys (fi doc))
  /\ List.NoDup (okeys (fi_instances doc))
  /\ (forall k, In k (okeys (fi doc))
                <-> In k (okeys (byFi ga)) \/ In k (okeys (byFi sessions))
                    \/ In k (okeys (byFi placements)))
  /\ (forall k, In k (okeys (fi_instances doc))
                <-> In k (okeys (byInstance ga)) \/ In k (okeys (byInstance sessions))
                    \/ In k (okeys (byInstance placements)))
  /\ (src_ga (sources doc) = true <-> byFi ga <> [])
  /\ (src_sis_sessions (sources doc) = true <-> byFi sessions <> [])
  /\ (src_sis_placements (sources doc) = true <-> byFi placements <> []).
Proof.
  intros doc. unfold doc, buildDailyDocument. cbn [date fi fi_instances sources src_ga
    src_sis_sessions src_sis_placements].
  rewrite !okeys_tabulate.
  split; [reflexivity|]. split; [apply NoDup_uniq|]. split; [apply NoDup_uniq|].
  split; [|split; [|split; [|split]]]; try apply nonempty_keys.
  - intros k. rewrite In_uniq, !List.in_app_iff. simpl. tauto.
  - intros k. rewrite In_uniq, !List.in_app_iff. simpl. tauto.
Qed.

End DocumentKeys.

(** ** The days of a range *)

Lemma div_day_facts (x : Z) :
  (0 <= x -> 0 <= x / 86400000)
  /\ (x < 0 -> x / 86400000 < 0)
  /\ (x - 86400000) / 86400000 = x / 86400000 - 1
  /\ (0 <= x < 86400000 -> x / 86400000 = 0).
Proof.
  repeat split; intros.
  - apply Z.div_pos; lia.
  - apply Z.div_lt_upper_bound; lia.
  - replace (x - 86400000) with (x + (-1) * 86400000) by lia.
    rewrite Z.div_add by lia. lia.
  - apply Z.div_small; lia.
Qed.

Lemma timeClip_Some t t' : timeClip t = Some t' -> t' = t /\ - MAX_TIME <= t <= MAX_TIME.
Proof.
  unfold timeClip. destruct (Z.leb_spec (Z.abs t) MAX_TIME); [|discriminate].
  intros [= <-]. split; [reflexivity|lia].
Qed.

Lemma dateOf_bounds drt s t : dateOf drt s = Some t -> - MAX_TIME <= t <= MAX_TIME.
Proof.
  unfold dateOf. destruct (utcMidnight drt s); [|discriminate].
  intros H. now apply timeClip_Some in H as [-> H].
Qed.

Lemma dayAfter_next drt c i : dayAfter drt c (S i) = dayAfter drt (c + 86400000) i.
Proof.
  unfold dayAfter, MS_PER_DAY. f_equal. rewrite Nat2Z.inj_succ. lia.
Qed.

Lemma dayAfter_first drt c : dayAfter drt c 0 = isoDay drt c.
Proof. unfold dayAfter. f_equal. simpl. lia. Qed.

Lemma enumerateFrom_days drt e k :
  e <= MAX_TIME ->
  forall c acc fuel,
    - MAX_TIME <= c <= MAX_TIME ->
    k = Z.to_nat ((e - c) / 86400000 + 1) -> (k < fuel)%nat ->
    enumerateFrom drt fuel (Some c) (Some e) acc
    = Some (acc ++ map (dayAfter drt c) (seq 0 k))%list.
Proof.
  intros He. change (24 * 60 * 60 * 1000) with 86400000 in *.
  induction k as [|k IH]; intros c acc fuel Hc Hk Hfuel.
  - destruct fuel as [|fuel]; [lia|]. simpl.
    change (24 * 60 * 60 * 1000) with 86400000.
    destruct (Z.leb_spec c e) as [Hle|_]; [|now rewrite List.app_nil_r].
    exfalso. destruct (div_day_facts (e - c)) as (H1 & _). specialize (H1 ltac:(lia)). lia.
  - destruct fuel as [|fuel]; [lia|]. simpl enumerateFrom.
    change (24 * 60 * 60 * 1000) with 86400000.
    destruct (div_day_facts (e - c)) as (H1 & H2 & H3 & H4).
    destruct (Z.leb_spec c e) as [Hle|Hgt]; [|specialize (H2 ltac:(lia)); lia].
    unfold timeClip.
    destruct (Z.leb_spec (Z.abs (c + 86400000)) MAX_TIME) as [Hin|Hout].
    + rewrite (IH (c + 86400000) _ fuel); [| lia | | lia].
      * rewrite <- List.app_assoc. simpl. f_equal. f_equal. f_equal.
        -- symmetry. apply dayAfter_first.
        -- rewrite <- List.seq_shift, List.map_map.
           apply List.map_ext. intros i. symmetry. apply dayAfter_next.
      * replace (e - (c + 86400000)) with (e - c - 86400000) by lia. rewrite H3. lia.
    + assert (Hk0 : k = 0%nat).
      { rewrite H4 in Hk by (unfold MAX_TIME in *; lia). simpl in Hk. lia. }
      subst k. destruct fuel as [|fuel]; [lia|]. simpl.
      now rewrite dayAfter_first.
Qed.

Lemma enumerateDates_enough_fuel drt startDate endDate :
  exists n, forall fuel, (n <= fuel)%nat ->
    enumerateDates drt fuel startDate endDate
    = Some (daysThrough drt (dateOf drt startDate) (dateOf drt endDate)).
Proof.
  unfold enumerateDates.
  destruct (dateOf drt startDate) as [a|] eqn:Ea;
    [destruct (dateOf drt endDate) as [b|] eqn:Eb|].
  - exists (S (Z.to_nat ((b - a) / MS_PER_DAY + 1))). intros f Hf.
    rewrite (enumerateFrom_days drt b (Z.to_nat ((b - a) / MS_PER_DAY + 1)));
      [reflexivity| | |reflexivity|lia].
    + now apply (dateOf_bounds drt endDate).
    + now apply (dateOf_bounds drt startDate).
  - exists 1%nat. intros [|f] Hf; [lia|reflexivity].
  - exists 1%nat. intros [|f] Hf; [lia|reflexivity].
Qed.

(** [enumerateDates] returns, whatever the two strings: one day per
    twenty-four hours from the start through the end when [Date] reads
    both, and no day at all when it cannot read one of them or the start
    is after the end. It does not raise. *)
Theorem enumerateDates_days (drt : DateRuntime) (startDate endDate : string) :
  let first := dateOf drt startDate in
  let last := dateOf drt endDate in
  (exists n, forall fuel, (n <= fuel)%nat ->
     enumerateDates drt fuel startDate endDate = Some (daysThrough drt first last))
  /\ (first = None \/ last = None -> daysThrough drt first last = [])
  /\ (forall a b, first = Some a -> last = Some b -> b < a ->
        daysThrough drt first last = [])
  /\ (forall a b, first = Some a -> last = Some b -> a <= b ->
        List.length (daysThrough drt first last) = Z.to_nat ((b - a) / MS_PER_DAY + 1)
        /\ (1 <= List.length (daysThrough drt first last))%nat
        /\ head (daysThrough drt first last) = Some (isoDay drt a)
        /\ (startDate = endDate -> daysThrough drt first last = [isoDay drt a])).
Proof.
  intros first last. split; [|split; [|split]].
  - apply enumerateDates_enough_fuel.
  - intros [->| ->]; [reflexivity|]. simpl. now destruct first.
  - intros a b -> -> Hlt. simpl.
    destruct (div_day_facts (b - a)) as (_ & H2 & _). specialize (H2 ltac:(lia)).
    unfold MS_PER_DAY. change (24 * 60 * 60 * 1000) with 86400000.
    replace (Z.to_nat _) with 0%nat by lia. reflexivity.
  - intros a b Ha Hb Hle. rewrite Ha, Hb. simpl daysThrough.
    destruct (div_day_facts (b - a)) as (H1 & _). specialize (H1 ltac:(lia)).
    unfold MS_PER_DAY in *. change (24 * 60 * 60 * 1000) with 86400000 in *.
    rewrite List.length_map, List.length_seq.
    split; [reflexivity|]. split; [lia|].
    destruct (Z.to_nat ((b - a) / 86400000 + 1)) as [|n] eqn:En; [lia|].
    split.
    + simpl. f_equal. unfold dayAfter. f_equal. simpl. lia.
    + intros Heq. unfold first, last in Ha, Hb. rewrite Heq in Ha.
      assert (a = b) by congruence. subst b.
      replace (a - a) with 0 in En by lia.
      rewrite Z.div_0_l in En by lia. change (Z.to_nat (0 + 1)) with 1%nat in En.
      assert (n = 0%nat) by lia. subst n. simpl.
      f_equal. unfold dayAfter. f_equal. simpl. lia.
Qed.

Lemma enumerateDates_days_witness :
  enumerateDates plainDates 5 "2024-02-28" "2024-03-01"
  = Some ["2024-02-28"; "2024-02-29"; "2024-03-01"]
  /\ (exists n, forall fuel, (n <= fuel)%nat ->
        enumerateDates plainDates fuel "2024-02-28" "2024-03-01"
        = Some (daysThrough plainDates (dateOf plainDates "2024-02-28")
                  (dateOf plainDates "2024-03-01"))).
Proof.
  split; [vm_compute; reflexivity|].
  exact (proj1 (enumerateDates_days plainDates "2024-02-28" "2024-03-01")).
Defined.

Lemma enumerateFrom_more_fuel drt fuel fuel' c e acc l :
  (fuel <= fuel')%nat ->
  enumerateFrom drt fuel c e acc = Some l -> enumerateFrom drt fuel' c e acc = Some l.
Proof.
  revert fuel' c acc. induction fuel as [|fuel IH]; intros fuel' c acc Hle; [discriminate|].
  destruct fuel' as [|fuel']; [lia|]. simpl.
  destruct c as [c|], e as [e|]; auto.
  destruct (c <=? e); auto. apply IH. lia.
Qed.

Lemma enumerateDates_result drt fuel startDate endDate dates :
  enumerateDates drt fuel startDate endDate = Some dates ->
  dates = daysThrough drt (dateOf drt startDate) (dateOf drt endDate).
Proof.
  intros H.
  pose proof (enumerateDates_enough_fuel drt startDate endDate) as Hex.
  destruct Hex as [n Hn].
  pose proof (Hn (Nat.max n fuel) ltac:(lia)) as H1.
  pose proof (enumerateFrom_more_fuel drt fuel (Nat.max n fuel) _ _ _ _ ltac:(lia) H) as H2.
  unfold enumerateDates in H1. congruence.
Qed.

Lemma ltb_irrefl (s : string) : String.ltb s s = false.
Proof.
  unfold String.ltb.
  assert (H : String.compare s s = Eq).
  { induction s as [|c r IH]; simpl; [reflexivity|].
    unfold Ascii.compare. now rewrite N.compare_refl. }
  now rewrite H.
Qed.

(** What [parseDateArgs] returns has been validated: apart from the
    current day, returned for no argument, a start and an end in the
    [YYYY-MM-DD] format with the start not after the end as strings, and
    with them the single day or the enumerated days. *)
Theorem parseDateArgs_validates
    (drt : DateRuntime) (fuel : nat) (today : string) (argv : list string) (r : DateArgs) :
  parseDateArgs drt fuel today argv = Returned r ->
  (argv = []
   /\ r = {| da_startDate := today; da_endDate := today; da_dates := [today] |})
  \/ (isIsoDate (da_startDate r) = true /\ isIsoDate (da_endDate r) = true
      /\ String.ltb (da_endDate r) (da_startDate r) = false
      /\ ((argv = [da_startDate r] /\ da_endDate r = da_startDate r
           /\ da_dates r = [da_startDate r])
          \/ (argv = [da_startDate r; da_endDate r]
              /\ da_dates r
                 = daysThrough drt (dateOf drt (da_startDate r))
                     (dateOf drt (da_endDate r))))).
Proof.
  unfold parseDateArgs, validateIsoDate.
  destruct argv as [|a [|b [|c rest]]]; [| | |discriminate].
  - intros [= <-]. now left.
  - destruct (isIsoDate a) eqn:Ea; [|discriminate]. intros [= <-]. right. simpl.
    rewrite Ea, ltb_irrefl. repeat split. left. auto.
  - destruct (isIsoDate a) eqn:Ea; [|discriminate].
    destruct (isIsoDate b) eqn:Eb; [|discriminate].
    destruct (String.ltb b a) eqn:El; [discriminate|].
    destruct (enumerateDates drt fuel a b) as [dates|] eqn:Ed; [|discriminate].
    intros [= <-]. right. simpl. rewrite Ea, Eb, El. repeat split. right.
    split; [reflexivity|]. now apply (enumerateDates_result drt fuel).
Qed.

Lemma parseDateArgs_validates_witness :
  parseDateArgs plainDates 5 "2025-06-01" ["2024-02-28"; "2024-03-01"]
  = Returned {| da_startDate := "2024-02-28"; da_endDate := "2024-03-01";
                da_dates := ["2024-02-28"; "2024-02-29"; "2024-03-01"] |}
  /\ isIsoDate "2024-02-28" = true.
Proof.
  assert (H : parseDateArgs plainDates 5 "2025-06-01" ["2024-02-28"; "2024-03-01"]
              = Returned {| da_startDate := "2024-02-28"; da_endDate := "2024-03-01";
                            da_dates := ["2024-02-28"; "2024-02-29"; "2024-03-01"] |})
    by (vm_compute; reflexivity).
  split; [exact H|].
  destruct (parseDateArgs_validates plainDates 5 "2025-06-01" ["2024-02-28"; "2024-03-01"]
              _ H) as [[Hnil _]|[Hs _]]; [discriminate Hnil|exact Hs].
Defined.

Lemma day_reached (a b : Z) (i : nat) :
  (i < Z.to_nat ((b - a) / MS_PER_DAY + 1))%nat -> a + Z.of_nat i * MS_PER_DAY <= b.
Proof.
  unfold MS_PER_DAY. change (24 * 60 * 60 * 1000) with 86400000. intros Hi.
  assert (Hq : Z.of_nat i <= (b - a) / 86400000) by lia.
  pose proof (Z.mul_div_le (b - a) 86400000 ltac:(lia)) as Hm. nia.
Qed.

(** The dates the range driver goes through. Equal ends give the start
    date alone, unread; otherwise both ends must be in the [YYYY-MM-DD]
    format and in order as strings, or an error is raised, and the dates
    are the days from the start through the end. When every day reached
    is written by the runtime in the [YYYY-MM-DD] format, the dates make up
    a range as the driver's idempotence requires. *)
Theorem enumerateRange_outcome
    (drt : DateRuntime) (today startDate endDate : string) :
  (startDate = endDate ->
   forall fuel, enumerateRange drt fuel today startDate endDate = Returned [startDate])
  /\ (startDate <> endDate -> forall fuel,
        (isIsoDate startDate = false ->
         enumerateRange drt fuel today startDate endDate = Raised (InvalidDate startDate))
        /\ (isIsoDate startDate = true -> isIsoDate endDate = false ->
            enumerateRange drt fuel today startDate endDate = Raised (InvalidDate endDate))
        /\ (isIsoDate startDate = true -> isIsoDate endDate = true ->
            String.ltb endDate startDate = true ->
            enumerateRange drt fuel today startDate endDate
            = Raised (StartAfterEnd startDate endDate)))
  /\ (startDate <> endDate -> isIsoDate startDate = true -> isIsoDate endDate = true ->
      String.ltb endDate startDate = false ->
      exists n, forall fuel, (n <= fuel)%nat ->
        enumerateRange drt fuel today startDate endDate
        = Returned (daysThrough drt (dateOf drt startDate) (dateOf drt endDate)))
  /\ (forall fuel dates,
        enumerateRange drt fuel today startDate endDate = Returned dates ->
        (forall a b i, dateOf drt startDate = Some a -> dateOf drt endDate = Some b ->
           a + Z.of_nat i * MS_PER_DAY <= b -> isIsoDate (dayAfter drt a i) = true) ->
        isEnumeratedRange dates).
Proof.
  unfold enumerateRange, parseDateArgs, validateIsoDate.
  split; [|split; [|split]].
  - intros <- fuel. now rewrite String.eqb_refl.
  - intros Hne fuel. apply String.eqb_neq in Hne. rewrite Hne.
    split; [|split].
    + now intros ->.
    + now intros -> ->.
    + now intros -> -> ->.
  - intros Hne Hs He Hl. apply String.eqb_neq in Hne. rewrite Hne, Hs, He, Hl.
    destruct (enumerateDates_enough_fuel drt startDate endDate) as [n Hn].
    exists n. intros fuel Hfuel. now rewrite (Hn fuel Hfuel).
  - intros fuel dates.
    destruct (String.eqb startDate endDate) eqn:E.
    + intros [= <-] _. left. now exists startDate.
    + destruct (isIsoDate startDate); [|discriminate].
      destruct (isIsoDate endDate); [|discriminate].
      destruct (String.ltb endDate startDate); [discriminate|].
      destruct (enumerateDates drt fuel startDate endDate) as [ds|] eqn:Ed; [|discriminate].
      intros [= <-] Hiso. right.
      rewrite (enumerateDates_result _ _ _ _ _ Ed).
      unfold daysThrough.
      destruct (dateOf drt startDate) as [a|] eqn:Ea; [|constructor].
      destruct (dateOf drt endDate) as [b|] eqn:Eb; [|constructor].
      apply List.Forall_forall. intros d Hd.
      apply List.in_map_iff in Hd as (i & <- & Hi). apply List.in_seq in Hi.
      apply (Hiso a b i eq_refl eq_refl). apply day_reached. lia.
Qed.

Lemma enumerateRange_outcome_witness :
  enumerateRange plainDates 5 "2025-06-01" "2024-02-28" "2024-03-01"
  = Returned ["2024-02-28"; "2024-02-29"; "2024-03-01"]
  /\ isEnumeratedRange ["2024-02-28"; "2024-02-29"; "2024-03-01"].
Proof.
  assert (H : enumerateRange plainDates 5 "2025-06-01" "2024-02-28" "2024-03-01"
              = Returned ["2024-02-28"; "2024-02-29"; "2024-03-01"])
    by (vm_compute; reflexivity).
  split; [exact H|].
  refine (proj2 (proj2 (proj2 (enumerateRange_outcome plainDates "2025-06-01"
                                 "2024-02-28" "2024-03-01"))) 5%nat _ H _).
  intros a b i Ha Hb Hle.
  vm_compute in Ha. vm_compute in Hb. injection Ha as <-. injection Hb as <-.
  unfold MS_PER_DAY in Hle.
  destruct i as [|[|[|i]]]; [vm_compute; reflexivity..|lia].
Defined.

(** ** The two spellings of advancial-prod never reach a bucket *)

Section AdvancialPairs.

Context (rt : JsRuntime).

(** The FI and the instance after both adjustments. *)
Lemma adjusted_pair (s : string) (instanceRaw : value) :
  let fiKey := VStr s in
  let instanceValue := adjustInstanceForFi rt fiKey instanceRaw in
  let adjusted := adjustFiLookupForInstance rt fiKey instanceValue in
  isEmpty s = false ->
  exists fi, adjusted = VStr fi /\ isEmpty fi = false
    /\ ~ (normalizeFiKey rt (VStr fi) = "default"
          /\ canonicalInstance rt instanceValue = "advancialprod")
    /\ ~ (normalizeFiKey rt (VStr fi) = "advancial-prod"
          /\ canonicalInstance rt instanceValue = "default").
Proof.
  intros fiKey instanceValue adjusted Hs.
  unfold adjusted, instanceValue, adjustFiLookupForInstance, adjustInstanceForFi, fiKey.
  destruct (String.eqb_spec (normalizeFiKey rt (VStr s)) "advancial-prod") as [E1|E1];
    destruct (String.eqb_spec (canonicalInstance rt instanceRaw) "default") as [E2|E2];
    simpl andb; cbv iota.
  - rewrite E1. simpl andb. cbv iota. exists s. rewrite E1.
    split; [reflexivity|]. split; [exact Hs|].
    split; intros [H1 H2]; [discriminate H1|].
    vm_compute in H2. discriminate H2.
  - destruct (String.eqb_spec (normalizeFiKey rt (VStr s)) "default") as [E3|E3];
      [rewrite E3 in E1|].
    + destruct (String.eqb_spec (canonicalInstance rt instanceRaw) "advancialprod")
        as [E4|E4]; simpl andb; cbv iota.
      * exists "advancial-prod". split; [reflexivity|]. split; [reflexivity|].
        split; intros [H1 H2]; [vm_compute in H1; discriminate H1|congruence].
      * exists s. split; [reflexivity|]. split; [exact Hs|].
        split; intros [H1 H2]; congruence.
    + simpl andb. cbv iota. exists s. split; [reflexivity|]. split; [exact Hs|].
      split; intros [H1 H2]; congruence.
  - destruct (String.eqb_spec (normalizeFiKey rt (VStr s)) "default") as [E3|E3].
    + rewrite E2. simpl andb. cbv iota. exists s. split; [reflexivity|]. split; [exact Hs|].
      split; intros [H1 H2]; congruence.
    + simpl andb. cbv iota. exists s. split; [reflexivity|]. split; [exact Hs|].
      split; intros [H1 H2]; congruence.
  - destruct (String.eqb_spec (normalizeFiKey rt (VStr s)) "default") as [E3|E3].
    + destruct (String.eqb_spec (canonicalInstance rt instanceRaw) "advancialprod")
        as [E4|E4]; simpl andb; cbv iota.
      * exists "advancial-prod". split; [reflexivity|]. split; [reflexivity|].
        split; intros [H1 H2]; [vm_compute in H1; discriminate H1|congruence].
      * exists s. split; [reflexivity|]. split; [exact Hs|].
        split; intros [H1 H2]; congruence.
    + simpl andb. cbv iota. exists s. split; [reflexivity|]. split; [exact Hs|].
      split; intros [H1 H2]; congruence.
Qed.

Lemma session_pair registryIndex r :
  let norm := normalizeFiKey rt (VStr (sessionFiLookup rt r registryIndex)) in
  let inst := canonicalInstance rt (VStr (sessionInstanceDisplay rt r registryIndex)) in
  ~ (norm = "default" /\ inst = "advancialprod")
  /\ ~ (norm = "advancial-prod" /\ inst = "default").
Proof.
  intros norm inst. unfold norm, inst, sessionFiLookup, sessionInstanceDisplay,
    sessionInstanceValue.
  destruct (safeSessionFiKey_shape rt r registryIndex) as (s & Hs & Hne). rewrite Hs.
  rewrite format_canonical.
  destruct (adjusted_pair s (sessionInstanceRaw r) Hne) as (fi & Hfi & Hfne & H1 & H2).
  cbv zeta in Hfi. rewrite Hfi. unfold vor. simpl truthy. rewrite Hfne. simpl negb.
  cbv iota. simpl truthy. rewrite Hfne. simpl. auto.
Qed.

Lemma placement_pair registryIndex r :
  let norm := normalizeFiKey rt (VStr (placementFiKey rt r registryIndex)) in
  let inst := canonicalInstance rt (VStr (placementInstanceDisplay rt r registryIndex)) in
  ~ (norm = "default" /\ inst = "advancialprod")
  /\ ~ (norm = "advancial-prod" /\ inst = "default").
Proof.
  intros norm inst. unfold norm, inst, placementFiKey, placementInstanceDisplay,
    placementInstanceValue.
  destruct (safePlacementFiKey_shape rt r registryIndex) as (s & Hs & Hne). rewrite Hs.
  simpl toString. rewrite format_canonical.
  destruct (adjusted_pair s (placementInstanceRaw r) Hne) as (fi & Hfi & Hfne & H1 & H2).
  cbv zeta in Hfi. rewrite Hfi. unfold vor. simpl truthy. rewrite Hfne. simpl. auto.
Qed.

Lemma ga_pair (s : string) (instanceRaw : value) :
  ~ (normalizeFiKey rt (VStr s) = "advancial-prod"
     /\ canonicalInstance rt
          (VStr (formatInstanceDisplay rt (adjustInstanceForFi rt (VStr s) instanceRaw)))
        = "default").
Proof.
  rewrite format_canonical. unfold adjustInstanceForFi.
  destruct (String.eqb_spec (normalizeFiKey rt (VStr s)) "advancial-prod") as [E1|E1];
    destruct (String.eqb_spec (canonicalInstance rt instanceRaw) "default") as [E2|E2];
    simpl andb; cbv iota; intros [H1 H2]; try congruence.
  vm_compute in H2. discriminate H2.
Qed.

Lemma gaRowStep_pairs registryIndex byInstance row byInstance' :
  Forall (fun kv : string * GaBucket => gaPairKept rt (snd kv)) byInstance ->
  gaRowStep rt registryIndex byInstance row = Some byInstance' ->
  Forall (fun kv : string * GaBucket => gaPairKept rt (snd kv)) byInstance'.
Proof.
  intros Hall. destruct row as [|originalRow]; simpl; [now intros [= <-]|].
  destruct (gaHost originalRow) as [| | | |host]; try discriminate.
  destruct (truthy (gaFiKey _ _ _ _)) eqn:Et; simpl; [|now intros [= <-]].
  intros [= <-]. apply Forall_oset; [exact Hall|].
  unfold gaFiKey in *.
  apply resolveFiKey_shape in Et as [fiKey [Efi Hfi]].
  rewrite Efi. simpl snd.
  assert (Hkeep : forall b isTest pagePath count,
             gaPairKept rt b ->
             gaPairKept rt (gaAddCount (gaMarkTest isTest b) pagePath count)).
  { intros b isTest pagePath count Hb. unfold gaPairKept, gaAddCount, gaMarkTest in *.
    destruct isTest; repeat destruct (startsWith _ _); exact Hb. }
  apply Hkeep.
  destruct (oget _ byInstance) as [b|] eqn:E.
  - exact (Forall_oget _ _ _ _ Hall E).
  - unfold gaPairKept. simpl. unfold gaInstanceDisplay. apply ga_pair.
Qed.

Lemma gaScanRows_pairs registryIndex rows byInstance byInstance' :
  Forall (fun kv : string * GaBucket => gaPairKept rt (snd kv)) byInstance ->
  gaScanRows rt registryIndex rows byInstance = Some byInstance' ->
  Forall (fun kv : string * GaBucket => gaPairKept rt (snd kv)) byInstance'.
Proof.
  revert byInstance. induction rows as [|row rest IH]; intros byInstance H; simpl.
  - now intros [= <-].
  - destruct (gaRowStep rt registryIndex byInstance row) as [b1|] eqn:E; [|discriminate].
    apply IH. eapply gaRowStep_pairs; eauto.
Qed.

Lemma aggregateGa_pairs day raw registryIndex agg :
  aggregateGaFromRaw rt day raw registryIndex = Some agg ->
  Forall (fun kv : string * GaBucket => gaPairKept rt (snd kv)) (byInstance agg).
Proof.
  unfold aggregateGaFromRaw.
  destruct raw as [payload|]; [|intros [= <-]; constructor].
  destruct (truthy (pl_error payload)); [intros [= <-]; constructor|].
  destruct (gaScanRows _ _ _ _) as [byInstance0|] eqn:Es; [|discriminate].
  intros [= <-]. simpl.
  eapply gaScanRows_pairs; [|exact Es]. constructor.
Qed.

Lemma lower_key_normalised (fi : string) :
  toLowerCase fi = "advancial-prod" -> normalizeFiKey rt (VStr fi) = "advancial-prod".
Proof.
  intros H. unfold normalizeFiKey. simpl truthy. simpl toString.
  destruct (isEmpty fi) eqn:E; simpl.
  - destruct fi; [discriminate H|discriminate E].
  - now rewrite <- trim_lower, H.
Qed.

(** Neither [default__advancialprod] nor [advancial-prod__default] is
    ever an instance key of the Sessions or of the Placements aggregator,
    and [advancial-prod__default] is never one of the GA aggregator. *)
Theorem advancial_keys_never_stored (registryIndex : RegistryIndex) :
  (forall raw,
      let sessions := aggregateSessionsFromRaw rt raw registryIndex in
      oget "default__advancialprod" (byInstance sessions) = None
      /\ oget "advancial-prod__default" (byInstance sessions) = None)
  /\ (forall raw placements,
         aggregatePlacementsFromRaw rt raw registryIndex = Some placements ->
         oget "default__advancialprod" (byInstance placements) = None
         /\ oget "advancial-prod__default" (byInstance placements) = None)
  /\ (forall day raw ga,
         aggregateGaFromRaw rt day raw registryIndex = Some ga ->
         oget "advancial-prod__default" (byInstance ga) = None).
Proof.
  assert (Hparts : forall n i n' i' : string,
             allString isAlnumLower i = true -> allString isAlnumLower i' = true ->
             n +:+ "__" +:+ i = n' +:+ "__" +:+ i' -> n = n' /\ i = i').
  { intros n i n' i' Hi Hi' H. now apply key_parts. }
  split; [|split].
  - intros raw sessions.
    assert (Hno : forall k b, oget k (byInstance sessions) = Some b ->
              ~ (s_fi_lookup_norm b = "default" /\ s_instance_norm b = "advancialprod")
              /\ ~ (s_fi_lookup_norm b = "advancial-prod" /\ s_instance_norm b = "default")).
    { intros k b Hb.
      pose proof (Forall_oget _ _ _ _ (sessions_formed rt raw registryIndex) Hb) as Hformed.
      simpl in Hformed.
      unfold sessions in Hb. rewrite sessions_byInstance in Hb.
      destruct raw as [payload|]; [|discriminate Hb].
      destruct (truthy (pl_error payload)); [discriminate Hb|].
      apply oget_In_keys, upsertFold_keys in Hb as [[]|(r & Hr & Hk)].
      destruct Hformed as (H1 & _ & _ & H4 & _).
      rewrite sessionKey_parts, H1 in Hk.
      apply Hparts in Hk as [Hn Hi];
        [|apply canonicalInstance_alnum|rewrite H4; apply canonicalInstance_alnum].
      rewrite <- Hn, <- Hi. apply session_pair. }
    split.
    + destruct (oget "default__advancialprod" (byInstance sessions)) as [b|] eqn:E;
        [exfalso|reflexivity].
      destruct (Hno _ _ E) as [H _]. apply H.
      pose proof (Forall_oget _ _ _ _ (sessions_formed rt raw registryIndex) E)
        as (H1 & _ & _ & H4 & _). simpl in H1, H4.
      apply (Hparts "default" "advancialprod") in H1 as [<- <-];
        [auto|reflexivity|rewrite H4; apply canonicalInstance_alnum].
    + destruct (oget "advancial-prod__default" (byInstance sessions)) as [b|] eqn:E;
        [exfalso|reflexivity].
      destruct (Hno _ _ E) as [_ H]. apply H.
      pose proof (Forall_oget _ _ _ _ (sessions_formed rt raw registryIndex) E)
        as (H1 & _ & _ & H4 & _). simpl in H1, H4.
      apply (Hparts "advancial-prod" "default") in H1 as [<- <-];
        [auto|reflexivity|rewrite H4; apply canonicalInstance_alnum].
  - intros raw placements Hagg.
    assert (Hno : forall k b, oget k (byInstance placements) = Some b ->
              ~ (p_fi_lookup_norm b = "default" /\ p_instance_norm b = "advancialprod")
              /\ ~ (p_fi_lookup_norm b = "advancial-prod" /\ p_instance_norm b = "default")).
    { intros k b Hb.
      pose proof (Forall_oget _ _ _ _ (placements_formed rt _ _ _ Hagg) Hb) as Hformed.
      simpl in Hformed.
      rewrite (placements_byInstance rt _ _ _ Hagg) in Hb.
      destruct raw as [payload|]; [|discriminate Hb].
      destruct (truthy (pl_error payload)); [discriminate Hb|].
      apply oget_In_keys, upsertFold_keys in Hb as [[]|(r & Hr & Hk)].
      destruct Hformed as (H1 & _ & _ & H4 & _).
      rewrite placementKey_parts, H1 in Hk.
      apply Hparts in Hk as [Hn Hi];
        [|apply canonicalInstance_alnum|rewrite H4; apply canonicalInstance_alnum].
      rewrite <- Hn, <- Hi. apply placement_pair. }
    split.
    + destruct (oget "default__advancialprod" (byInstance placements)) as [b|] eqn:E;
        [exfalso|reflexivity].
      destruct (Hno _ _ E) as [H _]. apply H.
      pose proof (Forall_oget _ _ _ _ (placements_formed rt _ _ _ Hagg) E)
        as (H1 & _ & _ & H4 & _). simpl in H1, H4.
      apply (Hparts "default" "advancialprod") in H1 as [<- <-];
        [auto|reflexivity|rewrite H4; apply canonicalInstance_alnum].
    + destruct (oget "advancial-prod__default" (byInstance placements)) as [b|] eqn:E;
        [exfalso|reflexivity].
      destruct (Hno _ _ E) as [_ H]. apply H.
      pose proof (Forall_oget _ _ _ _ (placements_formed rt _ _ _ Hagg) E)
        as (H1 & _ & _ & H4 & _). simpl in H1, H4.
      apply (Hparts "advancial-prod" "default") in H1 as [<- <-];
        [auto|reflexivity|rewrite H4; apply canonicalInstance_alnum].
  - intros day raw ga Hagg.
    destruct (oget "advancial-prod__default" (byInstance ga)) as [b|] eqn:E;
      [exfalso|reflexivity].
    pose proof (Forall_oget _ _ _ _ (aggregateGa_formed rt _ _ _ _ Hagg) E)
      as (H1 & H2 & _). simpl in H1, H2.
    apply (Hparts "advancial-prod" "default") in H1 as [Hn Hi];
      [|reflexivity|rewrite H2; apply canonicalInstance_alnum].
    pose proof (Forall_oget _ _ _ _ (aggregateGa_pairs _ _ _ _ Hagg) E) as Hb.
    simpl in Hb. apply Hb. split; [|now symmetry].
    apply lower_key_normalised. now symmetry.
Qed.

End AdvancialPairs.

(** ** Every GA row is counted once *)

Section GaCounts.

Context (rt : JsRuntime).

Lemma gaColumnGet_add column isTest b pagePath count :
  gaColumnGet column (gaAddCount (gaMarkTest isTest b) pagePath count)
  = if from_option (gaColumnEqb column) false (gaColumnOf pagePath)
    then numAdd (gaColumnGet column b) count
    else gaColumnGet column b.
Proof.
  unfold gaAddCount, gaMarkTest, gaColumnOf.
  destruct isTest, column;
    destruct (startsWith pagePath "/select-merchants");
    destruct (startsWith pagePath "/user-data-collection");
    destruct (startsWith pagePath "/credential-entry"); reflexivity.
Qed.

Lemma gaRowStep_counts registryIndex byInstance row byInstance' k column :
  gaRowStep rt registryIndex byInstance row = Some byInstance' ->
  gaColumnAt column byInstance' k
  = (if gaRowCounts rt registryIndex k column row
     then numAdd (gaColumnAt column byInstance k) (gaRowCount rt row)
     else gaColumnAt column byInstance k)
  /\ (oget k byInstance' <> None
      <-> oget k byInstance <> None \/ gaRowKey rt registryIndex row = Some k).
Proof.
  unfold gaRowCounts, gaRowCount.
  destruct row as [|originalRow]; simpl.
  { intros [= <-]. split; [reflexivity|]. split; [auto|]. now intros [H|H]. }
  destruct (gaHost originalRow) as [| | | |host]; try discriminate.
  destruct (truthy (gaFiKey _ _ _ _)) eqn:Et; simpl.
  2:{ intros [= <-]. split; [reflexivity|]. split; [auto|]. now intros [H|H]. }
  intros [= <-].
  set (key := makeFiInstanceKey rt _ _).
  unfold gaColumnAt. rewrite oget_oset.
  destruct (String.eqb_spec k key) as [->|Hne].
  - rewrite String.eqb_refl. simpl andb. simpl from_option at 1.
    rewrite gaColumnGet_add. split.
    + destruct (oget key byInstance) as [b|]; simpl;
        destruct (from_option _ false _); try reflexivity; destruct column; reflexivity.
    + split; [auto|discriminate].
  - assert (Hne' : (key =? k)%string = false) by (apply String.eqb_neq; congruence).
    rewrite Hne'. simpl andb. cbv iota. split; [reflexivity|].
    split; [auto|]. intros [H|H]; [exact H|]. congruence.
Qed.

Lemma gaScanRows_counts registryIndex rows byInstance byInstance' k column :
  gaScanRows rt registryIndex rows byInstance = Some byInstance' ->
  gaColumnAt column byInstance' k
  = foldl numAdd (gaColumnAt column byInstance k)
      (map (gaRowCount rt) (List.filter (gaRowCounts rt registryIndex k column) rows))
  /\ (oget k byInstance' <> None
      <-> oget k byInstance <> None
          \/ exists row, In row rows /\ gaRowKey rt registryIndex row = Some k).
Proof.
  revert byInstance. induction rows as [|row rest IH]; intros byInstance; simpl.
  - intros [= <-]. split; [reflexivity|]. split; [auto|]. now intros [H|(r & [] & _)].
  - destruct (gaRowStep rt registryIndex byInstance row) as [b1|] eqn:E; [|discriminate].
    intros Hrest. destruct (IH _ Hrest) as [IH1 IH2].
    destruct (gaRowStep_counts _ _ _ _ k column E) as [S1 S2].
    split.
    + rewrite IH1, S1. simpl List.filter.
      destruct (gaRowCounts rt registryIndex k column row); reflexivity.
    + rewrite IH2, S2. split.
      * intros [[H|H]|(r & Hr & Hk)];
          [now left|right; exists row; split; [now left|exact H]
          |right; exists r; split; [now right|exact Hk]].
      * intros [H|(r & [<-|Hr] & Hk)];
          [now left; left|now left; right|right; exists r; split; assumption].
Qed.

(** When the GA aggregator returns, its instance keys are the keys of
    the rows it files, also of those whose page is none of the three
    steps, and each counter of an instance bucket is the sum, in the order
    of the rows, of the counts of the rows filed under that key whose page
    starts with the path of that counter. *)
Theorem every_ga_row_counted
    (day : string) (payload : Payload) (registryIndex : RegistryIndex)
    (ga : Aggregate GaBucket GaFiBucket) :
  truthy (pl_error payload) = false ->
  aggregateGaFromRaw rt day (Some payload) registryIndex = Some ga ->
  (forall k, oget k (byInstance ga) <> None
             <-> exists row, In row (payloadItems payload)
                             /\ gaRowKey rt registryIndex row = Some k)
  /\ (forall k bucket column,
         oget k (byInstance ga) = Some bucket ->
         gaColumnGet column bucket
         = gaColumnTotal rt registryIndex k column (payloadItems payload)).
Proof.
  intros Herr. unfold aggregateGaFromRaw. rewrite Herr.
  destruct (gaScanRows _ _ _ _) as [byInstance0|] eqn:Es; [|discriminate].
  intros [= <-]. simpl byInstance. split.
  - intros k. destruct (gaScanRows_counts _ _ _ _ k SelectMerchants Es) as [_ H].
    rewrite H. simpl. split; [now intros [H'|H']|auto].
  - intros k bucket column Hb.
    destruct (gaScanRows_counts _ _ _ _ k column Es) as [H _].
    unfold gaColumnAt in H. rewrite Hb in H. exact H.
Qed.

End GaCounts.

Lemma every_ga_row_counted_witness :
  aggregateGaFromRaw plainRuntime "2025-01-01" (Some (payloadOf gaCountRows)) emptyIndex
  = Some (gaOf gaCountRows)
  /\ (exists bucket, oget "acme__acme" (byInstance (gaOf gaCountRows)) = Some bucket
                     /\ g_select_merchants bucket = Fin 7
                     /\ g_credential_entry bucket = Fin 0)
  /\ oget "beta__beta" (byInstance (gaOf gaCountRows)) <> None.
Proof.
  assert (Hagg : aggregateGaFromRaw plainRuntime "2025-01-01" (Some (payloadOf gaCountRows))
                   emptyIndex = Some (gaOf gaCountRows)) by (vm_compute; reflexivity).
  destruct (every_ga_row_counted plainRuntime "2025-01-01" (payloadOf gaCountRows)
              emptyIndex (gaOf gaCountRows) eq_refl Hagg) as [Hkeys Hcounts].
  split; [exact Hagg|]. split.
  - destruct (oget "acme__acme" (byInstance (gaOf gaCountRows))) as [bucket|] eqn:E;
      [|vm_compute in E; discriminate E].
    exists bucket. split; [reflexivity|]. split.
    + change (gaColumnGet SelectMerchants bucket = Fin 7).
      rewrite (Hcounts _ _ SelectMerchants E). vm_compute. reflexivity.
    + change (gaColumnGet CredentialEntry bucket = Fin 0).
      rewrite (Hcounts _ _ CredentialEntry E). vm_compute. reflexivity.
  - apply Hkeys.
    exists (Object {[ "host" := VStr "beta.cardupdatr.app"; "page" := VStr "/other";
                      "active_users" := VNum (Fin 5) ]}).
    split; [right; right; right; left; reflexivity|vm_compute; reflexivity].
Defined.

(** ** Worked runs *)

Lemma test_flag_follows_instance_witness :
  (aggregateGaFromRaw plainRuntime "2025-01-01" (Some (payloadOf scenarioRows)) emptyIndex
   = Some (gaOf scenarioRows)
   /\ aggregatePlacementsFromRaw plainRuntime (Some (payloadOf samplePlacements)) emptyIndex
      = Some samplePlacementsAggregate)
  /\ exists e,
       oget "acme__instance1"
         (fi_instances
            (buildDailyDocument plainRuntime "2025-01-01" (gaOf scenarioRows)
               (aggregateSessionsFromRaw plainRuntime (Some (payloadOf sampleSessions))
                  emptyIndex)
               samplePlacementsAggregate)) = Some e
       /\ exists fiPart instancePart,
            "acme__instance1" = fiPart +:+ "__" +:+ instancePart
            /\ allString isAlnumLower instancePart = true
            /\ isEmpty instancePart = false
            /\ is_test e = isTestInstanceName instancePart.
Proof.
  split; [split; vm_compute; reflexivity|].
  eexists. split; [vm_compute; reflexivity|].
  refine (test_flag_follows_instance plainRuntime "2025-01-01"
            (Some (payloadOf scenarioRows)) (Some (payloadOf sampleSessions))
            (Some (payloadOf samplePlacements)) emptyIndex (gaOf scenarioRows)
            samplePlacementsAggregate "acme__instance1" _ _ _ _);
    vm_compute; reflexivity.
Defined.


Lemma every_placement_counted_witness :
  (truthy (pl_error (payloadOf samplePlacements)) = false
   /\ aggregatePlacementsFromRaw plainRuntime (Some (payloadOf samplePlacements)) emptyIndex
      = Some samplePlacementsAggregate)
  /\ totalOver total_placements (byFi samplePlacementsAggregate)
     = objectCount (payloadItems (payloadOf samplePlacements)).
Proof.
  assert (H : aggregatePlacementsFromRaw plainRuntime (Some (payloadOf samplePlacements))
                emptyIndex = Some samplePlacementsAggregate) by (vm_compute; reflexivity).
  split; [split; [reflexivity|exact H]|].
  exact (proj2 (proj2 (proj2 (proj2
           (every_placement_counted plainRuntime (payloadOf samplePlacements) emptyIndex
              samplePlacementsAggregate eq_refl H))))).
Defined.

Lemma ga_raises_on_host_that_is_no_string_witness :
  aggregateGaFromRaw plainRuntime "2025-01-01"
    (Some (payloadOf [Object {[ "host" := VNum (Fin 7); "fi_key" := VStr "acme" ]}]))
    emptyIndex = None.
Proof.
  apply (ga_raises_on_host_that_is_no_string plainRuntime).
  exists (payloadOf [Object {[ "host" := VNum (Fin 7); "fi_key" := VStr "acme" ]}]),
    {[ "host" := VNum (Fin 7); "fi_key" := VStr "acme" ]}.
  split; [reflexivity|split; [reflexivity|split; [now left|vm_compute; reflexivity]]].
Defined.

Lemma placements_raise_on_inherited_name_witness :
  aggregatePlacementsFromRaw plainRuntime
    (Some (payloadOf [Object {[ "fi_lookup_key" := VStr " Constructor " ]}])) emptyIndex
  = None.
Proof.
  apply (placements_raise_on_inherited_name plainRuntime).
  exists (payloadOf [Object {[ "fi_lookup_key" := VStr " Constructor " ]}]),
    {[ "fi_lookup_key" := VStr " Constructor " ]}.
  split; [reflexivity|split; [reflexivity|split; [now left|vm_compute; reflexivity]]].
Defined.

(** ** C10: the termination breakdown is a partition *)

Lemma recordsWhere_pos p rows r :
  In (Object r) rows -> p r = true -> 1 <= recordsWhere p rows.
Proof.
  intros Hin Hp. induction rows as [|row rest IH]; [destruct Hin|].
  rewrite recordsWhere_cons.
  assert (H0 : 0 <= recordsWhere p rest) by (unfold recordsWhere; lia).
  destruct Hin as [->|Hin].
  - rewrite Hp. lia.
  - specialize (IH Hin). destruct row as [|r']; [|destruct (p r')]; lia.
Qed.

Section TerminationPartition.

Context (rt : JsRuntime).

Lemma placementStep_counts registryIndex byInstance placement :
  let key := placementKey rt placement registryIndex in
  let before := from_option p_totals emptyPlacementTotals (oget key byInstance) in
  let after := placementStep rt registryIndex byInstance (Object placement) in
  (forall k, k <> key -> oget k after = oget k byInstance)
  /\ exists b,
       oget key after = Some b
       /\ total_placements (p_totals b) = total_placements before + 1
       /\ forall t, countAt t (by_termination (p_totals b))
                    = countAt t (by_termination before)
                      + (if String.eqb t (placementTermination rt placement) then 1 else 0).
Proof.
  intros key before after. unfold after, before. cbn [placementStep]. fold key. split.
  - intros k Hk. now apply oget_oset_ne.
  - eexists. split; [apply oget_oset_eq|].
    unfold placementRecord, placementCount.
    cbn [p_totals total_placements by_termination].
    destruct (oget key byInstance) as [b|]; cbn [from_option placementFresh p_totals];
      (split; [reflexivity|intros t; apply countAt_bump]).
Qed.


End TerminationPartition.

